(** * SGX smart-contract verifier: the bytecode VM and its boundary calls

    A shallow embedding of [src/enclave/contract_verifier.cpp] and of the
    trusted entry points of [src/enclave/enclave.cpp], with the properties
    the specification states about them.

    Conventions.  A [uint8_t], [uint64_t] or [size_t] is a [Z]; wrap-around is
    written out with [u64].  A byte buffer is a [list Z].  A pointer that the
    code tests against NULL is an [option].  The platform's SHA-256 is
    implemented below after FIPS 180-4; the platform's random source, clock
    and ECDSA primitives are an interface ([Platform]).  What an
    uninitialised local holds when the code reads it is an input of the
    model ([stale]). *)

From Stdlib Require Import ZArith List Bool Lia.
Import ListNotations.
Local Open Scope Z_scope.

(** ** Machine integers *)

Module U64.

Definition modulus : Z := 2 ^ 64.
Definition max : Z := 2 ^ 64 - 1.

(** The value a [uint64_t] (or [size_t]) holds after an arithmetic result [x]. *)
Definition u64 (x : Z) : Z := x mod modulus.

Definition in_range (x : Z) : Prop := 0 <= x < modulus.

(** [n] bytes of [x], least significant first ([memcpy] out of an integer). *)
Fixpoint le_bytes (n : nat) (x : Z) : list Z :=
  match n with
  | O => []
  | S k => x mod 256 :: le_bytes k (x / 256)
  end.

(** The integer whose little-endian bytes are [bs] ([memcpy] into an integer). *)
Fixpoint le_value (bs : list Z) : Z :=
  match bs with
  | [] => 0
  | b :: rest => b + 256 * le_value rest
  end.

End U64.

(** ** SHA-256 (the platform's [sgx_sha256_msg] and streaming interface) *)

Module Sha256.

Definition w32 (x : Z) : Z := x mod 2 ^ 32.
Definition add32 (x y : Z) : Z := w32 (x + y).
Definition rotr (n x : Z) : Z := w32 (Z.lor (Z.shiftr x n) (Z.shiftl x (32 - n))).
Definition not32 (x : Z) : Z := Z.lxor x 0xFFFFFFFF.

Definition Ch (x y z : Z) : Z := Z.lxor (Z.land x y) (Z.land (not32 x) z).
Definition Maj (x y z : Z) : Z :=
  Z.lxor (Z.lxor (Z.land x y) (Z.land x z)) (Z.land y z).
Definition Sigma0 (x : Z) : Z := Z.lxor (Z.lxor (rotr 2 x) (rotr 13 x)) (rotr 22 x).
Definition Sigma1 (x : Z) : Z := Z.lxor (Z.lxor (rotr 6 x) (rotr 11 x)) (rotr 25 x).
Definition sigma0 (x : Z) : Z := Z.lxor (Z.lxor (rotr 7 x) (rotr 18 x)) (Z.shiftr x 3).
Definition sigma1 (x : Z) : Z := Z.lxor (Z.lxor (rotr 17 x) (rotr 19 x)) (Z.shiftr x 10).

(** The constants, as FIPS 180-4 defines them: the first 32 bits of the
    fractional parts of the cube roots of the first 64 primes, and of the
    square roots of the first 8 primes. *)
Definition is_prime (n : nat) : bool :=
  forallb (fun d => negb (Nat.eqb (Nat.modulo n d) 0)) (seq 2 (n - 2)).

Definition primes : list Z := map Z.of_nat (filter is_prime (seq 2 310)).

Fixpoint cube_root_bits (n : nat) (x r : Z) : Z :=
  match n with
  | O => r
  | S k =>
      let r' := r + 2 ^ Z.of_nat k in
      if r' * r' * r' <=? x then cube_root_bits k x r' else cube_root_bits k x r
  end.

Definition cube_root (x : Z) : Z := cube_root_bits 48 x 0.

Definition K : list Z :=
  Eval vm_compute in map (fun p => w32 (cube_root (p * 2 ^ 96))) primes.

Definition H0 : list Z :=
  Eval vm_compute in map (fun p => w32 (Z.sqrt (p * 2 ^ 64))) (firstn 8 primes).

(** Big-endian bytes of a word, and back. *)
Fixpoint be_bytes (n : nat) (x : Z) : list Z :=
  match n with
  | O => []
  | S k => (x / 256 ^ Z.of_nat k) mod 256 :: be_bytes k x
  end.

Definition be_value (bs : list Z) : Z := fold_left (fun acc b => acc * 256 + b) bs 0.

(** Message padding: a 1 bit, zeros up to 56 mod 64, the bit length on 8 bytes. *)
Definition pad (msg : list Z) : list Z :=
  let len := Z.of_nat (length msg) in
  msg ++ [0x80] ++ repeat 0 (Z.to_nat ((55 - len) mod 64)) ++ be_bytes 8 (8 * len).

Fixpoint chunks (fuel : nat) (size : nat) (l : list Z) : list (list Z) :=
  match fuel, l with
  | O, _ => []
  | _, [] => []
  | S f, _ => firstn size l :: chunks f size (skipn size l)
  end.

(** The message schedule, most recent word first while it is extended. *)
Fixpoint extend (n : nat) (rw : list Z) : list Z :=
  match n with
  | O => rw
  | S k =>
      let w := add32 (add32 (sigma1 (nth 1 rw 0)) (nth 6 rw 0))
                     (add32 (sigma0 (nth 14 rw 0)) (nth 15 rw 0)) in
      extend k (w :: rw)
  end.

Definition schedule (block : list Z) : list Z :=
  rev (extend 48 (rev (map be_value (chunks 16 4 block)))).

Definition round (st : list Z) (kw : Z * Z) : list Z :=
  match st with
  | [a; b; c; d; e; f; g; h] =>
      let t1 := add32 (add32 (add32 h (Sigma1 e)) (add32 (Ch e f g) (fst kw))) (snd kw) in
      let t2 := add32 (Sigma0 a) (Maj a b c) in
      [add32 t1 t2; a; b; c; add32 d t1; e; f; g]
  | _ => st
  end.

Definition compress (h : list Z) (block : list Z) : list Z :=
  let st := fold_left round (combine K (schedule block)) h in
  map (fun p => add32 (fst p) (snd p)) (combine h st).

Definition sha256 (msg : list Z) : list Z :=
  let padded := pad msg in
  let blocks := chunks (length padded) 64 padded in
  flat_map (be_bytes 4) (fold_left compress blocks H0).

End Sha256.

(** The streaming interface: a handle is the message fed so far. *)
Definition sgx_sha_state_handle_t : Type := list Z.
Definition sgx_sha256_init : sgx_sha_state_handle_t := [].
Definition sgx_sha256_update (data : list Z) (h : sgx_sha_state_handle_t)
  : sgx_sha_state_handle_t := h ++ data.
Definition sgx_sha256_get_hash (h : sgx_sha_state_handle_t) : list Z := Sha256.sha256 h.
Definition sgx_sha256_msg (data : list Z) : list Z := Sha256.sha256 data.

(** ** Types and constants of [enclave.h] *)

Definition MAX_CONTRACT_SIZE : Z := 1024 * 1024.
Definition MAX_RESULT_SIZE : Z := 64 * 1024.
Definition DEFAULT_GAS_LIMIT : Z := 1000000.
Definition MEMORY_SIZE : Z := 4096.
Definition STACK_SLOTS : Z := 256.

Inductive sgx_status_t : Type :=
| SGX_SUCCESS
| SGX_ERROR_INVALID_PARAMETER
| SGX_ERROR_INVALID_STATE
| SGX_ERROR_OUT_OF_MEMORY
| SGX_ERROR_UNEXPECTED
| SGX_ERROR_CONTRACT_INVALID
| SGX_ERROR_CONTRACT_EXECUTION_FAILED
| SGX_ERROR_INSUFFICIENT_GAS.

(** [contract_opcode_t]: an opcode is the byte read from the code. *)
Definition contract_opcode_t : Type := Z.
Definition OP_NOP : Z := 0x00.
Definition OP_PUSH : Z := 0x01.
Definition OP_POP : Z := 0x02.
Definition OP_ADD : Z := 0x03.
Definition OP_SUB : Z := 0x04.
Definition OP_MUL : Z := 0x05.
Definition OP_DIV : Z := 0x06.
Definition OP_MOD : Z := 0x07.
Definition OP_AND : Z := 0x08.
Definition OP_OR : Z := 0x09.
Definition OP_XOR : Z := 0x0A.
Definition OP_NOT : Z := 0x0B.
Definition OP_EQ : Z := 0x0C.
Definition OP_LT : Z := 0x0D.
Definition OP_GT : Z := 0x0E.
Definition OP_JMP : Z := 0x0F.
Definition OP_JMPIF : Z := 0x10.
Definition OP_CALL : Z := 0x11.
Definition OP_RET : Z := 0x12.
Definition OP_LOAD : Z := 0x13.
Definition OP_STORE : Z := 0x14.
Definition OP_HASH : Z := 0x15.
Definition OP_VERIFY : Z := 0x16.
Definition OP_HALT : Z := 0xFF.

Inductive contract_execution_state_t : Type :=
| CONTRACT_STATE_INIT
| CONTRACT_STATE_RUNNING
| CONTRACT_STATE_COMPLETED
| CONTRACT_STATE_ERROR
| CONTRACT_STATE_OUT_OF_GAS.

(** [vm_stack_t]: the live slots [data[0..top)], [data[top-1]] first; [top] is
    the length. *)
Definition vm_stack_t : Type := list Z.

(** [contract_execution_context_t].  [code_size] is the length of
    [contract_code]; [input_data] is [None] for a NULL pointer and otherwise
    the [input_size] bytes it points to; [result_data] holds the
    [result_size] bytes of the result buffer that count. *)
Record contract_execution_context_t : Type := mkContext {
  contract_code : list Z;
  input_data : option (list Z);
  result_data : list Z;
  gas_limit : Z;
  gas_used : Z;
  pc : Z;
  state : contract_execution_state_t;
  stack : vm_stack_t;
  memory : list Z;
  execution_hash : list Z
}.

Definition code_size (c : contract_execution_context_t) : Z :=
  Z.of_nat (length (contract_code c)).
Definition result_size (c : contract_execution_context_t) : Z :=
  Z.of_nat (length (result_data c)).

Definition set_pc (c : contract_execution_context_t) (v : Z) :=
  mkContext (contract_code c) (input_data c) (result_data c) (gas_limit c) (gas_used c)
            v (state c) (stack c) (memory c) (execution_hash c).
Definition set_state (c : contract_execution_context_t) (v : contract_execution_state_t) :=
  mkContext (contract_code c) (input_data c) (result_data c) (gas_limit c) (gas_used c)
            (pc c) v (stack c) (memory c) (execution_hash c).
Definition set_stack (c : contract_execution_context_t) (v : vm_stack_t) :=
  mkContext (contract_code c) (input_data c) (result_data c) (gas_limit c) (gas_used c)
            (pc c) (state c) v (memory c) (execution_hash c).
Definition set_memory (c : contract_execution_context_t) (v : list Z) :=
  mkContext (contract_code c) (input_data c) (result_data c) (gas_limit c) (gas_used c)
            (pc c) (state c) (stack c) v (execution_hash c).
Definition set_gas_used (c : contract_execution_context_t) (v : Z) :=
  mkContext (contract_code c) (input_data c) (result_data c) (gas_limit c) v
            (pc c) (state c) (stack c) (memory c) (execution_hash c).
Definition set_execution_hash (c : contract_execution_context_t) (v : list Z) :=
  mkContext (contract_code c) (input_data c) (result_data c) (gas_limit c) (gas_used c)
            (pc c) (state c) (stack c) (memory c) v.

(** [contract_verifier_t] (the key and hash fields play no part here). *)
Record contract_verifier_t : Type := mkVerifier {
  initialized : bool;
  execution_counter : Z
}.

(** ** [contract_verifier.cpp] *)

Import U64.

Definition byte_at (code : list Z) (i : Z) : Z := nth (Z.to_nat i) code 0.

(** [len] bytes of [buf] from offset [off]. *)
Definition slice (buf : list Z) (off len : Z) : list Z :=
  firstn (Z.to_nat len) (skipn (Z.to_nat off) buf).

(** [buf] with [data] written at offset [off]. *)
Definition splice (buf : list Z) (off : Z) (data : list Z) : list Z :=
  firstn (Z.to_nat off) buf ++ data ++ skipn (Z.to_nat off + length data) buf.

(** *** The gas table

    [GAS_COSTS] is declared with designated initializers for NOP, PUSH, POP,
    ADD, SUB, MUL and HALT.  Its largest index is [OP_HALT], so it has 256
    entries, and the entries it does not name are zero. *)
Definition GAS_COSTS_length : Z := OP_HALT + 1.

Definition GAS_COSTS (i : Z) : Z :=
  if i =? OP_NOP then 1
  else if i =? OP_PUSH then 3
  else if i =? OP_POP then 2
  else if i =? OP_ADD then 3
  else if i =? OP_SUB then 3
  else if i =? OP_MUL then 5
  else if i =? OP_HALT then 0
  else 0.

Definition get_opcode_gas_cost (opcode : contract_opcode_t) : Z :=
  if opcode <? GAS_COSTS_length then GAS_COSTS opcode else 1.

Definition check_gas (context : contract_execution_context_t) (gas_cost : Z) : bool :=
  u64 (gas_used context + gas_cost) <=? gas_limit context.

Definition consume_gas (context : contract_execution_context_t) (gas_cost : Z)
  : sgx_status_t * contract_execution_context_t :=
  if negb (check_gas context gas_cost) then (SGX_ERROR_INSUFFICIENT_GAS, context)
  else (SGX_SUCCESS, set_gas_used context (u64 (gas_used context + gas_cost))).

(** *** The operand stack *)

Definition stack_is_empty (s : vm_stack_t) : bool :=
  Z.of_nat (length s) =? 0.

Definition stack_is_full (s : vm_stack_t) : bool :=
  Z.of_nat (length s) >=? STACK_SLOTS.

Definition stack_push (s : vm_stack_t) (value : Z) : sgx_status_t * vm_stack_t :=
  if stack_is_full s then (SGX_ERROR_INVALID_PARAMETER, s)
  else (SGX_SUCCESS, value :: s).

(** The popped value is meaningful only with [SGX_SUCCESS]. *)
Definition stack_pop (s : vm_stack_t) : sgx_status_t * Z * vm_stack_t :=
  match s with
  | [] => (SGX_ERROR_INVALID_PARAMETER, 0, s)
  | v :: rest => (SGX_SUCCESS, v, rest)
  end.

Definition stack_peek (s : vm_stack_t) : sgx_status_t * Z :=
  match s with
  | [] => (SGX_ERROR_INVALID_PARAMETER, 0)
  | v :: _ => (SGX_SUCCESS, v)
  end.

Definition validate_memory_access (address size : Z) : bool :=
  u64 (address + size) <=? MEMORY_SIZE.

(** *** The validator *)

(** The [case] labels of the validator's [switch]. *)
Definition validator_case_labels : list Z :=
  [ OP_NOP; OP_PUSH; OP_POP; OP_ADD; OP_SUB; OP_MUL; OP_DIV; OP_MOD; OP_AND; OP_OR;
    OP_XOR; OP_NOT; OP_EQ; OP_LT; OP_GT; OP_JMP; OP_JMPIF; OP_CALL; OP_RET; OP_LOAD;
    OP_STORE; OP_HASH; OP_VERIFY; OP_HALT ].

Definition known_opcode (opcode : Z) : bool := existsb (Z.eqb opcode) validator_case_labels.

(** One turn of the validator's [switch] at index [i]: the index after the
    body ([Some]), or the early return ([None]).  The operand skips sit in the
    [default] branch, as in the source. *)
Definition validate_switch (opcode i size : Z) : option Z :=
  if known_opcode opcode then Some i
  else if (opcode =? OP_PUSH) && (u64 (i + 8) <? size) then Some (u64 (i + 8))
  else if (opcode =? OP_JMP) || (opcode =? OP_JMPIF) then
    Some (if u64 (i + 4) <? size then u64 (i + 4) else i)
  else None.

(** The [for] loop from index [i]: [Some true] when it runs to the end,
    [Some false] on the early return, [None] when [fuel] turns do not
    suffice. *)
Fixpoint validate_scan (fuel : nat) (code : list Z) (i : Z) : option bool :=
  if i <? Z.of_nat (length code) then
    match fuel with
    | O => None
    | S f =>
        match validate_switch (byte_at code i) i (Z.of_nat (length code)) with
        | None => Some false
        | Some i' => validate_scan f code (u64 (i' + 1))
        end
    end
  else Some true.

Definition validate_contract_code (code : list Z) : sgx_status_t :=
  let size := Z.of_nat (length code) in
  if (size =? 0) || (size >? MAX_CONTRACT_SIZE) then SGX_ERROR_CONTRACT_INVALID
  else
    match validate_scan (length code) code 0 with
    | Some true =>
        if negb (byte_at code (size - 1) =? OP_HALT) then SGX_ERROR_CONTRACT_INVALID
        else SGX_SUCCESS
    | Some false => SGX_ERROR_CONTRACT_INVALID
    | None => SGX_ERROR_UNEXPECTED
    end.

(** *** The interpreter *)

(** What a call of [execute_instruction] does: it returns a status and leaves
    the context in a state, or it reads [len] bytes at offset [addr] of the
    scratch memory although they do not lie inside it. *)
Inductive instruction_outcome : Type :=
| Ret (ret : sgx_status_t) (context : contract_execution_context_t)
| OutOfBounds (addr len : Z).

(** The pattern of the two-operand instructions: pop [b], pop [a], push
    [f a b]; a failing stack operation ends the instruction with its status. *)
Definition binary_op (f : Z -> Z -> Z) (context : contract_execution_context_t)
  : instruction_outcome :=
  match stack_pop (stack context) with
  | (SGX_SUCCESS, b, s1) =>
      match stack_pop s1 with
      | (SGX_SUCCESS, a, s2) =>
          let '(ret, s3) := stack_push s2 (f a b) in Ret ret (set_stack context s3)
      | (ret, _, _) => Ret ret (set_stack context s1)
      end
  | (ret, _, _) => Ret ret context
  end.

(** DIV and MOD: the divisor is popped and tested before the dividend is
    popped. *)
Definition division_op (f : Z -> Z -> Z) (context : contract_execution_context_t)
  : instruction_outcome :=
  match stack_pop (stack context) with
  | (SGX_SUCCESS, b, s1) =>
      if b =? 0 then Ret SGX_ERROR_CONTRACT_EXECUTION_FAILED (set_stack context s1)
      else
        match stack_pop s1 with
        | (SGX_SUCCESS, a, s2) =>
            let '(ret, s3) := stack_push s2 (f a b) in Ret ret (set_stack context s3)
        | (ret, _, _) => Ret ret (set_stack context s1)
        end
  | (ret, _, _) => Ret ret context
  end.

(** [execute_instruction] declares its locals [uint64_t a, b, result;]
    without initialisers.  JMP and a taken JMPIF copy the four operand bytes
    over the low half of [result] and then compare all eight bytes with
    [code_size]: the high half is whatever the implementation left in the
    variable, an indeterminate value.  It can differ from one call to the
    next and from one build to another, so it is an input of the model:
    [stale] is what [result] holds when [execute_instruction] is entered, and
    a run takes one such value for each turn of its loop. *)
Definition stale_values : Type := nat -> Z.

(** An implementation that finds zeros in [result] at every call. *)
Definition zeroed : stale_values := fun _ => 0.

(** [stale] at the turn in hand, then [stales]. *)
Definition stale_cons (stale : Z) (stales : stale_values) : stale_values :=
  fun n => match n with O => stale | S m => stales m end.

(** The jump of JMP and of a taken JMPIF: the operand in the low half of
    [result], the high half of [stale] above it. *)
Definition jump (stale : Z) (context : contract_execution_context_t) : instruction_outcome :=
  if u64 (pc context + 4) >=? code_size context then
    Ret SGX_ERROR_CONTRACT_EXECUTION_FAILED context
  else
    let high := u64 stale / 2 ^ 32 in
    let result := le_value (slice (contract_code context) (pc context + 1) 4) + 2 ^ 32 * high in
    if result >=? code_size context then Ret SGX_ERROR_CONTRACT_EXECUTION_FAILED context
    else Ret SGX_SUCCESS (set_pc context (u64 (result - 1))).

Definition bool_to_u64 (b : bool) : Z := if b then 1 else 0.

Definition execute_instruction (stale : Z) (context : contract_execution_context_t)
  (opcode : contract_opcode_t) : instruction_outcome :=
  if opcode =? OP_NOP then Ret SGX_SUCCESS context
  else if opcode =? OP_PUSH then
    if u64 (pc context + 8) >=? code_size context then
      Ret SGX_ERROR_CONTRACT_EXECUTION_FAILED context
    else
      let result := le_value (slice (contract_code context) (pc context + 1) 8) in
      let '(ret, s) := stack_push (stack context) result in
      Ret ret (set_pc (set_stack context s) (u64 (pc context + 8)))
  else if opcode =? OP_POP then
    let '(ret, _, s) := stack_pop (stack context) in Ret ret (set_stack context s)
  else if opcode =? OP_ADD then binary_op (fun a b => u64 (a + b)) context
  else if opcode =? OP_SUB then binary_op (fun a b => u64 (a - b)) context
  else if opcode =? OP_MUL then binary_op (fun a b => u64 (a * b)) context
  else if opcode =? OP_DIV then division_op (fun a b => a / b) context
  else if opcode =? OP_MOD then division_op (fun a b => a mod b) context
  else if opcode =? OP_AND then binary_op Z.land context
  else if opcode =? OP_OR then binary_op Z.lor context
  else if opcode =? OP_XOR then binary_op Z.lxor context
  else if opcode =? OP_NOT then
    match stack_pop (stack context) with
    | (SGX_SUCCESS, a, s1) =>
        let '(ret, s2) := stack_push s1 (u64 (Z.lnot a)) in Ret ret (set_stack context s2)
    | (ret, _, _) => Ret ret context
    end
  else if opcode =? OP_EQ then binary_op (fun a b => bool_to_u64 (a =? b)) context
  else if opcode =? OP_LT then binary_op (fun a b => bool_to_u64 (a <? b)) context
  else if opcode =? OP_GT then binary_op (fun a b => bool_to_u64 (a >? b)) context
  else if opcode =? OP_JMP then jump stale context
  else if opcode =? OP_JMPIF then
    match stack_pop (stack context) with
    | (SGX_SUCCESS, a, s1) =>
        if negb (a =? 0) then jump stale (set_stack context s1)
        else Ret SGX_SUCCESS (set_pc (set_stack context s1) (u64 (pc context + 4)))
    | (ret, _, _) => Ret ret context
    end
  else if opcode =? OP_LOAD then
    match stack_pop (stack context) with
    | (SGX_SUCCESS, a, s1) =>
        if a >=? MEMORY_SIZE - 8 then
          Ret SGX_ERROR_CONTRACT_EXECUTION_FAILED (set_stack context s1)
        else
          let result := le_value (slice (memory context) a 8) in
          let '(ret, s2) := stack_push s1 result in Ret ret (set_stack context s2)
    | (ret, _, _) => Ret ret context
    end
  else if opcode =? OP_STORE then
    match stack_pop (stack context) with
    | (SGX_SUCCESS, b, s1) =>
        match stack_pop s1 with
        | (SGX_SUCCESS, a, s2) =>
            if a >=? MEMORY_SIZE - 8 then
              Ret SGX_ERROR_CONTRACT_EXECUTION_FAILED (set_stack context s2)
            else
              Ret SGX_SUCCESS
                  (set_memory (set_stack context s2) (splice (memory context) a (le_bytes 8 b)))
        | (ret, _, _) => Ret ret (set_stack context s1)
        end
    | (ret, _, _) => Ret ret context
    end
  else if opcode =? OP_HASH then
    match stack_pop (stack context) with
    | (SGX_SUCCESS, a, s1) =>
        match stack_pop s1 with
        | (SGX_SUCCESS, b, s2) =>
            if u64 (b + a) >? MEMORY_SIZE then
              Ret SGX_ERROR_CONTRACT_EXECUTION_FAILED (set_stack context s2)
            else
              let len := a mod 2 ^ 32 in
              if (len =? 0) || (b + len <=? MEMORY_SIZE) then
                let hash := sgx_sha256_msg (slice (memory context) b len) in
                let result := le_value (firstn 8 hash) in
                let '(ret, s3) := stack_push s2 result in Ret ret (set_stack context s3)
              else OutOfBounds b len
        | (ret, _, _) => Ret ret (set_stack context s1)
        end
    | (ret, _, _) => Ret ret context
    end
  else if opcode =? OP_VERIFY then
    match stack_pop (stack context) with
    | (SGX_SUCCESS, a, s1) =>
        let '(ret, s2) := stack_push s1 1 in Ret ret (set_stack context s2)
    | (ret, _, _) => Ret ret context
    end
  else if opcode =? OP_HALT then Ret SGX_SUCCESS (set_state context CONTRACT_STATE_COMPLETED)
  else Ret SGX_ERROR_CONTRACT_EXECUTION_FAILED context.

(** [compute_execution_hash]: the digest of what the function feeds to the
    streaming hasher, in order. *)
Definition compute_execution_hash (context : contract_execution_context_t) : list Z :=
  let sha_handle := sgx_sha256_init in
  let code_hash := sgx_sha256_msg (contract_code context) in
  let sha_handle := sgx_sha256_update code_hash sha_handle in
  let sha_handle :=
    match input_data context with
    | Some input =>
        if Z.of_nat (length input) >? 0
        then sgx_sha256_update (sgx_sha256_msg input) sha_handle
        else sha_handle
    | None => sha_handle
    end in
  let sha_handle :=
    if result_size context >? 0
    then sgx_sha256_update (result_data context) sha_handle
    else sha_handle in
  let sha_handle := sgx_sha256_update (le_bytes 8 (gas_used context)) sha_handle in
  sgx_sha256_get_hash sha_handle.

(** One turn of the [while] loop of [execute_contract], entered with the loop
    condition true. *)
Inductive iteration : Type :=
| Continue (context : contract_execution_context_t)
| Break (ret : sgx_status_t) (context : contract_execution_context_t)
| Illegal (addr len : Z).

Definition loop_condition (context : contract_execution_context_t) : bool :=
  match state context with
  | CONTRACT_STATE_RUNNING => pc context <? code_size context
  | _ => false
  end.

Definition loop_iteration (stale : Z) (context : contract_execution_context_t) : iteration :=
  let opcode := byte_at (contract_code context) (pc context) in
  let gas_cost := get_opcode_gas_cost opcode in
  if negb (check_gas context gas_cost) then
    Break SGX_ERROR_INSUFFICIENT_GAS (set_state context CONTRACT_STATE_OUT_OF_GAS)
  else
    match execute_instruction stale context opcode with
    | OutOfBounds addr len => Illegal addr len
    | Ret SGX_SUCCESS context1 =>
        let context2 := snd (consume_gas context1 gas_cost) in
        let context3 := set_pc context2 (u64 (pc context2 + 1)) in
        if opcode =? OP_HALT then Break SGX_SUCCESS (set_state context3 CONTRACT_STATE_COMPLETED)
        else Continue context3
    | Ret ret context1 => Break ret (set_state context1 CONTRACT_STATE_ERROR)
    end.

(** The result of running code that loops: a value, not enough [fuel] for the
    loop to end, or an access outside the scratch memory. *)
Inductive run (A : Type) : Type :=
| Done (a : A)
| OutOfFuel
| Fault (addr len : Z).
Arguments Done {A} a.
Arguments OutOfFuel {A}.
Arguments Fault {A} addr len.

(** The [while] loop: [ret] and the context when the loop is left.  The loop
    is left by its condition only after a turn that ended with
    [SGX_SUCCESS], or before any turn, so [ret] is [SGX_SUCCESS] there.  The
    turn in hand finds [stales 0] in [result], the next one [stales 1], and
    so on. *)
Fixpoint execute_loop (stales : stale_values) (fuel : nat)
  (context : contract_execution_context_t)
  : run (sgx_status_t * contract_execution_context_t) :=
  if loop_condition context then
    match fuel with
    | O => OutOfFuel
    | S f =>
        match loop_iteration (stales O) context with
        | Continue context' => execute_loop (fun n => stales (S n)) f context'
        | Break ret context' => Done (ret, context')
        | Illegal addr len => Fault addr len
        end
    end
  else Done (SGX_SUCCESS, context).

(** The context as [execute_contract] sets it up before the loop: a zeroed
    stack and memory, and a result buffer of which no byte counts. *)
Definition start (context : contract_execution_context_t) : contract_execution_context_t :=
  mkContext (contract_code context) (input_data context) [] (gas_limit context) 0
            0 CONTRACT_STATE_RUNNING [] (repeat 0 (Z.to_nat MEMORY_SIZE))
            (execution_hash context).

(** [execute_contract].  The allocation of the result buffer and the
    platform's hash calls are taken to succeed. *)
Definition execute_contract (stales : stale_values) (fuel : nat)
  (verifier : contract_verifier_t) (context : contract_execution_context_t)
  : run (sgx_status_t * contract_verifier_t * contract_execution_context_t) :=
  if negb (initialized verifier) then Done (SGX_ERROR_INVALID_PARAMETER, verifier, context)
  else
    match validate_contract_code (contract_code context) with
    | SGX_SUCCESS =>
        match execute_loop stales fuel (start context) with
        | Done (ret, context1) =>
            let context2 :=
              match state context1 with
              | CONTRACT_STATE_COMPLETED =>
                  set_execution_hash context1 (compute_execution_hash context1)
              | _ => context1
              end in
            let verifier' :=
              mkVerifier (initialized verifier) (u64 (execution_counter verifier + 1)) in
            Done (ret, verifier', context2)
        | OutOfFuel => OutOfFuel
        | Fault addr len => Fault addr len
        end
    | ret => Done (ret, verifier, context)
    end.

(** ** Programs of the specification's scenarios *)

Definition push (v : Z) : list Z := OP_PUSH :: le_bytes 8 v.

Definition add_and_halt : list Z := push 10 ++ push 20 ++ [OP_ADD; OP_HALT].
Definition div_by_zero : list Z := push 5 ++ push 0 ++ [OP_DIV; OP_HALT].

Definition ready : contract_verifier_t := mkVerifier true 0.

Definition fresh_context (code : list Z) (input : option (list Z)) (limit : Z)
  : contract_execution_context_t :=
  mkContext code input [] limit 0 0 CONTRACT_STATE_INIT [] [] [].

(** ** The trusted entry points of [enclave.cpp] *)

(** What the host passes by pointer for results: the result buffer, and the
    cells [*result_size] and [*gas_used] with whatever they hold at entry. *)
Record host_outputs : Type := mkOutputs {
  execution_result : list Z;
  out_result_size : Z;
  out_gas_used : Z
}.

(** The context as the entry point fills it after [memset]: the caller's code
    and input, and the gas limit, a literal of the source. *)
Definition ecall_context (code input : list Z) : contract_execution_context_t :=
  mkContext code (Some input) [] 1000000 0 0 CONTRACT_STATE_INIT []
            (repeat 0 (Z.to_nat MEMORY_SIZE)) (repeat 0 32).

(** [ecall_verify_contract_execution].  [contract_code] and [input_data] are
    [None] for NULL; the three result pointers are taken to be non-NULL.
    [g_verifier_initialized] and [g_verifier] are the globals of the file. *)
Definition ecall_verify_contract_execution (stales : stale_values) (fuel : nat)
  (g_verifier_initialized : bool) (g_verifier : contract_verifier_t)
  (contract_code input_data : option (list Z)) (out : host_outputs)
  : run (sgx_status_t * contract_verifier_t * host_outputs) :=
  if negb g_verifier_initialized then Done (SGX_ERROR_INVALID_STATE, g_verifier, out)
  else
    match contract_code, input_data with
    | Some code, Some input =>
        match execute_contract stales fuel g_verifier (ecall_context code input) with
        | Done (SGX_SUCCESS, verifier, context) =>
            if out_result_size out <? result_size context then
              Done (SGX_ERROR_INVALID_PARAMETER, verifier,
                    mkOutputs (execution_result out) (result_size context) (out_gas_used out))
            else
              Done (SGX_SUCCESS, verifier,
                    mkOutputs (splice (execution_result out) 0 (result_data context))
                              (result_size context) (gas_used context))
        | Done (ret, verifier, _) => Done (ret, verifier, out)
        | OutOfFuel => OutOfFuel
        | Fault addr len => Fault addr len
        end
    | _, _ => Done (SGX_ERROR_INVALID_PARAMETER, g_verifier, out)
    end.

(** [execution_proof_t]. *)
Record execution_proof_t : Type := mkProof {
  proof_execution_hash : list Z;
  timestamp : Z;
  nonce : list Z;
  public_key : list Z;
  signature : list Z
}.

Definition sizeof_execution_proof_t : Z := 32 + 8 + 16 + 64 + 64.

(** The bytes of a proof before its signature field. *)
Definition proof_data_of (p : execution_proof_t) : list Z :=
  proof_execution_hash p ++ le_bytes 8 (timestamp p) ++ nonce p ++ public_key p.

(** The platform and the host as the proof engine uses them.  [world] is
    their state; each operation returns the state it leaves. *)
Class Platform (world : Type) : Type := {
  ocall_get_timestamp : world -> Z * world;
  sgx_read_rand : nat -> world -> sgx_status_t * list Z * world;
  (** The key generation that [ecall_generate_execution_proof] calls; the
      header declares it ([generate_ec256_key_pair]) and the ECC branch of
      [crypto_utils.cpp] shows it: a fresh pair from
      [sgx_ecc256_create_key_pair]. *)
  generate_key_pair : world -> sgx_status_t * (list Z * list Z) * world;
  sgx_ecdsa_sign : list Z -> list Z -> world -> sgx_status_t * list Z * world
}.

Section ProofEngine.

Context {world : Type} {platform : Platform world}.

(** [ecall_generate_execution_proof]: the status, the proof copied to the
    host's buffer if any, the value left in [*proof_size], and the world.
    The two pointers of the host are taken to be non-NULL and the ECC context
    to open. *)
Definition ecall_generate_execution_proof (execution_hash : list Z) (proof_size : Z)
  (w : world) : sgx_status_t * option execution_proof_t * Z * world :=
  let proof := mkProof (firstn 32 execution_hash) 0 (repeat 0 16) (repeat 0 64) (repeat 0 64) in
  let '(ts, w1) := ocall_get_timestamp w in
  let proof := mkProof (proof_execution_hash proof) ts (nonce proof) (public_key proof)
                       (signature proof) in
  match sgx_read_rand 16 w1 with
  | (SGX_SUCCESS, rnd, w2) =>
      let proof := mkProof (proof_execution_hash proof) (timestamp proof) rnd
                           (public_key proof) (signature proof) in
      let proof_data := proof_data_of proof in
      match generate_key_pair w2 with
      | (SGX_SUCCESS, (private_key, pub), w3) =>
          let proof := mkProof (proof_execution_hash proof) (timestamp proof) (nonce proof)
                               pub (signature proof) in
          match sgx_ecdsa_sign proof_data private_key w3 with
          | (SGX_SUCCESS, sig, w4) =>
              let proof := mkProof (proof_execution_hash proof) (timestamp proof)
                                   (nonce proof) (public_key proof) sig in
              if proof_size <? sizeof_execution_proof_t then
                (SGX_ERROR_INVALID_PARAMETER, None, sizeof_execution_proof_t, w4)
              else (SGX_SUCCESS, Some proof, sizeof_execution_proof_t, w4)
          | (ret, _, w4) => (ret, None, proof_size, w4)
          end
      | (ret, _, w3) => (ret, None, proof_size, w3)
      end
  | (ret, _, w2) => (ret, None, proof_size, w2)
  end.

End ProofEngine.

(** ** The specification's own notions, for comparison with the code *)

(** Operand bytes that follow an opcode (section 3 of the specification). *)
Definition spec_operand_width (opcode : Z) : Z :=
  if opcode =? OP_PUSH then 8
  else if (opcode =? OP_JMP) || (opcode =? OP_JMPIF) then 4
  else 0.

(** The boundary set: the offsets that begin an instruction, from [i] on. *)
Fixpoint spec_boundaries_from (fuel : nat) (code : list Z) (i : Z) : list Z :=
  if i <? Z.of_nat (length code) then
    match fuel with
    | O => []
    | S f => i :: spec_boundaries_from f code (i + 1 + spec_operand_width (byte_at code i))
    end
  else [].

Definition spec_boundaries (code : list Z) : list Z :=
  spec_boundaries_from (length code) code 0.

Definition spec_is_jump (opcode : Z) : bool := (opcode =? OP_JMP) || (opcode =? OP_JMPIF).

(** Well-formed: every operand byte lies strictly inside the code, every jump
    target is a boundary, and the last opcode byte is HALT. *)
Definition spec_well_formed (code : list Z) : bool :=
  let size := Z.of_nat (length code) in
  let bs := spec_boundaries code in
  forallb (fun i => i + spec_operand_width (byte_at code i) <? size) bs
  && forallb (fun i => if spec_is_jump (byte_at code i)
                       then existsb (Z.eqb (le_value (slice code (i + 1) 4))) bs
                       else true) bs
  && (byte_at code (last bs (-1)) =? OP_HALT).

(** No opcode of the program is CALL or RET. *)
Definition spec_call_ret_free (code : list Z) : bool :=
  forallb (fun i => negb ((byte_at code i =? OP_CALL) || (byte_at code i =? OP_RET)))
          (spec_boundaries code).

(** The cost column of the specification's opcode table. *)
Definition spec_cost (opcode : Z) : Z :=
  if opcode =? OP_NOP then 1
  else if opcode =? OP_PUSH then 3
  else if opcode =? OP_POP then 2
  else if (opcode =? OP_ADD) || (opcode =? OP_SUB) then 3
  else if (opcode =? OP_MUL) || (opcode =? OP_DIV) || (opcode =? OP_MOD) then 5
  else if (OP_AND <=? opcode) && (opcode <=? OP_GT) then 3
  else if opcode =? OP_JMP then 3
  else if opcode =? OP_JMPIF then 4
  else if opcode =? OP_LOAD then 3
  else if opcode =? OP_STORE then 5
  else if opcode =? OP_HASH then 30
  else if opcode =? OP_VERIFY then 100
  else 0.

(** The execution record of the specification:
    SHA256( SHA256(code) ++ SHA256(input) ++ output ++ LE64(gas_used) ). *)
Definition spec_execution_hash (code input output : list Z) (gas : Z) : list Z :=
  Sha256.sha256 (Sha256.sha256 code ++ Sha256.sha256 input ++ output ++ le_bytes 8 gas).

(** ** States of a run *)

(** The contexts the [while] loop of [execute_contract] passes through when it
    is entered with [c0], whatever each turn finds in [result]. *)
Inductive reachable (c0 : contract_execution_context_t)
  : contract_execution_context_t -> Prop :=
| reach_start : reachable c0 c0
| reach_continue (stale : Z) (c c' : contract_execution_context_t) :
    reachable c0 c -> loop_condition c = true -> loop_iteration stale c = Continue c' ->
    reachable c0 c'
| reach_break (stale : Z) (c c' : contract_execution_context_t) (ret : sgx_status_t) :
    reachable c0 c -> loop_condition c = true -> loop_iteration stale c = Break ret c' ->
    reachable c0 c'.

(** The bytes the input of a context stands for. *)
Definition input_bytes (context : contract_execution_context_t) : list Z :=
  match input_data context with
  | Some input => input
  | None => []
  end.

(** ** More programs *)

(** A program without operands has no PUSH, JMP or JMPIF byte. *)
Definition operand_free (code : list Z) : Prop :=
  Forall (fun b => spec_operand_width b = 0) code.

(** A single PUSH whose operand ends with the byte 0xFF, the last of the code. *)
Definition push_only : list Z := push 0xFF00000000000000.

(** HASH of 2 bytes at address 2^64 - 1. *)
Definition hash_wrap : list Z := push U64.max ++ push 2 ++ [OP_HASH; OP_HALT].

(** ** A deterministic platform

    The world is a counter; every draw of randomness or of a key pair takes
    its value from the counter and advances it. *)
Definition stub_platform : Platform Z := {|
  ocall_get_timestamp := fun w => (1700000000000 + w, w + 1);
  sgx_read_rand := fun n w => (SGX_SUCCESS, le_bytes n w, w + 1);
  generate_key_pair := fun w => (SGX_SUCCESS, (le_bytes 32 w, le_bytes 64 (w * w + 1)), w + 1);
  sgx_ecdsa_sign := fun data private_key w =>
    (SGX_SUCCESS, firstn 64 (Sha256.sha256 (private_key ++ data) ++ le_bytes 32 w), w + 1)
|}.

(** ** Relations between contexts *)

(** The fields that no instruction writes. *)
Definition same_frame (c c' : contract_execution_context_t) : Prop :=
  contract_code c' = contract_code c /\ input_data c' = input_data c
  /\ result_data c' = result_data c /\ gas_limit c' = gas_limit c
  /\ execution_hash c' = execution_hash c.

(** The opcode the loop fetches in a context. *)
Definition next_opcode (c : contract_execution_context_t) : Z :=
  byte_at (contract_code c) (pc c).

(** What a turn of the loop does, by the way it ends. *)
Definition iteration_spec (c : contract_execution_context_t) (it : iteration) : Prop :=
  let cost := get_opcode_gas_cost (next_opcode c) in
  match it with
  | Continue c' =>
      check_gas c cost = true /\ same_frame c c'
      /\ gas_used c' = u64 (gas_used c + cost) /\ state c' = state c
      /\ next_opcode c <> OP_HALT
  | Break ret c' =>
      same_frame c c'
      /\ ((check_gas c cost = false /\ ret = SGX_ERROR_INSUFFICIENT_GAS
           /\ c' = set_state c CONTRACT_STATE_OUT_OF_GAS)
          \/ (check_gas c cost = true /\ ret = SGX_SUCCESS /\ next_opcode c = OP_HALT
              /\ state c' = CONTRACT_STATE_COMPLETED
              /\ gas_used c' = u64 (gas_used c + cost))
          \/ (check_gas c cost = true /\ ret <> SGX_SUCCESS
              /\ state c' = CONTRACT_STATE_ERROR /\ gas_used c' = gas_used c))
  | Illegal _ _ => check_gas c cost = true /\ next_opcode c = OP_HASH
  end.

(** How the loop can be left, from a context [c] to [c'] with status [ret]. *)
Definition exit_spec (c : contract_execution_context_t) (ret : sgx_status_t)
  (c' : contract_execution_context_t) : Prop :=
  (state c' = CONTRACT_STATE_COMPLETED /\ ret = SGX_SUCCESS)
  \/ (state c' = CONTRACT_STATE_ERROR /\ ret <> SGX_SUCCESS)
  \/ (state c' = CONTRACT_STATE_OUT_OF_GAS /\ ret = SGX_ERROR_INSUFFICIENT_GAS)
  \/ (state c' = state c /\ loop_condition c' = false /\ ret = SGX_SUCCESS).

(** A jump to itself; a HALT closes the code. *)
Definition jump_to_self : list Z := [OP_JMP; 0; 0; 0; 0; OP_HALT].

(** A host's result cells before a call: a 64-byte buffer, its size, and a
    value that stands in [*gas_used]. *)
Definition host_cells : host_outputs := mkOutputs (repeat 0 64) 64 12345.

(** The context of the [div_by_zero] run in front of its DIV. *)
Definition before_division : contract_execution_context_t :=
  mkContext div_by_zero (Some []) [] DEFAULT_GAS_LIMIT 6 18 CONTRACT_STATE_RUNNING
            [0; 5] (repeat 0 (Z.to_nat MEMORY_SIZE)) [].

(** ** Well-formed machine states *)

Definition is_byte (b : Z) : Prop := 0 <= b < 256.

(** At most 256 slots are live, and each holds a 64-bit value. *)
Definition wf_stack (s : vm_stack_t) : Prop :=
  Z.of_nat (length s) <= STACK_SLOTS /\ Forall in_range s.

(** The scratch memory has its 4096 bytes. *)
Definition wf_memory (m : list Z) : Prop :=
  Z.of_nat (length m) = MEMORY_SIZE /\ Forall is_byte m.

Definition wf_vm (c : contract_execution_context_t) : Prop :=
  wf_stack (stack c) /\ wf_memory (memory c).

Definition outcome_wf (o : instruction_outcome) : Prop :=
  match o with
  | Ret _ c' => wf_vm c'
  | OutOfBounds _ _ => True
  end.

(** ** The same context under another gas limit *)

Definition with_limit (c : contract_execution_context_t) (limit : Z)
  : contract_execution_context_t :=
  mkContext (contract_code c) (input_data c) (result_data c) limit (gas_used c)
            (pc c) (state c) (stack c) (memory c) (execution_hash c).

Definition outcome_with_limit (limit : Z) (o : instruction_outcome) : instruction_outcome :=
  match o with
  | Ret ret c => Ret ret (with_limit c limit)
  | OutOfBounds addr len => OutOfBounds addr len
  end.

Definition iteration_with_limit (limit : Z) (it : iteration) : iteration :=
  match it with
  | Continue c => Continue (with_limit c limit)
  | Break ret c => Break ret (with_limit c limit)
  | Illegal addr len => Illegal addr len
  end.

(** ** The platform's HMAC-SHA256 ([sgx_hmac_sha256_msg]), after RFC 2104 *)

Definition hmac_block_key (key : list Z) : list Z :=
  let k := if Z.of_nat (length key) >? 64 then Sha256.sha256 key else key in
  k ++ repeat 0 (64 - length k).

Definition sgx_hmac_sha256_msg (data key : list Z) : list Z :=
  let k := hmac_block_key key in
  Sha256.sha256 (map (Z.lxor 0x5c) k ++ Sha256.sha256 (map (Z.lxor 0x36) k ++ data)).

(** ** [crypto_utils.cpp] *)

Module CryptoUtils.

Definition AES_KEY_SIZE : Z := 16.
Definition RSA_KEY_SIZE : Z := 256.
Definition ECC_KEY_SIZE : Z := 32.
Definition HMAC_KEY_SIZE : Z := 32.

Inductive key_type_t : Type := KEY_TYPE_AES | KEY_TYPE_RSA | KEY_TYPE_ECC | KEY_TYPE_HMAC.

(** [key_pair_t]: two buffers of [RSA_KEY_SIZE] bytes, the type and the
    validity flag. *)
Record key_pair_t : Type := mkKeyPair {
  kp_public_key : list Z;
  kp_private_key : list Z;
  kp_type : key_type_t;
  is_valid : bool
}.

(** [secure_memcmp]: the OR of the XORs of the first [size] bytes of the two
    buffers, and -1 when a pointer is NULL. *)
Definition secure_memcmp (a b : option (list Z)) (size : nat) : Z :=
  match a, b with
  | Some pa, Some pb =>
      fold_left (fun result i => Z.lor result (Z.lxor (nth i pa 0) (nth i pb 0)))
                (seq 0 size) 0
  | _, _ => -1
  end.

(** [compute_hmac_sha256]: both lengths are cast to [uint32_t] on the way to
    the platform, which reads that many bytes of the data and of the key. *)
Definition compute_hmac_sha256 (data key : list Z) (key_len : Z) : list Z :=
  let data_len := Z.of_nat (length data) in
  sgx_hmac_sha256_msg (firstn (Z.to_nat (data_len mod 2 ^ 32)) data)
                      (firstn (Z.to_nat (key_len mod 2 ^ 32)) key).

(** [rsa_sign]: the status, the bytes written to the signature buffer if any,
    and the value left in [*signature_len].  The pointers of the results are
    taken to be non-NULL and the platform's HMAC to succeed, here and in
    [rsa_verify]. *)
Definition rsa_sign (data private_key : option (list Z)) (signature_len : Z)
  : sgx_status_t * option (list Z) * Z :=
  match data, private_key with
  | Some d, Some key =>
      let hash := compute_hmac_sha256 d key RSA_KEY_SIZE in
      if signature_len <? 32 then (SGX_ERROR_INVALID_PARAMETER, None, signature_len)
      else (SGX_SUCCESS, Some hash, 32)
  | _, _ => (SGX_ERROR_INVALID_PARAMETER, None, signature_len)
  end.

(** [rsa_verify]: the status and the value written to [*result], if any. *)
Definition rsa_verify (data signature : option (list Z)) (signature_len : Z)
  (public_key : option (list Z)) : sgx_status_t * option bool :=
  match data, signature, public_key with
  | Some d, Some sig, Some key =>
      let expected_hash := compute_hmac_sha256 d key RSA_KEY_SIZE in
      if negb (signature_len =? 32) then (SGX_SUCCESS, Some false)
      else (SGX_SUCCESS, Some (secure_memcmp (Some sig) (Some expected_hash) 32 =? 0))
  | _, _, _ => (SGX_ERROR_INVALID_PARAMETER, None)
  end.

(** A buffer of [n] bytes that holds [data] and zeros after it. *)
Definition zero_filled (n : nat) (data : list Z) : list Z :=
  firstn n (data ++ repeat 0 n).

Section WithPlatform.

Context {world : Type} {platform : Platform world}.

(** [generate_key_pair] of [crypto_utils.cpp], for the key types it fills
    from the random source (RSA, AES, HMAC).  The ECC branch, which asks the
    platform for a curve point, is not modelled: [None]. *)
Definition generate_key_pair (type : key_type_t) (w : world)
  : option (sgx_status_t * key_pair_t * world) :=
  let zero := repeat 0 (Z.to_nat RSA_KEY_SIZE) in
  let blank := mkKeyPair zero zero type false in
  match type with
  | KEY_TYPE_RSA =>
      match sgx_read_rand (Z.to_nat RSA_KEY_SIZE) w with
      | (SGX_SUCCESS, private, w1) =>
          match sgx_read_rand (Z.to_nat RSA_KEY_SIZE) w1 with
          | (SGX_SUCCESS, public, w2) =>
              Some (SGX_SUCCESS,
                    mkKeyPair (zero_filled 256 public) (zero_filled 256 private) type true, w2)
          | (ret, _, w2) =>
              Some (ret, mkKeyPair zero (zero_filled 256 private) type false, w2)
          end
      | (ret, _, w1) => Some (ret, blank, w1)
      end
  | KEY_TYPE_ECC => None
  | KEY_TYPE_AES | KEY_TYPE_HMAC =>
      let key_size := match type with KEY_TYPE_AES => AES_KEY_SIZE | _ => HMAC_KEY_SIZE end in
      match sgx_read_rand (Z.to_nat key_size) w with
      | (SGX_SUCCESS, private, w1) =>
          let stored := zero_filled 256 (firstn (Z.to_nat key_size) private) in
          Some (SGX_SUCCESS, mkKeyPair stored stored type true, w1)
      | (ret, _, w1) => Some (ret, blank, w1)
      end
  end.

End WithPlatform.

(** [export_public_key]: the status, the bytes copied out if any, and the
    value left in [*key_len]. *)
Definition export_public_key (key_pair : option key_pair_t) (key_len : Z)
  : sgx_status_t * option (list Z) * Z :=
  match key_pair with
  | Some kp =>
      if negb (is_valid kp) then (SGX_ERROR_INVALID_PARAMETER, None, key_len)
      else
        let required_len :=
          match kp_type kp with
          | KEY_TYPE_RSA => RSA_KEY_SIZE
          | KEY_TYPE_ECC => ECC_KEY_SIZE
          | KEY_TYPE_AES => AES_KEY_SIZE
          | KEY_TYPE_HMAC => HMAC_KEY_SIZE
          end in
        if key_len <? required_len then (SGX_ERROR_INVALID_PARAMETER, None, required_len)
        else (SGX_SUCCESS, Some (firstn (Z.to_nat required_len) (kp_public_key kp)),
              required_len)
  | None => (SGX_ERROR_INVALID_PARAMETER, None, key_len)
  end.

End CryptoUtils.

(** ** Key derivation ([derive_key_pbkdf2] of [crypto_utils.cpp]) *)

(** The loop that fills the key beyond its first block: while bytes remain,
    copy the next [block_size] of them out of the temporary key. *)
Fixpoint fill_blocks (fuel : nat) (temp_key : list Z) (remaining : Z) : list Z :=
  match fuel with
  | O => []
  | S fuel' =>
      if remaining >? 0 then
        let block_size := if remaining <? 32 then remaining else 32 in
        firstn (Z.to_nat block_size) temp_key
        ++ fill_blocks fuel' temp_key (remaining - block_size)
      else []
  end.

(** [derive_key_pbkdf2]: the status and the bytes written to [derived_key],
    if any.  [iterations] is a [uint32_t]; the loop from 1 runs
    [iterations - 1] times, and not at all for 0. *)
Definition derive_key_pbkdf2 (password salt : option (list Z)) (iterations key_len : Z)
  : sgx_status_t * option (list Z) :=
  match password, salt with
  | Some pw, Some sl =>
      if key_len =? 0 then (SGX_ERROR_INVALID_PARAMETER, None)
      else
        let password_len := Z.of_nat (length pw) in
        let temp_key :=
          Nat.iter (Z.to_nat (iterations - 1))
                   (fun temp_key => CryptoUtils.compute_hmac_sha256 temp_key pw password_len)
                   (CryptoUtils.compute_hmac_sha256 sl pw password_len) in
        let copy_len := if key_len <? 32 then key_len else 32 in
        let tail :=
          if key_len >? 32
          then fill_blocks (Z.to_nat (key_len - 32)) temp_key (key_len - 32)
          else [] in
        (SGX_SUCCESS, Some (firstn (Z.to_nat copy_len) temp_key ++ tail))
  | _, _ => (SGX_ERROR_INVALID_PARAMETER, None)
  end.

(** ** More entry points of [enclave.cpp] *)

(** Whether [memcmp] finds the first [n] bytes of two buffers equal. *)
Definition memcmp_equal (a b : list Z) (n : nat) : bool :=
  forallb (fun i => nth i a 0 =? nth i b 0) (seq 0 n).

(** [ecall_verify_execution_proof], over the platform's signature check
    [verify] (the message, the public key, the signature; its status and
    whether the signature is valid).  The proof buffer is read as an
    [execution_proof_t]; [None] is a NULL pointer; the curve context is
    taken to open.  The status and the value left in [*is_valid], which
    holds [is_valid] at entry. *)
Definition ecall_verify_execution_proof
  (verify : list Z -> list Z -> list Z -> sgx_status_t * bool)
  (proof : option execution_proof_t) (proof_size : Z) (execution_hash : option (list Z))
  (is_valid : Z) : sgx_status_t * Z :=
  match proof, execution_hash with
  | Some exec_proof, Some hash =>
      if negb (proof_size =? sizeof_execution_proof_t) then (SGX_ERROR_INVALID_PARAMETER, 0)
      else if negb (memcmp_equal (proof_execution_hash exec_proof) hash 32)
      then (SGX_SUCCESS, 0)
      else
        match verify (proof_data_of exec_proof) (public_key exec_proof)
                     (signature exec_proof) with
        | (SGX_SUCCESS, valid) => (SGX_SUCCESS, if valid then 1 else 0)
        | (ret, _) => (ret, 0)
        end
  | _, _ => (SGX_ERROR_INVALID_PARAMETER, is_valid)
  end.

(** The globals of [enclave.cpp]; the key and the hash of [g_verifier] stand
    beside the record that holds its flag and counter. *)
Record enclave_globals : Type := mkGlobals {
  g_verifier_initialized : bool;
  g_verifier : contract_verifier_t;
  g_verifier_master_key : list Z;
  g_verifier_hash : list Z;
  g_master_key : list Z
}.

(** The text hashed into the verifier hash. *)
Definition verifier_info : list Z := [83; 71; 88; 32; 83; 109; 97; 114; 116; 32; 67; 111; 110; 116; 114; 97; 99; 116; 32; 86; 101; 114; 105; 102; 105; 101; 114; 32; 118; 49; 46; 48].

Section Init.

Context {world : Type} {platform : Platform world}.

(** [init_contract_verifier]: the status, the verifier with its key and
    hash, and the world.  A draw that fails leaves its buffer as it was,
    zeroed. *)
Definition init_contract_verifier (w : world)
  : sgx_status_t * (contract_verifier_t * list Z * list Z) * world :=
  match sgx_read_rand 16 w with
  | (SGX_SUCCESS, key, w1) =>
      (SGX_SUCCESS, (mkVerifier true 0, key, sgx_sha256_msg verifier_info), w1)
  | (ret, _, w1) => (ret, (mkVerifier false 0, repeat 0 16, repeat 0 32), w1)
  end.

(** [ecall_init_contract_verifier]. *)
Definition ecall_init_contract_verifier (g : enclave_globals) (w : world)
  : sgx_status_t * enclave_globals * world :=
  if g_verifier_initialized g then (SGX_SUCCESS, g, w)
  else
    match sgx_read_rand 16 w with
    | (SGX_SUCCESS, key, w1) =>
        match init_contract_verifier w1 with
        | (SGX_SUCCESS, (verifier, verifier_key, verifier_hash), w2) =>
            (SGX_SUCCESS, mkGlobals true verifier verifier_key verifier_hash key, w2)
        | (ret, (verifier, verifier_key, verifier_hash), w2) =>
            (ret, mkGlobals false verifier verifier_key verifier_hash key, w2)
        end
    | (ret, _, w1) => (ret, g, w1)
    end.

End Init.

(** * Properties *)

(** ** Machine integers and the hash *)

Section U64Facts.

Lemma u64_range (x : Z) : in_range (u64 x).
Proof. unfold in_range, u64, modulus. apply Z.mod_pos_bound. lia. Qed.

Lemma u64_small (x : Z) : in_range x -> u64 x = x.
Proof. unfold in_range, u64. intros H. now apply Z.mod_small. Qed.

Lemma u64_le (x : Z) : 0 <= x -> u64 x <= x.
Proof. unfold u64, modulus. intros H. apply Z.mod_le; lia. Qed.

End U64Facts.

(** FIPS 180-4 test vectors: the empty message, ["abc"], and a two-block message. *)
Example sha256_empty :
  Sha256.sha256 [] =
  [0xe3; 0xb0; 0xc4; 0x42; 0x98; 0xfc; 0x1c; 0x14; 0x9a; 0xfb; 0xf4; 0xc8; 0x99; 0x6f; 0xb9; 0x24;
   0x27; 0xae; 0x41; 0xe4; 0x64; 0x9b; 0x93; 0x4c; 0xa4; 0x95; 0x99; 0x1b; 0x78; 0x52; 0xb8; 0x55].
Proof. vm_compute. reflexivity. Qed.

Example sha256_abc :
  Sha256.sha256 [0x61; 0x62; 0x63] =
  [0xba; 0x78; 0x16; 0xbf; 0x8f; 0x01; 0xcf; 0xea; 0x41; 0x41; 0x40; 0xde; 0x5d; 0xae; 0x22; 0x23;
   0xb0; 0x03; 0x61; 0xa3; 0x96; 0x17; 0x7a; 0x9c; 0xb4; 0x10; 0xff; 0x61; 0xf2; 0x00; 0x15; 0xad].
Proof. vm_compute. reflexivity. Qed.

Example sha256_two_blocks :
  Sha256.sha256
    (flat_map (fun c => [c; c + 1; c + 2; c + 3])
       [0x61; 0x62; 0x63; 0x64; 0x65; 0x66; 0x67; 0x68; 0x69; 0x6a; 0x6b; 0x6c; 0x6d; 0x6e]) =
  [0x24; 0x8d; 0x6a; 0x61; 0xd2; 0x06; 0x38; 0xb8; 0xe5; 0xc0; 0x26; 0x93; 0x0c; 0x3e; 0x60; 0x39;
   0xa3; 0x3c; 0xe4; 0x59; 0x64; 0xff; 0x21; 0x67; 0xf6; 0xec; 0xed; 0xd4; 0x19; 0xdb; 0x06; 0xc1].
Proof. vm_compute. reflexivity. Qed.


(** ** The validator *)

Lemma skipn_byte_at (code : list Z) (i : Z) :
  0 <= i < Z.of_nat (length code) ->
  skipn (Z.to_nat i) code = byte_at code i :: skipn (Z.to_nat (i + 1)) code.
Proof.
  intros Hi. unfold byte_at.
  replace (Z.to_nat (i + 1)) with (S (Z.to_nat i)) by lia.
  assert (Hn : (Z.to_nat i < length code)%nat) by lia.
  clear Hi. revert code Hn. induction (Z.to_nat i) as [|n IH]; intros [|b code] Hn;
    simpl in *; try lia; auto.
  apply IH. lia.
Qed.

(** The operand skips of the [default] branch never run: an opcode that
    reaches [default] is none of the labels, PUSH, JMP and JMPIF included. *)
Lemma validate_switch_known (opcode i size : Z) :
  validate_switch opcode i size = if known_opcode opcode then Some i else None.
Proof.
  unfold validate_switch. destruct (known_opcode opcode) eqn:Hk; [reflexivity|].
  destruct (opcode =? OP_PUSH) eqn:E1.
  { apply Z.eqb_eq in E1. subst. discriminate. }
  destruct (opcode =? OP_JMP) eqn:E2.
  { apply Z.eqb_eq in E2. subst. discriminate. }
  destruct (opcode =? OP_JMPIF) eqn:E3.
  { apply Z.eqb_eq in E3. subst. discriminate. }
  reflexivity.
Qed.

Lemma validate_scan_forallb (code : list Z) :
  Z.of_nat (length code) <= MAX_CONTRACT_SIZE ->
  forall (fuel : nat) (i : Z),
    0 <= i -> Z.of_nat (length code) - i <= Z.of_nat fuel ->
    validate_scan fuel code i = Some (forallb known_opcode (skipn (Z.to_nat i) code)).
Proof.
  intros Hmax fuel. induction fuel as [|f IH]; intros i Hi Hfuel.
  - simpl. destruct (i <? Z.of_nat (length code)) eqn:E; [apply Z.ltb_lt in E; lia|].
    apply Z.ltb_ge in E. rewrite skipn_all2 by lia. reflexivity.
  - cbn [validate_scan]. destruct (i <? Z.of_nat (length code)) eqn:E.
    + apply Z.ltb_lt in E. rewrite validate_switch_known.
      rewrite (skipn_byte_at code i) by lia. cbn [forallb].
      destruct (known_opcode (byte_at code i)); [|reflexivity].
      assert (Hu : u64 (i + 1) = i + 1).
      { apply u64_small. unfold in_range, modulus, MAX_CONTRACT_SIZE in *. lia. }
      rewrite Hu. cbn [andb]. apply IH; lia.
    + apply Z.ltb_ge in E. rewrite skipn_all2 by lia. reflexivity.
Qed.

(** The scan of the validator always ends within [length code] turns. *)
Lemma validate_scan_total (code : list Z) :
  Z.of_nat (length code) <= MAX_CONTRACT_SIZE ->
  validate_scan (length code) code 0 = Some (forallb known_opcode code).
Proof.
  intros Hmax. rewrite (validate_scan_forallb code Hmax (length code) 0) by lia.
  reflexivity.
Qed.

(** What the validator decides: the size is between 1 and 1 MiB, every byte of
    the code is one of the 24 labels, and the last byte is HALT. *)
Lemma validate_contract_code_iff (code : list Z) :
  validate_contract_code code = SGX_SUCCESS <->
  (0 < Z.of_nat (length code) <= MAX_CONTRACT_SIZE
   /\ forallb known_opcode code = true
   /\ byte_at code (Z.of_nat (length code) - 1) = OP_HALT).
Proof.
  unfold validate_contract_code.
  destruct (Z.of_nat (length code) =? 0) eqn:E0.
  { apply Z.eqb_eq in E0. cbn [orb]. split; [discriminate | lia]. }
  destruct (Z.of_nat (length code) >? MAX_CONTRACT_SIZE) eqn:E1.
  { cbn [orb]. rewrite Z.gtb_ltb in E1. apply Z.ltb_lt in E1. split; [discriminate | lia]. }
  cbn [orb]. rewrite Z.gtb_ltb in E1. apply Z.ltb_ge in E1. apply Z.eqb_neq in E0.
  rewrite validate_scan_total by exact E1.
  destruct (forallb known_opcode code).
  - destruct (byte_at code (Z.of_nat (length code) - 1) =? OP_HALT) eqn:E2; cbn [negb].
    + apply Z.eqb_eq in E2. split; [intros _|reflexivity]. repeat split; auto; lia.
    + apply Z.eqb_neq in E2. split; [discriminate|]. intros (_ & _ & H). contradiction.
  - split; [discriminate|]. intros (_ & H & _). discriminate.
Qed.

(** The validator accepts CALL and RET, and does not look at operands or jump
    targets: the specification's criterion is not the one it decides. *)
Lemma validator_not_well_formedness :
  ~ (forall code : list Z,
       0 < Z.of_nat (length code) <= MAX_CONTRACT_SIZE ->
       (validate_contract_code code = SGX_SUCCESS <->
        spec_well_formed code = true /\ spec_call_ret_free code = true)).
Proof.
  intros H.
  assert (Hacc : validate_contract_code [OP_CALL; OP_HALT] = SGX_SUCCESS) by reflexivity.
  apply (H [OP_CALL; OP_HALT]) in Hacc; [|cbn; unfold MAX_CONTRACT_SIZE; lia].
  destruct Hacc as [_ Hfree]. vm_compute in Hfree. discriminate.
Qed.

Lemma known_opcode_range (b : Z) :
  known_opcode b = true <-> (0 <= b <= OP_VERIFY \/ b = OP_HALT).
Proof.
  unfold known_opcode, validator_case_labels. cbn [existsb].
  rewrite !orb_true_iff, !Z.eqb_eq.
  unfold OP_NOP, OP_PUSH, OP_POP, OP_ADD, OP_SUB, OP_MUL, OP_DIV, OP_MOD, OP_AND, OP_OR,
    OP_XOR, OP_NOT, OP_EQ, OP_LT, OP_GT, OP_JMP, OP_JMPIF, OP_CALL, OP_RET, OP_LOAD,
    OP_STORE, OP_HASH, OP_VERIFY, OP_HALT.
  split; [intros H; intuition lia | intros H; lia].
Qed.

Lemma operand_free_byte_at (code : list Z) (i : Z) :
  operand_free code -> 0 <= i < Z.of_nat (length code) ->
  spec_operand_width (byte_at code i) = 0.
Proof.
  intros Hfree Hi. unfold operand_free in Hfree. rewrite Forall_forall in Hfree.
  apply Hfree. unfold byte_at. apply nth_In. lia.
Qed.

Lemma spec_operand_width_nonneg (b : Z) : 0 <= spec_operand_width b.
Proof.
  unfold spec_operand_width. destruct (b =? OP_PUSH); [lia|].
  destruct ((b =? OP_JMP) || (b =? OP_JMPIF)); lia.
Qed.

Lemma spec_boundaries_from_range (code : list Z) (fuel : nat) :
  forall i j, 0 <= i -> In j (spec_boundaries_from fuel code i) ->
              i <= j < Z.of_nat (length code).
Proof.
  induction fuel as [|f IH]; intros i j Hi Hin; simpl in Hin.
  - destruct (i <? Z.of_nat (length code)); contradiction.
  - destruct (i <? Z.of_nat (length code)) eqn:E; [|contradiction].
    apply Z.ltb_lt in E. destruct Hin as [<-|Hin]; [lia|].
    pose proof (spec_operand_width_nonneg (byte_at code i)).
    apply IH in Hin; lia.
Qed.

Lemma spec_boundaries_from_last (code : list Z) :
  operand_free code ->
  forall (fuel : nat) (i : Z),
    0 <= i < Z.of_nat (length code) -> Z.of_nat (length code) - i <= Z.of_nat fuel ->
    last (spec_boundaries_from fuel code i) (-1) = Z.of_nat (length code) - 1.
Proof.
  intros Hfree fuel. induction fuel as [|f IH]; intros i Hi Hfuel; [lia|].
  cbn [spec_boundaries_from].
  destruct (i <? Z.of_nat (length code)) eqn:E; [|apply Z.ltb_ge in E; lia].
  rewrite (operand_free_byte_at code i Hfree Hi), Z.add_0_r.
  destruct (Z.eq_dec (i + 1) (Z.of_nat (length code))) as [Heq|Hne].
  - replace (spec_boundaries_from f code (i + 1)) with (@nil Z); [cbn; lia|].
    destruct f; simpl; destruct (i + 1 <? Z.of_nat (length code)) eqn:E1;
      try reflexivity; apply Z.ltb_lt in E1; lia.
  - specialize (IH (i + 1) ltac:(lia) ltac:(lia)).
    destruct (spec_boundaries_from f code (i + 1)) as [|b bs] eqn:Eb.
    + destruct f; simpl in Eb; destruct (i + 1 <? Z.of_nat (length code)) eqn:E1;
        try discriminate; try lia; apply Z.ltb_ge in E1; lia.
    + exact IH.
Qed.

(** On a program without operands the specification's criterion is that the
    last byte is HALT. *)
Lemma spec_well_formed_operand_free (code : list Z) :
  operand_free code ->
  (spec_well_formed code = true <->
   0 < Z.of_nat (length code) /\ byte_at code (Z.of_nat (length code) - 1) = OP_HALT).
Proof.
  intros Hfree. unfold spec_well_formed, spec_boundaries.
  assert (H1 : forallb (fun i => i + spec_operand_width (byte_at code i) <? Z.of_nat (length code))
                       (spec_boundaries_from (length code) code 0) = true).
  { apply forallb_forall. intros j Hj. apply spec_boundaries_from_range in Hj; [|lia].
    rewrite (operand_free_byte_at code j Hfree) by lia. apply Z.ltb_lt. lia. }
  assert (H2 : forallb (fun i => if spec_is_jump (byte_at code i)
                                 then existsb (Z.eqb (le_value (slice code (i + 1) 4)))
                                        (spec_boundaries_from (length code) code 0)
                                 else true)
                       (spec_boundaries_from (length code) code 0) = true).
  { apply forallb_forall. intros j Hj. apply spec_boundaries_from_range in Hj; [|lia].
    pose proof (operand_free_byte_at code j Hfree ltac:(lia)) as Hw.
    unfold spec_operand_width, spec_is_jump in *.
    destruct (byte_at code j =? OP_PUSH); [discriminate|].
    destruct ((byte_at code j =? OP_JMP) || (byte_at code j =? OP_JMPIF));
      [discriminate | reflexivity]. }
  rewrite H1, H2. cbn [andb]. rewrite Z.eqb_eq.
  destruct (Z.eq_dec (Z.of_nat (length code)) 0) as [Hz|Hnz].
  - destruct code; [|simpl in Hz; lia]. cbn. split; [discriminate | lia].
  - rewrite (spec_boundaries_from_last code Hfree (length code) 0) by lia.
    split; [intros H; split; [lia | exact H] | intros [_ H]; exact H].
Qed.

(** C2, as the code has it.  For a program of at most 1 MiB without operands
    (no PUSH, JMP or JMPIF byte) the validator accepts exactly when the
    program is well-formed and every byte is an opcode of the enumeration,
    0x00 to 0x16 or 0xFF: CALL (0x11) and RET (0x12) are among the accepted
    opcodes. *)
Theorem validate_operand_free (code : list Z) :
  operand_free code ->
  Z.of_nat (length code) <= MAX_CONTRACT_SIZE ->
  (validate_contract_code code = SGX_SUCCESS <->
   spec_well_formed code = true
   /\ Forall (fun b => 0 <= b <= OP_VERIFY \/ b = OP_HALT) code).
Proof.
  intros Hfree Hmax.
  rewrite validate_contract_code_iff, (spec_well_formed_operand_free code Hfree).
  rewrite forallb_forall, Forall_forall.
  split.
  - intros (Hsize & Hall & Hlast). repeat split; try tauto; try lia.
    intros b Hb. apply known_opcode_range. auto.
  - intros ((Hpos & Hlast) & Hall). repeat split; try tauto; try lia.
    intros b Hb. apply known_opcode_range. auto.
Qed.

Lemma validate_operand_free_witness :
  operand_free [OP_NOP; OP_CALL; OP_RET; OP_HALT]
  /\ Z.of_nat (length [OP_NOP; OP_CALL; OP_RET; OP_HALT]) <= MAX_CONTRACT_SIZE
  /\ validate_contract_code [OP_NOP; OP_CALL; OP_RET; OP_HALT] = SGX_SUCCESS.
Proof.
  assert (Hfree : operand_free [OP_NOP; OP_CALL; OP_RET; OP_HALT]).
  { repeat constructor. }
  assert (Hmax : Z.of_nat (length [OP_NOP; OP_CALL; OP_RET; OP_HALT]) <= MAX_CONTRACT_SIZE).
  { cbn. unfold MAX_CONTRACT_SIZE. lia. }
  split; [exact Hfree|]. split; [exact Hmax|].
  apply (validate_operand_free [OP_NOP; OP_CALL; OP_RET; OP_HALT] Hfree Hmax).
  split; [reflexivity|].
  repeat constructor; vm_compute; intuition discriminate.
Defined.

Example add_and_halt_bytes :
  add_and_halt = [0x01; 0x0A; 0; 0; 0; 0; 0; 0; 0; 0x01; 0x14; 0; 0; 0; 0; 0; 0; 0; 0x03; 0xFF].
Proof. reflexivity. Qed.

Example add_and_halt_well_formed : spec_well_formed add_and_halt = true.
Proof. reflexivity. Qed.

Example truncated_push_accepted :
  validate_contract_code [OP_PUSH; OP_HALT] = SGX_SUCCESS
  /\ spec_well_formed [OP_PUSH; OP_HALT] = false.
Proof. split; reflexivity. Qed.

(** ** One instruction *)

Ltac split_head :=
  match goal with
  | |- (if ?b then _ else _) = _ -> _ => destruct b eqn:?
  | |- (match ?x with _ => _ end) = _ -> _ => destruct x eqn:?
  | |- (let '(_, _) := ?x in _) = _ -> _ => destruct x eqn:?
  end.

Ltac close_ret :=
  let H := fresh "H" in
  intros H; inversion H; subst; clear H; cbn; auto.

(** An instruction writes the stack, the memory, the program counter and,
    for HALT, the state; nothing else. *)
Lemma execute_instruction_frame {stale : Z} (c c' : contract_execution_context_t) (opcode : Z)
  (ret : sgx_status_t) :
  execute_instruction stale c opcode = Ret ret c' ->
  same_frame c c' /\ gas_used c' = gas_used c
  /\ (state c' = state c \/ (opcode = OP_HALT /\ ret = SGX_SUCCESS)).
Proof.
  unfold execute_instruction, binary_op, division_op, jump, stack_pop, stack_push, same_frame.
  repeat split_head; try discriminate;
    try (close_ret; repeat split; auto; fail).
  close_ret. repeat split; auto. right. split; [|reflexivity].
  match goal with H : (opcode =? OP_HALT) = true |- _ => apply Z.eqb_eq in H; exact H end.
Qed.

(** Only HASH can reach outside the scratch memory. *)
Lemma execute_instruction_out_of_bounds {stale : Z}
  (c : contract_execution_context_t) (opcode addr len : Z) :
  execute_instruction stale c opcode = OutOfBounds addr len -> opcode = OP_HASH.
Proof.
  unfold execute_instruction, binary_op, division_op, jump, stack_pop, stack_push.
  repeat split_head; try discriminate.
  intros _. match goal with H : (opcode =? OP_HASH) = true |- _ => apply Z.eqb_eq in H; exact H end.
Qed.

(** ** One turn of the loop *)

Lemma check_gas_frame (c c' : contract_execution_context_t) (cost : Z) :
  gas_limit c' = gas_limit c -> gas_used c' = gas_used c ->
  check_gas c' cost = check_gas c cost.
Proof. unfold check_gas. intros -> ->. reflexivity. Qed.

Lemma same_frame_refl (c : contract_execution_context_t) : same_frame c c.
Proof. unfold same_frame. auto. Qed.

Lemma same_frame_trans (c1 c2 c3 : contract_execution_context_t) :
  same_frame c1 c2 -> same_frame c2 c3 -> same_frame c1 c3.
Proof. unfold same_frame. intuition congruence. Qed.

Lemma loop_iteration_spec {stale : Z} (c : contract_execution_context_t) :
  iteration_spec c (loop_iteration stale c).
Proof.
  unfold iteration_spec, loop_iteration. fold (next_opcode c).
  set (cost := get_opcode_gas_cost (next_opcode c)).
  destruct (check_gas c cost) eqn:Hgas; cbn [negb].
  2: { split; [unfold same_frame; cbn; auto 10|]. left. auto. }
  destruct (execute_instruction stale c (next_opcode c)) as [ret c1|addr len] eqn:Hexec.
  2: { split; [reflexivity|]. eapply execute_instruction_out_of_bounds; eauto. }
  destruct (execute_instruction_frame _ _ _ _ Hexec) as (Hframe & Hused & Hstate).
  assert (Hlimit : gas_limit c1 = gas_limit c) by (unfold same_frame in Hframe; tauto).
  assert (Hcons : snd (consume_gas c1 cost) = set_gas_used c1 (u64 (gas_used c + cost))).
  { unfold consume_gas. rewrite (check_gas_frame c c1 cost Hlimit Hused), Hgas, Hused.
    reflexivity. }
  destruct ret; try (split; [exact Hframe|]; right; right;
                     repeat split; auto; discriminate).
  rewrite Hcons. destruct (next_opcode c =? OP_HALT) eqn:Hhalt.
  - apply Z.eqb_eq in Hhalt. split; [exact Hframe|]. right. left. repeat split; auto.
  - apply Z.eqb_neq in Hhalt. repeat split; unfold same_frame in *; cbn; tauto.
Qed.

(** ** The loop *)

Lemma reachable_trans (c0 c1 c2 : contract_execution_context_t) :
  reachable c0 c1 -> reachable c1 c2 -> reachable c0 c2.
Proof.
  intros H01 H12. induction H12 as [|stale c c' H IH Hcond Hit|stale c c' ret H IH Hcond Hit].
  - exact H01.
  - eapply reach_continue; eauto.
  - eapply reach_break; eauto.
Qed.

Lemma reachable_frame (c0 c : contract_execution_context_t) :
  reachable c0 c -> same_frame c0 c.
Proof.
  induction 1 as [|stale c c' H IH Hcond Hit|stale c c' ret H IH Hcond Hit].
  - apply same_frame_refl.
  - pose proof (loop_iteration_spec (stale := stale) c) as Hs. rewrite Hit in Hs. cbn in Hs.
    eapply same_frame_trans; [exact IH | tauto].
  - pose proof (loop_iteration_spec (stale := stale) c) as Hs. rewrite Hit in Hs. cbn in Hs.
    eapply same_frame_trans; [exact IH | tauto].
Qed.

(** Gas never passes the limit in a state of a run. *)
Lemma reachable_gas_bounded (c0 c : contract_execution_context_t) :
  0 <= gas_used c0 <= gas_limit c0 ->
  reachable c0 c -> 0 <= gas_used c <= gas_limit c.
Proof.
  intros H0. induction 1 as [|stale c c' H IH Hcond Hit|stale c c' ret H IH Hcond Hit].
  - exact H0.
  - pose proof (loop_iteration_spec (stale := stale) c) as Hs. rewrite Hit in Hs. cbn in Hs.
    destruct Hs as (Hgas & Hframe & Hused & _).
    unfold check_gas in Hgas. apply Z.leb_le in Hgas.
    assert (Hl : gas_limit c' = gas_limit c) by (unfold same_frame in Hframe; tauto).
    rewrite Hused, Hl. pose proof (u64_range (gas_used c + get_opcode_gas_cost (next_opcode c))).
    unfold in_range in *. lia.
  - pose proof (loop_iteration_spec (stale := stale) c) as Hs. rewrite Hit in Hs. cbn in Hs.
    destruct Hs as (Hframe & Hs).
    assert (Hl : gas_limit c' = gas_limit c) by (unfold same_frame in Hframe; tauto).
    rewrite Hl.
    destruct Hs as [(_ & _ & ->)|[(Hgas & _ & _ & _ & Hused)|(_ & _ & _ & Hused)]].
    + cbn. lia.
    + unfold check_gas in Hgas. apply Z.leb_le in Hgas. rewrite Hused.
      pose proof (u64_range (gas_used c + get_opcode_gas_cost (next_opcode c))).
      unfold in_range in *. lia.
    + rewrite Hused. lia.
Qed.

(** When the loop ends, it ends in a reachable context, in one of four ways. *)
Lemma execute_loop_done {stales : stale_values} (fuel : nat)
  (c c' : contract_execution_context_t) (ret : sgx_status_t) :
  execute_loop stales fuel c = Done (ret, c') ->
  reachable c c' /\ exit_spec c ret c'.
Proof.
  revert stales c c' ret.
  induction fuel as [|f IH]; intros stales c c' ret Hrun; cbn [execute_loop] in Hrun.
  - destruct (loop_condition c) eqn:Hcond; [discriminate|].
    inversion Hrun; subst. split; [constructor|]. unfold exit_spec. auto 10.
  - destruct (loop_condition c) eqn:Hcond.
    2: { inversion Hrun; subst. split; [constructor|]. unfold exit_spec. auto 10. }
    pose proof (loop_iteration_spec (stale := stales O) c) as Hs.
    destruct (loop_iteration (stales O) c) as [c1|ret1 c1|addr len] eqn:Hit; [| |discriminate].
    + destruct (IH _ _ _ _ Hrun) as [Hreach Hexit]. cbn in Hs.
      split.
      * eapply reachable_trans; [|exact Hreach].
        eapply reach_continue; [constructor | exact Hcond | exact Hit].
      * unfold exit_spec in *. destruct Hs as (_ & _ & _ & Hstate & _).
        rewrite <- Hstate. exact Hexit.
    + inversion Hrun; subst. cbn in Hs. split.
      * eapply reach_break; [constructor | exact Hcond | exact Hit].
      * unfold exit_spec. destruct Hs as (_ & [(_ & -> & ->)|[H|H]]); cbn; tauto.
Qed.

(** Fuel beyond what a run needs does not change it. *)
Lemma execute_loop_more_fuel {stales : stale_values} (fuel : nat)
  (c : contract_execution_context_t) (r : sgx_status_t * contract_execution_context_t)
  (extra : nat) :
  execute_loop stales fuel c = Done r -> execute_loop stales (fuel + extra) c = Done r.
Proof.
  revert stales c r extra.
  induction fuel as [|f IH]; intros stales c r extra Hrun.
  - cbn [execute_loop] in Hrun. destruct (loop_condition c) eqn:Hcond; [discriminate|].
    destruct (0 + extra)%nat; cbn [execute_loop]; rewrite Hcond; exact Hrun.
  - cbn [execute_loop Nat.add] in *. destruct (loop_condition c); [|exact Hrun].
    destruct (loop_iteration (stales O) c); try exact Hrun. apply IH. exact Hrun.
Qed.

(** ** [execute_contract] *)

Lemma execute_contract_done {stales : stale_values} (fuel : nat) (v v' : contract_verifier_t)
  (ctx c' : contract_execution_context_t) (ret : sgx_status_t) :
  execute_contract stales fuel v ctx = Done (ret, v', c') ->
  initialized v = true ->
  validate_contract_code (contract_code ctx) = SGX_SUCCESS ->
  exists c1,
    execute_loop stales fuel (start ctx) = Done (ret, c1)
    /\ c' = match state c1 with
            | CONTRACT_STATE_COMPLETED => set_execution_hash c1 (compute_execution_hash c1)
            | _ => c1
            end
    /\ v' = mkVerifier (initialized v) (u64 (execution_counter v + 1)).
Proof.
  unfold execute_contract. intros Hrun Hinit Hvalid. rewrite Hinit, Hvalid in Hrun.
  cbn [negb] in Hrun.
  destruct (execute_loop stales fuel (start ctx)) as [[ret1 c1]| |] eqn:Hloop; try discriminate.
  inversion Hrun; subst. exists c1. rewrite Hinit. auto.
Qed.

(** A call that returns [SGX_SUCCESS] has passed the two checks. *)
Lemma execute_contract_success {stales : stale_values} (fuel : nat) (v v' : contract_verifier_t)
  (ctx c' : contract_execution_context_t) :
  execute_contract stales fuel v ctx = Done (SGX_SUCCESS, v', c') ->
  initialized v = true /\ validate_contract_code (contract_code ctx) = SGX_SUCCESS.
Proof.
  unfold execute_contract. intros Hrun.
  destruct (initialized v); cbn [negb] in Hrun; [|discriminate].
  destruct (validate_contract_code (contract_code ctx)) eqn:Hv; try (inversion Hrun; fail).
  auto.
Qed.

(** ** Output (C1) *)

(** No instruction and no step of [execute_contract] writes the result
    buffer: after a run no byte of it counts. *)
Lemma execute_contract_output_empty {stales : stale_values}
  (fuel : nat) (v v' : contract_verifier_t)
  (ctx c' : contract_execution_context_t) :
  execute_contract stales fuel v ctx = Done (SGX_SUCCESS, v', c') -> result_data c' = [].
Proof.
  intros Hrun. destruct (execute_contract_success _ _ _ _ _ Hrun) as [Hinit Hvalid].
  destruct (execute_contract_done _ _ _ _ _ _ Hrun Hinit Hvalid) as (c1 & Hloop & -> & _).
  apply execute_loop_done in Hloop. destruct Hloop as [Hreach _].
  apply reachable_frame in Hreach. unfold same_frame in Hreach.
  destruct Hreach as (_ & _ & Hres & _).
  destruct (state c1); cbn; rewrite Hres; reflexivity.
Qed.

(** C1 at the add-and-halt program: the run completes with 30 on top of the
    stack and 9 gas used, and the output the host receives is empty, not the
    eight bytes of 30. *)
Theorem add_and_halt_output_is_empty {stales : stale_values} :
  (exists c,
     execute_contract stales 4 ready (fresh_context add_and_halt (Some []) DEFAULT_GAS_LIMIT)
     = Done (SGX_SUCCESS, mkVerifier true 1, c)
     /\ state c = CONTRACT_STATE_COMPLETED /\ gas_used c = 9
     /\ stack c = [30] /\ result_data c = [] /\ result_data c <> le_bytes 8 30)
  /\ ecall_verify_contract_execution stales 4 true ready (Some add_and_halt) (Some [])
       (mkOutputs (repeat 0 64) 64 0)
     = Done (SGX_SUCCESS, mkVerifier true 1, mkOutputs (repeat 0 64) 0 9).
Proof.
  split.
  - eexists. split; [vm_compute; reflexivity|].
    repeat split; try reflexivity. cbn. discriminate.
  - vm_compute. reflexivity.
Qed.

(** ** The execution hash (C3) *)

Lemma compute_execution_hash_eq (c : contract_execution_context_t) :
  compute_execution_hash c =
  Sha256.sha256
    (Sha256.sha256 (contract_code c)
     ++ match input_bytes c with [] => [] | _ :: _ => Sha256.sha256 (input_bytes c) end
     ++ result_data c ++ le_bytes 8 (gas_used c)).
Proof.
  unfold compute_execution_hash, sgx_sha256_get_hash, sgx_sha256_update, sgx_sha256_msg,
    sgx_sha256_init, input_bytes, result_size.
  destruct (input_data c) as [[|b input]|]; destruct (result_data c) as [|r res];
    cbn [length Z.of_nat Z.gtb Z.compare app];
    rewrite <- ?app_assoc; reflexivity.
Qed.

(** With an empty input the hash of the add-and-halt run is not the
    specification's record, which has the digest of the empty string in it. *)
Lemma execution_hash_empty_input_differs :
  exists v c,
    execute_contract zeroed 4 ready (fresh_context add_and_halt (Some []) DEFAULT_GAS_LIMIT)
    = Done (SGX_SUCCESS, v, c)
    /\ state c = CONTRACT_STATE_COMPLETED
    /\ execution_hash c
       <> spec_execution_hash add_and_halt [] (result_data c) (gas_used c).
Proof.
  eexists. eexists. split; [vm_compute; reflexivity|].
  split; [reflexivity|]. vm_compute. discriminate.
Qed.

(** C3, as the code has it.  When a run completes, the execution hash is
    SHA256( SHA256(code) ++ SHA256(input) ++ output ++ LE64(gas_used) ) if the
    input is not empty; for an empty input no input hash enters the record,
    which is then SHA256( SHA256(code) ++ output ++ LE64(gas_used) ). *)
Theorem execution_hash_completed {stales : stale_values}
  (fuel : nat) (v v' : contract_verifier_t)
  (ctx c' : contract_execution_context_t) :
  execute_contract stales fuel v ctx = Done (SGX_SUCCESS, v', c') ->
  state c' = CONTRACT_STATE_COMPLETED ->
  (input_bytes ctx <> [] ->
   execution_hash c'
   = spec_execution_hash (contract_code ctx) (input_bytes ctx) (result_data c') (gas_used c'))
  /\ (input_bytes ctx = [] ->
      execution_hash c'
      = Sha256.sha256 (Sha256.sha256 (contract_code ctx)
                       ++ result_data c' ++ le_bytes 8 (gas_used c'))).
Proof.
  intros Hrun Hstate.
  destruct (execute_contract_success _ _ _ _ _ Hrun) as [Hinit Hvalid].
  destruct (execute_contract_done _ _ _ _ _ _ Hrun Hinit Hvalid) as (c1 & Hloop & Hc' & _).
  apply execute_loop_done in Hloop. destruct Hloop as [Hreach _].
  apply reachable_frame in Hreach. unfold same_frame in Hreach. cbn in Hreach.
  destruct Hreach as (Hcode & Hinput & _).
  assert (Hbytes : input_bytes c1 = input_bytes ctx) by (unfold input_bytes; rewrite Hinput; reflexivity).
  destruct (state c1) eqn:Hs1; subst c'; try (rewrite Hs1 in Hstate; discriminate).
  cbn [execution_hash set_execution_hash result_data gas_used].
  rewrite compute_execution_hash_eq, Hcode, Hbytes. unfold spec_execution_hash.
  split; intros Hin.
  - destruct (input_bytes ctx); [contradiction | reflexivity].
  - rewrite Hin. reflexivity.
Qed.

Lemma execution_hash_completed_witness :
  (exists v c,
     execute_contract zeroed 4 ready (fresh_context add_and_halt (Some [1; 2; 3]) DEFAULT_GAS_LIMIT)
     = Done (SGX_SUCCESS, v, c)
     /\ state c = CONTRACT_STATE_COMPLETED
     /\ execution_hash c
        = spec_execution_hash add_and_halt [1; 2; 3] (result_data c) (gas_used c))
  /\ (exists v c,
        execute_contract zeroed 4 ready (fresh_context add_and_halt (Some []) DEFAULT_GAS_LIMIT)
        = Done (SGX_SUCCESS, v, c)
        /\ state c = CONTRACT_STATE_COMPLETED
        /\ execution_hash c
           = Sha256.sha256 (Sha256.sha256 add_and_halt ++ result_data c
                            ++ le_bytes 8 (gas_used c))).
Proof.
  split.
  - eassert (Hrun : execute_contract zeroed 4 ready
                      (fresh_context add_and_halt (Some [1; 2; 3]) DEFAULT_GAS_LIMIT)
                    = Done (SGX_SUCCESS, _, _)) by (vm_compute; reflexivity).
    eexists. eexists. split; [exact Hrun|].
    split; [reflexivity|].
    apply (proj1 (execution_hash_completed _ _ _ _ _ Hrun eq_refl)).
    cbn. discriminate.
  - eassert (Hrun : execute_contract zeroed 4 ready
                      (fresh_context add_and_halt (Some []) DEFAULT_GAS_LIMIT)
                    = Done (SGX_SUCCESS, _, _)) by (vm_compute; reflexivity).
    eexists. eexists. split; [exact Hrun|].
    split; [reflexivity|].
    apply (proj2 (execution_hash_completed _ _ _ _ _ Hrun eq_refl)).
    reflexivity.
Defined.

(** ** Gas charged per instruction (C4) *)

(** The division by zero ends the run in ERROR with 6 gas used, not 11: DIV
    has no entry in the gas table, and an instruction is charged only after
    it has succeeded. *)
Lemma div_by_zero_gas_is_not_11 :
  exists v c,
    execute_contract zeroed 4 ready (fresh_context div_by_zero (Some []) DEFAULT_GAS_LIMIT)
    = Done (SGX_ERROR_CONTRACT_EXECUTION_FAILED, v, c)
    /\ state c = CONTRACT_STATE_ERROR
    /\ gas_used c = 6 /\ gas_used c <> 11
    /\ get_opcode_gas_cost OP_DIV <> spec_cost OP_DIV.
Proof.
  eexists. eexists. split; [vm_compute; reflexivity|].
  repeat split; try reflexivity; cbn; discriminate.
Qed.

(** C4, as the code has it.  An instruction that succeeds is charged the cost
    the gas table has for its opcode, which for NOP, PUSH, POP, ADD, SUB, MUL
    and HALT is the cost of the specification's table (1, 3, 2, 3, 3, 5, 0);
    an instruction that fails is not charged.  So the division by zero ends
    in ERROR with gas_used = 3 + 3 = 6 and no output. *)
Theorem gas_charged_on_success {stale : Z} {stales : stale_values}
  (c c' : contract_execution_context_t) (ret : sgx_status_t) :
  (loop_iteration stale c = Continue c' \/ loop_iteration stale c = Break SGX_SUCCESS c' ->
   gas_used c' = u64 (gas_used c + get_opcode_gas_cost (next_opcode c)))
  /\ (loop_iteration stale c = Break ret c' -> ret <> SGX_SUCCESS -> gas_used c' = gas_used c)
  /\ (In (next_opcode c) [OP_NOP; OP_PUSH; OP_POP; OP_ADD; OP_SUB; OP_MUL; OP_HALT] ->
      get_opcode_gas_cost (next_opcode c) = spec_cost (next_opcode c))
  /\ (exists v cz,
        execute_contract stales 4 ready (fresh_context div_by_zero (Some []) DEFAULT_GAS_LIMIT)
        = Done (SGX_ERROR_CONTRACT_EXECUTION_FAILED, v, cz)
        /\ state cz = CONTRACT_STATE_ERROR /\ gas_used cz = 6 /\ result_data cz = []).
Proof.
  pose proof (loop_iteration_spec (stale := stale) c) as Hs.
  split; [|split; [|split]].
  - intros [Hit|Hit]; rewrite Hit in Hs; cbn in Hs.
    + tauto.
    + destruct Hs as (_ & [(_ & H & _)|[H|(_ & H & _)]]); try discriminate; try tauto.
  - intros Hit Hret. rewrite Hit in Hs. cbn in Hs.
    destruct Hs as (_ & [(_ & _ & ->)|[(_ & H & _)|H]]); [reflexivity | contradiction | tauto].
  - cbn [In]. intros H.
    repeat (destruct H as [<-|H]; [reflexivity|]). contradiction.
  - eexists. eexists. split; [vm_compute; reflexivity|]. repeat split.
Qed.

Lemma gas_charged_on_success_witness :
  (exists c',
     loop_iteration 0 (start (fresh_context add_and_halt (Some []) DEFAULT_GAS_LIMIT))
     = Continue c'
     /\ gas_used c' = 3)
  /\ (exists c',
        loop_iteration 0 before_division = Break SGX_ERROR_CONTRACT_EXECUTION_FAILED c'
        /\ gas_used c' = 6)
  /\ get_opcode_gas_cost
       (next_opcode (start (fresh_context add_and_halt (Some []) DEFAULT_GAS_LIMIT)))
     = 3.
Proof.
  split; [|split].
  - eassert (Hit : loop_iteration 0 (start (fresh_context add_and_halt (Some []) DEFAULT_GAS_LIMIT))
                   = Continue _) by (vm_compute; reflexivity).
    eexists. split; [exact Hit|].
    rewrite (proj1 (gas_charged_on_success (stales := zeroed) _ _ SGX_SUCCESS) (or_introl Hit)).
    reflexivity.
  - eassert (Hit : loop_iteration 0 before_division
                   = Break SGX_ERROR_CONTRACT_EXECUTION_FAILED _) by (vm_compute; reflexivity).
    eexists. split; [exact Hit|].
    rewrite (proj1 (proj2 (gas_charged_on_success (stales := zeroed) _ _ _)) Hit);
      [reflexivity | discriminate].
  - rewrite (proj1 (proj2 (proj2
               (gas_charged_on_success (stale := 0) (stales := zeroed)
                  (start (fresh_context add_and_halt (Some []) DEFAULT_GAS_LIMIT))
                  (start (fresh_context add_and_halt (Some []) DEFAULT_GAS_LIMIT))
                  SGX_SUCCESS)))).
    + reflexivity.
    + right. left. reflexivity.
Defined.

(** ** The gas bound (C5) *)

Lemma get_opcode_gas_cost_range (opcode : Z) : 0 <= get_opcode_gas_cost opcode <= 5.
Proof.
  unfold get_opcode_gas_cost, GAS_COSTS.
  repeat match goal with |- context [if ?b then _ else _] => destruct b end; lia.
Qed.

(** Away from the top of the 64-bit range the sum in [check_gas] does not
    wrap, and the check is the comparison of the cost with the gas left. *)
Lemma check_gas_exact (c : contract_execution_context_t) (cost : Z) :
  0 <= gas_used c <= gas_limit c -> 0 <= cost <= 5 -> gas_limit c <= U64.max - 5 ->
  check_gas c cost = (cost <=? gas_limit c - gas_used c).
Proof.
  intros Hused Hcost Hlimit. unfold check_gas.
  rewrite u64_small by (unfold in_range, modulus, U64.max in *; lia).
  destruct (cost <=? gas_limit c - gas_used c) eqn:E;
    [apply Z.leb_le in E; apply Z.leb_le | apply Z.leb_gt in E; apply Z.leb_gt]; lia.
Qed.

(** For a gas limit of at most 2^64 - 6, a turn of the loop ends the run in
    OUT_OF_GAS exactly when the cost of the next opcode exceeds the gas left,
    and it then leaves [gas_used] as it was. *)
Lemma out_of_gas_iff {stale : Z} (c : contract_execution_context_t) :
  0 <= gas_used c <= gas_limit c -> gas_limit c <= U64.max - 5 ->
  state c = CONTRACT_STATE_RUNNING ->
  ((exists ret c', loop_iteration stale c = Break ret c' /\ state c' = CONTRACT_STATE_OUT_OF_GAS)
   <-> gas_limit c - gas_used c < get_opcode_gas_cost (next_opcode c))
  /\ (forall ret c', loop_iteration stale c = Break ret c' ->
                     state c' = CONTRACT_STATE_OUT_OF_GAS -> gas_used c' = gas_used c).
Proof.
  intros Hused Hlimit Hrun.
  pose proof (get_opcode_gas_cost_range (next_opcode c)) as Hcost.
  pose proof (check_gas_exact c _ Hused Hcost Hlimit) as Hcheck.
  pose proof (loop_iteration_spec (stale := stale) c) as Hs.
  split; [split|].
  - intros (ret & c' & Hit & Hoog). rewrite Hit in Hs. cbn in Hs.
    destruct Hs as (_ & [(Hgas & _)|[(_ & _ & _ & H & _)|(_ & _ & H & _)]]);
      try congruence.
    rewrite Hcheck in Hgas. apply Z.leb_gt in Hgas. exact Hgas.
  - intros Hlt. assert (Hgas : check_gas c (get_opcode_gas_cost (next_opcode c)) = false).
    { rewrite Hcheck. apply Z.leb_gt. exact Hlt. }
    unfold loop_iteration. fold (next_opcode c). rewrite Hgas. cbn [negb].
    eexists. eexists. split; reflexivity.
  - intros ret c' Hit Hoog. rewrite Hit in Hs. cbn in Hs.
    destruct Hs as (_ & [(_ & _ & ->)|[(_ & _ & _ & H & _)|(_ & _ & H & _)]]);
      try congruence.
    reflexivity.
Qed.

(** A state of a run that is OUT_OF_GAS comes from a turn whose charge
    failed: it is the state before that turn but for the state field. *)
Lemma reachable_out_of_gas (c0 c : contract_execution_context_t) :
  reachable c0 c -> state c0 = CONTRACT_STATE_RUNNING ->
  state c = CONTRACT_STATE_OUT_OF_GAS ->
  exists b,
    reachable c0 b /\ c = set_state b CONTRACT_STATE_OUT_OF_GAS
    /\ check_gas b (get_opcode_gas_cost (next_opcode b)) = false.
Proof.
  intros Hreach H0 Hoog.
  inversion Hreach as [Heq|stale b c' Hb Hcond Hit Heq|stale b c' ret Hb Hcond Hit Heq]; subst.
  - congruence.
  - pose proof (loop_iteration_spec (stale := stale) b) as Hs. rewrite Hit in Hs. cbn in Hs.
    destruct Hs as (_ & _ & _ & Hstate & _).
    unfold loop_condition in Hcond. rewrite Hstate in Hoog. rewrite Hoog in Hcond. discriminate.
  - pose proof (loop_iteration_spec (stale := stale) b) as Hs. rewrite Hit in Hs. cbn in Hs.
    destruct Hs as (_ & [(Hgas & _ & ->)|[(_ & _ & _ & H & _)|(_ & _ & H & _)]]);
      try congruence.
    exists b. auto.
Qed.

(** C5.  In every state of a run of [execute_contract] [gas_used] is at most
    [gas_limit].  The sum in [check_gas] is a 64-bit one; under a gas limit of
    at most 2^64 - 6 (the boundary call sets 1,000,000) no cost of the gas
    table makes it wrap, and then, in every state of a run: a charge whose
    cost exceeds the gas left fails and leaves the context, [gas_used]
    included, as it is, and any other charge adds the cost; a turn of the
    loop ends the run in OUT_OF_GAS, with [SGX_ERROR_INSUFFICIENT_GAS] and
    nothing else changed, if and only if the cost of the next opcode exceeds
    the gas left.  A call that returns with its context OUT_OF_GAS returns
    [SGX_ERROR_INSUFFICIENT_GAS] in front of an opcode whose cost exceeds the
    gas left. *)
Theorem gas_bound_and_out_of_gas {stale : Z} {stales : stale_values} (fuel : nat)
  (v v' : contract_verifier_t) (ctx c c_end : contract_execution_context_t)
  (ret : sgx_status_t) :
  0 <= gas_limit ctx ->
  reachable (start ctx) c ->
  0 <= gas_used c <= gas_limit c
  /\ gas_limit c = gas_limit ctx
  /\ (gas_limit ctx <= U64.max - 5 ->
      (forall opcode,
         let cost := get_opcode_gas_cost opcode in
         (gas_limit c - gas_used c < cost ->
          check_gas c cost = false /\ consume_gas c cost = (SGX_ERROR_INSUFFICIENT_GAS, c))
         /\ (cost <= gas_limit c - gas_used c ->
             check_gas c cost = true
             /\ consume_gas c cost = (SGX_SUCCESS, set_gas_used c (gas_used c + cost))))
      /\ (gas_limit c - gas_used c < get_opcode_gas_cost (next_opcode c) ->
          loop_iteration stale c
          = Break SGX_ERROR_INSUFFICIENT_GAS (set_state c CONTRACT_STATE_OUT_OF_GAS))
      /\ ((exists r c', loop_iteration stale c = Break r c'
                        /\ state c' = CONTRACT_STATE_OUT_OF_GAS)
          <-> gas_limit c - gas_used c < get_opcode_gas_cost (next_opcode c))
      /\ (execute_contract stales fuel v ctx = Done (ret, v', c_end) ->
          state ctx <> CONTRACT_STATE_OUT_OF_GAS ->
          state c_end = CONTRACT_STATE_OUT_OF_GAS ->
          ret = SGX_ERROR_INSUFFICIENT_GAS
          /\ 0 <= gas_used c_end <= gas_limit c_end
          /\ gas_limit c_end - gas_used c_end < get_opcode_gas_cost (next_opcode c_end))).
Proof.
  intros Hnonneg Hreach.
  split; [apply (reachable_gas_bounded (start ctx) c); [cbn; lia | exact Hreach]|].
  split.
  { pose proof (reachable_frame _ _ Hreach) as Hf. unfold same_frame in Hf. cbn in Hf. tauto. }
  intros Hmax. assert (Hlimit : 0 <= gas_limit ctx <= U64.max - 5) by lia.
  assert (Hbound : forall b, reachable (start ctx) b ->
            0 <= gas_used b <= gas_limit b /\ gas_limit b <= U64.max - 5).
  { intros b Hb. split.
    - apply (reachable_gas_bounded (start ctx) b); [cbn; lia | exact Hb].
    - apply reachable_frame in Hb. unfold same_frame in Hb. cbn in Hb.
      destruct Hb as (_ & _ & _ & Hl & _). rewrite Hl. lia. }
  assert (Hcheck : forall b opcode, reachable (start ctx) b ->
            check_gas b (get_opcode_gas_cost opcode)
            = (get_opcode_gas_cost opcode <=? gas_limit b - gas_used b)).
  { intros b opcode Hb. destruct (Hbound b Hb) as [Hu Hl].
    apply check_gas_exact; [exact Hu | apply get_opcode_gas_cost_range | exact Hl]. }
  destruct (Hbound c Hreach) as [Hused Hl].
  split; [|split; [|split]].
  - intros opcode cost. pose proof (get_opcode_gas_cost_range opcode) as Hcost.
    fold cost in Hcost. split; intros Hc.
    + assert (Hgas : check_gas c cost = false).
      { unfold cost. rewrite (Hcheck c opcode Hreach). apply Z.leb_gt. exact Hc. }
      split; [exact Hgas|]. unfold consume_gas. rewrite Hgas. reflexivity.
    + assert (Hgas : check_gas c cost = true).
      { unfold cost. rewrite (Hcheck c opcode Hreach). apply Z.leb_le. exact Hc. }
      split; [exact Hgas|]. unfold consume_gas. rewrite Hgas. cbn [negb].
      rewrite u64_small; [reflexivity|]. unfold in_range, modulus, U64.max in *. lia.
  - intros Hc. unfold loop_iteration. fold (next_opcode c).
    rewrite (Hcheck c _ Hreach).
    replace (get_opcode_gas_cost (next_opcode c) <=? gas_limit c - gas_used c) with false
      by (symmetry; apply Z.leb_gt; exact Hc).
    reflexivity.
  - pose proof (loop_iteration_spec (stale := stale) c) as Hs. split.
    + intros (r & c' & Hit & Hoog). rewrite Hit in Hs. cbn in Hs.
      destruct Hs as (_ & [(Hgas & _)|[(_ & _ & _ & H & _)|(_ & _ & H & _)]]);
        try congruence.
      rewrite (Hcheck c _ Hreach) in Hgas. apply Z.leb_gt in Hgas. exact Hgas.
    + intros Hc. unfold loop_iteration. fold (next_opcode c).
      rewrite (Hcheck c _ Hreach).
      replace (get_opcode_gas_cost (next_opcode c) <=? gas_limit c - gas_used c) with false
        by (symmetry; apply Z.leb_gt; exact Hc).
      eexists. eexists. split; reflexivity.
  - intros Hrun Hentry Hoog.
    assert (Hran : initialized v = true
                   /\ validate_contract_code (contract_code ctx) = SGX_SUCCESS).
    { unfold execute_contract in Hrun.
      destruct (initialized v); cbn [negb] in Hrun; [|inversion Hrun; subst; contradiction].
      destruct (validate_contract_code (contract_code ctx));
        try (inversion Hrun; subst; contradiction).
      auto. }
    destruct Hran as [Hinit Hvalid].
    destruct (execute_contract_done _ _ _ _ _ _ Hrun Hinit Hvalid) as (c1 & Hloop & Hend & _).
    apply execute_loop_done in Hloop. destruct Hloop as [Hc1 Hexit].
    assert (Hstate : state c1 = CONTRACT_STATE_OUT_OF_GAS /\ c_end = c1).
    { subst c_end. destruct (state c1) eqn:E; cbn in Hoog; try congruence. auto. }
    destruct Hstate as [Hs1 ->].
    assert (Hret : ret = SGX_ERROR_INSUFFICIENT_GAS).
    { unfold exit_spec in Hexit. cbn [start state] in Hexit.
      destruct Hexit as [[H _]|[[H _]|[[_ H]|(H & _)]]]; congruence. }
    destruct (reachable_out_of_gas _ _ Hc1 eq_refl Hs1) as (b & Hb & -> & Hgas).
    split; [exact Hret|].
    destruct (Hbound b Hb) as [Hub Hlb].
    cbn [set_state gas_used gas_limit].
    split; [exact Hub|].
    rewrite (Hcheck b _ Hb) in Hgas. apply Z.leb_gt in Hgas. exact Hgas.
Qed.

Lemma gas_bound_and_out_of_gas_witness :
  exists v c,
    execute_contract zeroed 4 ready (fresh_context add_and_halt (Some []) 5)
    = Done (SGX_ERROR_INSUFFICIENT_GAS, v, c)
    /\ state c = CONTRACT_STATE_OUT_OF_GAS
    /\ 0 <= gas_used c <= gas_limit c
    /\ gas_limit c - gas_used c < get_opcode_gas_cost (next_opcode c).
Proof.
  eassert (Hrun : execute_contract zeroed 4 ready (fresh_context add_and_halt (Some []) 5)
                  = Done (SGX_ERROR_INSUFFICIENT_GAS, _, _)) by (vm_compute; reflexivity).
  eexists. eexists. split; [exact Hrun|]. split; [reflexivity|].
  apply (proj2 (proj2 (proj2
           (proj2 (proj2 (gas_bound_and_out_of_gas (stale := 0) 4 ready _
                            (fresh_context add_and_halt (Some []) 5)
                            (start (fresh_context add_and_halt (Some []) 5)) _ _
                            ltac:(cbn; lia) (reach_start _)))
                  ltac:(cbn; unfold U64.max; lia)))) Hrun).
  - cbn. discriminate.
  - reflexivity.
Defined.

(** ** Memory confinement (C7) *)

(** LOAD fails for every address from 4088 on. *)
Lemma load_confined {stale : Z} (c : contract_execution_context_t) (a : Z) (s : vm_stack_t) :
  stack c = a :: s -> a + 8 > MEMORY_SIZE ->
  execute_instruction stale c OP_LOAD = Ret SGX_ERROR_CONTRACT_EXECUTION_FAILED (set_stack c s).
Proof.
  intros Hstack Ha. unfold execute_instruction. cbn [Z.eqb OP_LOAD OP_NOP OP_PUSH OP_POP
    OP_ADD OP_SUB OP_MUL OP_DIV OP_MOD OP_AND OP_OR OP_XOR OP_NOT OP_EQ OP_LT OP_GT OP_JMP
    OP_JMPIF Pos.eqb].
  rewrite Hstack. cbn [stack_pop].
  destruct (a >=? MEMORY_SIZE - 8) eqn:E; [reflexivity|].
  rewrite Z.geb_leb in E. apply Z.leb_gt in E. unfold MEMORY_SIZE in *. lia.
Qed.

(** STORE fails, and writes nothing, for every address from 4088 on. *)
Lemma store_confined {stale : Z} (c : contract_execution_context_t) (a b : Z) (s : vm_stack_t) :
  stack c = b :: a :: s -> a + 8 > MEMORY_SIZE ->
  execute_instruction stale c OP_STORE = Ret SGX_ERROR_CONTRACT_EXECUTION_FAILED (set_stack c s).
Proof.
  intros Hstack Ha. unfold execute_instruction. cbn [Z.eqb OP_STORE OP_LOAD OP_NOP OP_PUSH
    OP_POP OP_ADD OP_SUB OP_MUL OP_DIV OP_MOD OP_AND OP_OR OP_XOR OP_NOT OP_EQ OP_LT OP_GT
    OP_JMP OP_JMPIF Pos.eqb].
  rewrite Hstack. cbn [stack_pop].
  destruct (a >=? MEMORY_SIZE - 8) eqn:E; [reflexivity|].
  rewrite Z.geb_leb in E. apply Z.leb_gt in E. unfold MEMORY_SIZE in *. lia.
Qed.

(** HASH fails when address plus length exceed 4096, as long as their sum
    fits in 64 bits. *)
Lemma hash_confined_without_wrap {stale : Z} (c : contract_execution_context_t) (a b : Z)
  (s : vm_stack_t) :
  stack c = a :: b :: s -> 0 <= a -> 0 <= b -> b + a < U64.modulus ->
  b + a > MEMORY_SIZE ->
  execute_instruction stale c OP_HASH = Ret SGX_ERROR_CONTRACT_EXECUTION_FAILED (set_stack c s).
Proof.
  intros Hstack Ha Hb Hfit Hout. unfold execute_instruction. cbn [Z.eqb OP_HASH OP_STORE
    OP_LOAD OP_NOP OP_PUSH OP_POP OP_ADD OP_SUB OP_MUL OP_DIV OP_MOD OP_AND OP_OR OP_XOR
    OP_NOT OP_EQ OP_LT OP_GT OP_JMP OP_JMPIF Pos.eqb].
  rewrite Hstack. cbn [stack_pop].
  rewrite u64_small by (unfold in_range; lia).
  destruct (b + a >? MEMORY_SIZE) eqn:E; [reflexivity|].
  rewrite Z.gtb_ltb in E. apply Z.ltb_ge in E. lia.
Qed.

(** C7 at HASH with address 2^64 - 1 and length 2.  Address plus length is
    2^64 + 1, beyond 4096, but the sum the code tests wraps to 1: the
    instruction does not fail, it hashes two bytes from offset 2^64 - 1 of the
    scratch memory.  The program [hash_wrap] passes the validator and brings
    the VM there through the boundary call. *)
Theorem hash_wrap_reads_outside_memory {stale : Z} {stales : stale_values} :
  U64.max + 2 > MEMORY_SIZE
  /\ execute_instruction stale
       (mkContext hash_wrap (Some []) [] DEFAULT_GAS_LIMIT 6 18 CONTRACT_STATE_RUNNING
                  [2; U64.max] (repeat 0 (Z.to_nat MEMORY_SIZE)) (repeat 0 32))
       OP_HASH
     = OutOfBounds U64.max 2
  /\ validate_contract_code hash_wrap = SGX_SUCCESS
  /\ ecall_verify_contract_execution stales 4 true ready (Some hash_wrap) (Some [])
       (mkOutputs (repeat 0 64) 64 0)
     = Fault U64.max 2.
Proof.
  split; [unfold U64.max, MEMORY_SIZE; lia|].
  split; [vm_compute; reflexivity|].
  split; vm_compute; reflexivity.
Qed.

(** ** Terminal states (C8) *)

(** The single PUSH of [push_only] takes the last byte of the code, 0xFF, as
    part of its operand; the program counter then stands at the end of the
    code, and the call returns [SGX_SUCCESS] with the state still RUNNING. *)
Lemma push_only_ends_running :
  exists v c,
    validate_contract_code push_only = SGX_SUCCESS
    /\ execute_contract zeroed 1 ready (fresh_context push_only (Some []) DEFAULT_GAS_LIMIT)
       = Done (SGX_SUCCESS, v, c)
    /\ pc c = code_size c
    /\ state c = CONTRACT_STATE_RUNNING
    /\ ~ (state c = CONTRACT_STATE_COMPLETED \/ state c = CONTRACT_STATE_ERROR
          \/ state c = CONTRACT_STATE_OUT_OF_GAS).
Proof.
  eexists. eexists. split; [reflexivity|].
  split; [vm_compute; reflexivity|].
  split; [reflexivity|]. split; [reflexivity|].
  cbn. intros [H|[H|H]]; discriminate.
Qed.

(** A state of a run in which the VM is RUNNING is passed by the loop: what
    the loop does from there, it does from the start of the run. *)
Lemma reachable_run (c0 c : contract_execution_context_t) :
  reachable c0 c -> state c = CONTRACT_STATE_RUNNING ->
  forall (stales' : stale_values) (fuel' : nat)
         (r : run (sgx_status_t * contract_execution_context_t)),
    execute_loop stales' fuel' c = r ->
    exists stales fuel, execute_loop stales fuel c0 = r.
Proof.
  induction 1 as [|stale b c Hb IH Hcond Hit|stale b c ret Hb IH Hcond Hit];
    intros Hstate stales' fuel' r Hrun.
  - exists stales', fuel'. exact Hrun.
  - apply (IH ltac:(unfold loop_condition in Hcond; destruct (state b); congruence)
              (stale_cons stale stales') (S fuel')).
    cbn [execute_loop]. rewrite Hcond. cbn [stale_cons]. rewrite Hit. exact Hrun.
  - pose proof (loop_iteration_spec (stale := stale) b) as Hs. rewrite Hit in Hs. cbn in Hs.
    destruct Hs as (_ & [(_ & _ & ->)|[(_ & _ & _ & H & _)|(_ & _ & H & _)]]);
      cbn in Hstate; congruence.
Qed.

(** C8, as the code has it.  When the program counter of a run reaches or
    passes the end of the code and no HALT has run, the loop stops and
    [execute_contract] returns [SGX_SUCCESS] with the context as the loop left
    it: the state still RUNNING, no execution hash written.  A call of
    [execute_contract] that runs the code and returns leaves the state
    COMPLETED, ERROR, OUT_OF_GAS, or RUNNING with the program counter at or
    past the end of the code, the status [SGX_SUCCESS] and the hash field
    untouched. *)
Theorem terminal_states {stales : stale_values} (fuel : nat) (v v' : contract_verifier_t)
  (ctx c c' : contract_execution_context_t) (ret : sgx_status_t) :
  initialized v = true ->
  validate_contract_code (contract_code ctx) = SGX_SUCCESS ->
  (reachable (start ctx) c -> state c = CONTRACT_STATE_RUNNING -> code_size c <= pc c ->
   execute_loop stales fuel c = Done (SGX_SUCCESS, c)
   /\ execution_hash c = execution_hash ctx
   /\ exists stales0 fuel0,
        execute_contract stales0 fuel0 v ctx
        = Done (SGX_SUCCESS, mkVerifier true (u64 (execution_counter v + 1)), c))
  /\ (forall r c1, execute_loop stales fuel (start ctx) = Done (r, c1) ->
                   state c1 = CONTRACT_STATE_RUNNING ->
                   execute_contract stales fuel v ctx
                   = Done (SGX_SUCCESS, mkVerifier true (u64 (execution_counter v + 1)), c1))
  /\ (execute_contract stales fuel v ctx = Done (ret, v', c') ->
      state c' = CONTRACT_STATE_COMPLETED
      \/ state c' = CONTRACT_STATE_ERROR
      \/ state c' = CONTRACT_STATE_OUT_OF_GAS
      \/ (state c' = CONTRACT_STATE_RUNNING /\ code_size c' <= pc c' /\ ret = SGX_SUCCESS
          /\ execution_hash c' = execution_hash ctx)).
Proof.
  intros Hinit Hvalid.
  assert (Hcall : forall stales1 fuel1 r c1,
            execute_loop stales1 fuel1 (start ctx) = Done (r, c1) ->
            state c1 = CONTRACT_STATE_RUNNING ->
            r = SGX_SUCCESS
            /\ execute_contract stales1 fuel1 v ctx
               = Done (SGX_SUCCESS, mkVerifier true (u64 (execution_counter v + 1)), c1)).
  { intros stales1 fuel1 r c1 Hloop Hstate.
    assert (Hr : r = SGX_SUCCESS).
    { apply execute_loop_done in Hloop. destruct Hloop as [_ Hexit]. unfold exit_spec in Hexit.
      destruct Hexit as [[H _]|[[H _]|[[H _]|(_ & _ & H)]]]; congruence. }
    split; [exact Hr|]. subst r.
    unfold execute_contract. rewrite Hinit, Hvalid. cbn [negb]. rewrite Hloop, Hstate.
    reflexivity. }
  assert (Hhash : forall b, reachable (start ctx) b -> execution_hash b = execution_hash ctx).
  { intros b Hb. apply reachable_frame in Hb. unfold same_frame in Hb. cbn in Hb. tauto. }
  split; [|split].
  - intros Hreach Hstate Hpc.
    assert (Hcond : loop_condition c = false).
    { unfold loop_condition. rewrite Hstate. apply Z.ltb_ge. exact Hpc. }
    assert (Hstop : forall stales1 fuel1, execute_loop stales1 fuel1 c = Done (SGX_SUCCESS, c)).
    { intros stales1 fuel1. destruct fuel1; cbn [execute_loop]; rewrite Hcond; reflexivity. }
    split; [apply Hstop|]. split; [apply Hhash; exact Hreach|].
    destruct (reachable_run _ _ Hreach Hstate zeroed O _ (Hstop zeroed O))
      as (stales0 & fuel0 & Hloop).
    exists stales0, fuel0. exact (proj2 (Hcall _ _ _ _ Hloop Hstate)).
  - intros r c1 Hloop Hstate. exact (proj2 (Hcall _ _ _ _ Hloop Hstate)).
  - intros Hrun.
    destruct (execute_contract_done _ _ _ _ _ _ Hrun Hinit Hvalid) as (c1 & Hloop & -> & _).
    pose proof Hloop as Hdone. apply execute_loop_done in Hdone. destruct Hdone as [Hc1 Hexit].
    unfold exit_spec in Hexit.
    destruct Hexit as [[Hs _]|[[Hs _]|[[Hs _]|(Hs & Hcond & Hret)]]].
    + rewrite Hs. cbn. auto.
    + rewrite Hs. auto.
    + rewrite Hs. auto.
    + cbn in Hs. rewrite Hs. cbv iota. right. right. right.
      unfold loop_condition in Hcond. rewrite Hs in Hcond. apply Z.ltb_ge in Hcond.
      split; [exact Hs|]. split; [exact Hcond|]. split; [exact Hret|].
      apply Hhash. exact Hc1.
Qed.

Lemma terminal_states_witness :
  exists v c,
    execute_contract zeroed 1 ready (fresh_context push_only (Some []) DEFAULT_GAS_LIMIT)
    = Done (SGX_SUCCESS, v, c)
    /\ pc c = 9
    /\ (state c = CONTRACT_STATE_COMPLETED
        \/ state c = CONTRACT_STATE_ERROR
        \/ state c = CONTRACT_STATE_OUT_OF_GAS
        \/ (state c = CONTRACT_STATE_RUNNING /\ code_size c <= pc c
            /\ SGX_SUCCESS = SGX_SUCCESS
            /\ execution_hash c
               = execution_hash (fresh_context push_only (Some []) DEFAULT_GAS_LIMIT))).
Proof.
  eassert (Hrun : execute_contract zeroed 1 ready
                    (fresh_context push_only (Some []) DEFAULT_GAS_LIMIT)
                  = Done (SGX_SUCCESS, _, _)) by (vm_compute; reflexivity).
  eexists. eexists. split; [exact Hrun|]. split; [reflexivity|].
  apply (proj2 (proj2 (terminal_states 1 ready _
                         (fresh_context push_only (Some []) DEFAULT_GAS_LIMIT)
                         (fresh_context push_only (Some []) DEFAULT_GAS_LIMIT)
                         _ _ eq_refl eq_refl)) Hrun).
Defined.

(** ** The boundary call on failure (C9) *)

(** After the division by zero the host's cell for [gas_used] holds what it
    held before the call, not the 6 gas the run used. *)
Lemma failed_call_leaves_gas_cell :
  exists v c out,
    execute_contract zeroed 4 ready (ecall_context div_by_zero [])
    = Done (SGX_ERROR_CONTRACT_EXECUTION_FAILED, v, c)
    /\ state c = CONTRACT_STATE_ERROR
    /\ ecall_verify_contract_execution zeroed 4 true ready (Some div_by_zero) (Some []) host_cells
       = Done (SGX_ERROR_CONTRACT_EXECUTION_FAILED, v, out)
    /\ out_gas_used out = 12345
    /\ out_gas_used out <> gas_used c.
Proof.
  eexists. eexists. eexists. split; [vm_compute; reflexivity|].
  split; [reflexivity|]. split; [vm_compute; reflexivity|].
  split; [reflexivity|]. cbn. discriminate.
Qed.

(** A run that ends in ERROR or OUT_OF_GAS returns a failure status. *)
Lemma failed_state_status {stales : stale_values} (fuel : nat) (v v' : contract_verifier_t)
  (ctx c' : contract_execution_context_t) (ret : sgx_status_t) :
  execute_contract stales fuel v ctx = Done (ret, v', c') ->
  state ctx = CONTRACT_STATE_INIT ->
  state c' = CONTRACT_STATE_ERROR \/ state c' = CONTRACT_STATE_OUT_OF_GAS ->
  ret <> SGX_SUCCESS.
Proof.
  intros Hrun Hinit0 Hstate ->.
  destruct (execute_contract_success _ _ _ _ _ Hrun) as [Hinit Hvalid].
  destruct (execute_contract_done _ _ _ _ _ _ Hrun Hinit Hvalid) as (c1 & Hloop & -> & _).
  apply execute_loop_done in Hloop. destruct Hloop as [_ Hexit].
  unfold exit_spec in Hexit. cbn [start state] in Hexit.
  destruct Hexit as [[Hs _]|[[_ Hr]|[[_ Hr]|(Hs & _)]]];
    try congruence; rewrite Hs in Hstate; cbn in Hstate; rewrite ?Hs in Hstate;
      destruct Hstate; discriminate.
Qed.

(** C9, as the code has it.  When the run ends in ERROR or OUT_OF_GAS the
    boundary call returns the failure status of [execute_contract], without
    any write to the host's result buffer, result size or [gas_used]: the
    three are as they were before the call.  They are written when
    [execute_contract] returns [SGX_SUCCESS]. *)
Theorem ecall_failure_leaves_outputs {stales : stale_values}
  (fuel : nat) (v v' : contract_verifier_t)
  (code input : list Z) (c' : contract_execution_context_t) (ret : sgx_status_t)
  (out : host_outputs) :
  execute_contract stales fuel v (ecall_context code input) = Done (ret, v', c') ->
  (state c' = CONTRACT_STATE_ERROR \/ state c' = CONTRACT_STATE_OUT_OF_GAS ->
   ret <> SGX_SUCCESS
   /\ ecall_verify_contract_execution stales fuel true v (Some code) (Some input) out
      = Done (ret, v', out))
  /\ (ret = SGX_SUCCESS -> 0 <= out_result_size out ->
      ecall_verify_contract_execution stales fuel true v (Some code) (Some input) out
      = Done (SGX_SUCCESS, v', mkOutputs (execution_result out) 0 (gas_used c'))).
Proof.
  intros Hrun. split.
  - intros Hstate.
    assert (Hret : ret <> SGX_SUCCESS).
    { eapply failed_state_status; [exact Hrun | reflexivity | exact Hstate]. }
    split; [exact Hret|].
    unfold ecall_verify_contract_execution. cbn [negb]. rewrite Hrun.
    destruct ret; [contradiction | reflexivity ..].
  - intros -> Hsize.
    pose proof (execute_contract_output_empty _ _ _ _ _ Hrun) as Hres.
    unfold ecall_verify_contract_execution. cbn [negb]. rewrite Hrun.
    unfold result_size. rewrite Hres. cbn [length Z.of_nat].
    destruct (out_result_size out <? 0) eqn:E; [apply Z.ltb_lt in E; lia|].
    reflexivity.
Qed.

Lemma ecall_failure_leaves_outputs_witness :
  (exists v c,
     execute_contract zeroed 4 ready (ecall_context div_by_zero [])
     = Done (SGX_ERROR_CONTRACT_EXECUTION_FAILED, v, c)
     /\ (state c = CONTRACT_STATE_ERROR \/ state c = CONTRACT_STATE_OUT_OF_GAS)
     /\ ecall_verify_contract_execution zeroed 4 true ready (Some div_by_zero) (Some []) host_cells
        = Done (SGX_ERROR_CONTRACT_EXECUTION_FAILED, v, host_cells))
  /\ (exists v c,
        execute_contract zeroed 4 ready (ecall_context add_and_halt [])
        = Done (SGX_SUCCESS, v, c)
        /\ ecall_verify_contract_execution zeroed 4 true ready (Some add_and_halt) (Some [])
             host_cells
           = Done (SGX_SUCCESS, v, mkOutputs (execution_result host_cells) 0 9)).
Proof.
  split.
  - eassert (Hrun : execute_contract zeroed 4 ready (ecall_context div_by_zero [])
                    = Done (SGX_ERROR_CONTRACT_EXECUTION_FAILED, _, _))
      by (vm_compute; reflexivity).
    eexists. eexists. split; [exact Hrun|].
    split; [left; reflexivity|].
    apply (proj1 (ecall_failure_leaves_outputs _ _ _ _ _ _ _ host_cells Hrun)).
    left. reflexivity.
  - eassert (Hrun : execute_contract zeroed 4 ready (ecall_context add_and_halt [])
                    = Done (SGX_SUCCESS, _, _))
      by (vm_compute; reflexivity).
    eexists. eexists. split; [exact Hrun|].
    apply (proj2 (ecall_failure_leaves_outputs _ _ _ _ _ _ _ host_cells Hrun));
      [reflexivity | cbn; lia].
Defined.

(** ** The gas limit of the boundary call (C10) *)

(** C10.  The boundary call has no gas-limit input.  It runs
    [execute_contract] on the context it builds from the code and the input,
    whose gas limit is 1,000,000 whatever the host passes; every state of
    that run has that limit, with [gas_used] at most 1,000,000.  Status,
    verifier and outputs of the call are those of that one run: what the host
    puts in the result cells, the cell for the gas included, changes neither
    the run nor the status, nor the gas the call reports. *)
Theorem ecall_gas_limit_fixed {stales : stale_values} (fuel : nat)
  (g_verifier : contract_verifier_t) (code input : list Z) (out out' : host_outputs) :
  0 <= out_result_size out -> 0 <= out_result_size out' ->
  gas_limit (ecall_context code input) = DEFAULT_GAS_LIMIT
  /\ DEFAULT_GAS_LIMIT = 1000000
  /\ (forall c, reachable (start (ecall_context code input)) c ->
                gas_limit c = DEFAULT_GAS_LIMIT /\ 0 <= gas_used c <= DEFAULT_GAS_LIMIT)
  /\ ecall_verify_contract_execution stales fuel true g_verifier (Some code) (Some input) out
     = match execute_contract stales fuel g_verifier (ecall_context code input) with
       | Done (SGX_SUCCESS, verifier, c) =>
           Done (SGX_SUCCESS, verifier, mkOutputs (execution_result out) 0 (gas_used c))
       | Done (ret, verifier, _) => Done (ret, verifier, out)
       | OutOfFuel => OutOfFuel
       | Fault addr len => Fault addr len
       end
  /\ (forall ret verifier c,
        execute_contract stales fuel g_verifier (ecall_context code input)
        = Done (ret, verifier, c) ->
        gas_limit c = DEFAULT_GAS_LIMIT /\ 0 <= gas_used c <= DEFAULT_GAS_LIMIT)
  /\ (forall ret verifier o,
        ecall_verify_contract_execution stales fuel true g_verifier (Some code) (Some input) out
        = Done (ret, verifier, o) ->
        exists o',
          ecall_verify_contract_execution stales fuel true g_verifier (Some code) (Some input)
            out'
          = Done (ret, verifier, o')
          /\ (ret = SGX_SUCCESS -> out_gas_used o' = out_gas_used o)).
Proof.
  intros Hsize Hsize'.
  assert (Hreach : forall c, reachable (start (ecall_context code input)) c ->
             gas_limit c = DEFAULT_GAS_LIMIT /\ 0 <= gas_used c <= DEFAULT_GAS_LIMIT).
  { intros c Hc.
    pose proof (reachable_frame _ _ Hc) as Hframe.
    assert (Hlimit : gas_limit c = DEFAULT_GAS_LIMIT).
    { unfold same_frame in Hframe. cbn in Hframe. unfold DEFAULT_GAS_LIMIT. tauto. }
    split; [exact Hlimit|]. rewrite <- Hlimit.
    apply (reachable_gas_bounded (start (ecall_context code input)) c); [cbn; lia | exact Hc]. }
  assert (Hcall : forall o, 0 <= out_result_size o ->
            ecall_verify_contract_execution stales fuel true g_verifier (Some code)
              (Some input) o
            = match execute_contract stales fuel g_verifier (ecall_context code input) with
              | Done (SGX_SUCCESS, verifier, c) =>
                  Done (SGX_SUCCESS, verifier, mkOutputs (execution_result o) 0 (gas_used c))
              | Done (ret, verifier, _) => Done (ret, verifier, o)
              | OutOfFuel => OutOfFuel
              | Fault addr len => Fault addr len
              end).
  { intros o Ho. unfold ecall_verify_contract_execution. cbn [negb].
    destruct (execute_contract stales fuel g_verifier (ecall_context code input))
      as [[[ret verifier] c]| |] eqn:Hrun; try reflexivity.
    destruct ret; try reflexivity.
    pose proof (execute_contract_output_empty _ _ _ _ _ Hrun) as Hres.
    unfold result_size. rewrite Hres. cbn [length Z.of_nat].
    destruct (out_result_size o <? 0) eqn:E; [apply Z.ltb_lt in E; lia|].
    reflexivity. }
  split; [reflexivity|]. split; [reflexivity|]. split; [exact Hreach|].
  split; [apply Hcall; exact Hsize|]. split.
  - intros ret verifier c Hrun. unfold execute_contract in Hrun.
    destruct (initialized g_verifier); cbn [negb] in Hrun.
    2: { inversion Hrun; subst. cbn. unfold DEFAULT_GAS_LIMIT. lia. }
    destruct (validate_contract_code (contract_code (ecall_context code input)));
      try (inversion Hrun; subst; cbn; unfold DEFAULT_GAS_LIMIT; lia).
    destruct (execute_loop stales fuel (start (ecall_context code input)))
      as [[ret1 c1]| |] eqn:Hloop; try discriminate.
    inversion Hrun; subst. apply execute_loop_done in Hloop. destruct Hloop as [Hc1 _].
    destruct (Hreach _ Hc1) as [Hl Hu]. destruct (state c1); cbn; auto.
  - intros ret verifier o. rewrite (Hcall out Hsize), (Hcall out' Hsize').
    destruct (execute_contract stales fuel g_verifier (ecall_context code input))
      as [[[ret1 verifier1] c1]| |]; try discriminate.
    destruct ret1; intros H; inversion H; subst; eexists; split; try reflexivity;
      intros Hret; discriminate Hret.
Qed.

Lemma ecall_gas_limit_fixed_witness :
  exists v,
    ecall_verify_contract_execution zeroed 4 true ready (Some add_and_halt) (Some [])
      host_cells
    = Done (SGX_SUCCESS, v, mkOutputs (execution_result host_cells) 0 9)
    /\ exists o',
         ecall_verify_contract_execution zeroed 4 true ready (Some add_and_halt) (Some [])
           (mkOutputs (repeat 0 64) 64 (2 ^ 64 - 1))
         = Done (SGX_SUCCESS, v, o')
         /\ (SGX_SUCCESS = SGX_SUCCESS
             -> out_gas_used o' = out_gas_used (mkOutputs (execution_result host_cells) 0 9)).
Proof.
  eassert (Hcall : ecall_verify_contract_execution zeroed 4 true ready (Some add_and_halt)
                     (Some []) host_cells = Done (SGX_SUCCESS, _, _))
    by (vm_compute; reflexivity).
  eexists. split; [exact Hcall|].
  apply (proj2 (proj2 (proj2 (proj2 (proj2
           (ecall_gas_limit_fixed 4 ready add_and_halt [] host_cells
              (mkOutputs (repeat 0 64) 64 (2 ^ 64 - 1))
              ltac:(cbn; lia) ltac:(cbn; lia))))))
         _ _ _ Hcall).
Defined.

(** ** The key of a proof (C6) *)

Section ProofKey.

Context {world : Type} {platform : Platform world}.

(** The public key of a proof is the one of the key pair generated within
    the call that made the proof, after the call's timestamp and nonce; the
    call reads no key from the enclave's state. *)
Lemma proof_key_generated_in_call (execution_hash : list Z) (proof_size size' : Z)
  (w w' : world) (proof : execution_proof_t) :
  ecall_generate_execution_proof execution_hash proof_size w
  = (SGX_SUCCESS, Some proof, size', w') ->
  exists rnd w2 private_key w3,
    sgx_read_rand 16 (snd (ocall_get_timestamp w)) = (SGX_SUCCESS, rnd, w2)
    /\ generate_key_pair w2 = (SGX_SUCCESS, (private_key, public_key proof), w3).
Proof.
  unfold ecall_generate_execution_proof.
  destruct (ocall_get_timestamp w) as [ts w1]. cbn [snd].
  destruct (sgx_read_rand 16 w1) as [[r rnd] w2].
  destruct r; try discriminate.
  destruct (generate_key_pair w2) as [[r [private_key pub]] w3] eqn:Hkey.
  destruct r; try discriminate.
  cbn [proof_execution_hash timestamp nonce public_key signature].
  destruct (sgx_ecdsa_sign _ private_key w3) as [[r sig] w4].
  destruct r; try discriminate.
  destruct (proof_size <? sizeof_execution_proof_t); try discriminate.
  intros H. inversion H; subst. cbn [public_key].
  exists rnd, w2, private_key, w3. auto.
Qed.

End ProofKey.

(** C6 on the deterministic platform.  Two calls of the proof generation, one
    after the other and for the same execution hash, both succeed, and the
    two proofs carry different public keys: each call generates a key pair of
    its own. *)
Theorem proofs_carry_distinct_keys :
  exists p1 p2 w1 w2,
    ecall_generate_execution_proof (platform := stub_platform)
      (Sha256.sha256 []) sizeof_execution_proof_t 0
    = (SGX_SUCCESS, Some p1, sizeof_execution_proof_t, w1)
    /\ ecall_generate_execution_proof (platform := stub_platform)
         (Sha256.sha256 []) sizeof_execution_proof_t w1
       = (SGX_SUCCESS, Some p2, sizeof_execution_proof_t, w2)
    /\ public_key p1 <> public_key p2.
Proof.
  eexists. eexists. eexists. eexists.
  split; [vm_compute; reflexivity|].
  split; [vm_compute; reflexivity|].
  vm_compute. discriminate.
Qed.

(** * Further properties of the code *)

(** ** The validator, exactly *)

Lemma known_opcode_In (b : Z) : known_opcode b = true <-> In b validator_case_labels.
Proof.
  unfold known_opcode. rewrite existsb_exists. split.
  - intros (x & Hx & Heq). apply Z.eqb_eq in Heq. subst. exact Hx.
  - intros Hb. exists b. split; [exact Hb | apply Z.eqb_refl].
Qed.

(** X1.  [validate_contract_code] accepts exactly the codes of 1 byte to 1 MiB
    in which every byte, the operand bytes among them, is one of the 24
    values of the opcode enumeration and the last byte is 0xFF; any other
    code gets [SGX_ERROR_CONTRACT_INVALID].  No operand is ever skipped. *)
Theorem validator_criterion (code : list Z) :
  (validate_contract_code code = SGX_SUCCESS <->
   (0 < Z.of_nat (length code) <= MAX_CONTRACT_SIZE
    /\ Forall (fun b => In b validator_case_labels) code
    /\ byte_at code (Z.of_nat (length code) - 1) = OP_HALT))
  /\ (validate_contract_code code = SGX_SUCCESS
      \/ validate_contract_code code = SGX_ERROR_CONTRACT_INVALID).
Proof.
  split.
  - rewrite validate_contract_code_iff, forallb_forall, Forall_forall.
    split; intros (Hsize & Hall & Hlast); repeat split; try tauto;
      intros b Hb; apply known_opcode_In; auto.
  - unfold validate_contract_code.
    destruct (Z.of_nat (length code) =? 0); [auto|].
    destruct (Z.of_nat (length code) >? MAX_CONTRACT_SIZE) eqn:E; cbn [orb]; [auto|].
    rewrite Z.gtb_ltb in E. apply Z.ltb_ge in E.
    rewrite validate_scan_total by exact E.
    destruct (forallb known_opcode code); [|auto].
    destruct (negb (byte_at code (Z.of_nat (length code) - 1) =? OP_HALT)); auto.
Qed.

(** ** Gas *)

(** X2.  In every state of a run of [execute_contract], for every gas limit,
    [gas_used] lies between 0 and [gas_limit], and [gas_limit] is the one the
    caller set. *)
Theorem gas_never_exceeds_limit (ctx c : contract_execution_context_t) :
  0 <= gas_limit ctx ->
  reachable (start ctx) c ->
  0 <= gas_used c <= gas_limit c /\ gas_limit c = gas_limit ctx.
Proof.
  intros Hlimit Hreach.
  assert (Hl : gas_limit c = gas_limit ctx).
  { apply reachable_frame in Hreach. unfold same_frame in Hreach. cbn in Hreach. tauto. }
  split; [|exact Hl].
  apply (reachable_gas_bounded (start ctx) c); [cbn; lia | exact Hreach].
Qed.

Lemma gas_never_exceeds_limit_witness :
  exists c,
    reachable (start (fresh_context add_and_halt (Some []) 7)) c
    /\ pc c = 18
    /\ (0 <= gas_used c <= gas_limit c /\ gas_limit c = 7).
Proof.
  eassert (H1 : loop_iteration 0 (start (fresh_context add_and_halt (Some []) 7)) = Continue _)
    by (vm_compute; reflexivity).
  eassert (H2 : loop_iteration 0 _ = Continue _).
  { match type of H1 with _ = Continue ?c1 =>
      instantiate (2 := c1); vm_compute; reflexivity end. }
  eassert (Hreach : reachable (start (fresh_context add_and_halt (Some []) 7)) _).
  { eapply reach_continue; [eapply reach_continue; [apply reach_start | reflexivity | exact H1]
                           | reflexivity | exact H2]. }
  eexists. split; [exact Hreach|]. split; [reflexivity|].
  apply (gas_never_exceeds_limit (fresh_context add_and_halt (Some []) 7) _);
    [cbn; lia | exact Hreach].
Defined.

(** X3.  Under a gas limit of at most 2^64 - 6, a turn of the loop in a state
    of a run ends the run in OUT_OF_GAS exactly when the cost of the opcode at
    the program counter exceeds the gas that is left; the status is then
    [SGX_ERROR_INSUFFICIENT_GAS], and [gas_used] and the program counter are
    as before the turn. *)
Theorem out_of_gas_exactly_when_short {stale : Z} (ctx c : contract_execution_context_t) :
  0 <= gas_limit ctx <= U64.max - 5 ->
  reachable (start ctx) c ->
  ((exists ret c', loop_iteration stale c = Break ret c' /\ state c' = CONTRACT_STATE_OUT_OF_GAS)
   <-> gas_limit c - gas_used c < get_opcode_gas_cost (next_opcode c))
  /\ (forall ret c', loop_iteration stale c = Break ret c' ->
                     state c' = CONTRACT_STATE_OUT_OF_GAS ->
                     ret = SGX_ERROR_INSUFFICIENT_GAS
                     /\ gas_used c' = gas_used c /\ pc c' = pc c).
Proof.
  intros Hlimit Hreach.
  assert (Hused : 0 <= gas_used c <= gas_limit c).
  { apply (reachable_gas_bounded (start ctx) c); [cbn; lia | exact Hreach]. }
  assert (Hl : gas_limit c = gas_limit ctx).
  { pose proof (reachable_frame _ _ Hreach) as Hf. unfold same_frame in Hf. cbn in Hf. tauto. }
  pose proof (get_opcode_gas_cost_range (next_opcode c)) as Hcost.
  assert (Hcheck : check_gas c (get_opcode_gas_cost (next_opcode c))
                   = (get_opcode_gas_cost (next_opcode c) <=? gas_limit c - gas_used c)).
  { apply check_gas_exact; [exact Hused | exact Hcost | lia]. }
  pose proof (loop_iteration_spec (stale := stale) c) as Hs.
  split; [split|].
  - intros (ret & c' & Hit & Hoog). rewrite Hit in Hs. cbn in Hs.
    destruct Hs as (_ & [(Hgas & _)|[(_ & _ & _ & H & _)|(_ & _ & H & _)]]);
      try congruence.
    rewrite Hcheck in Hgas. apply Z.leb_gt in Hgas. exact Hgas.
  - intros Hlt.
    assert (Hgas : check_gas c (get_opcode_gas_cost (next_opcode c)) = false).
    { rewrite Hcheck. apply Z.leb_gt. exact Hlt. }
    unfold loop_iteration. fold (next_opcode c). rewrite Hgas. cbn [negb].
    eexists. eexists. split; reflexivity.
  - intros ret c' Hit Hoog. rewrite Hit in Hs. cbn in Hs.
    destruct Hs as (_ & [(_ & -> & ->)|[(_ & _ & _ & H & _)|(_ & _ & H & _)]]);
      try congruence.
    cbn. auto.
Qed.

Lemma out_of_gas_exactly_when_short_witness :
  exists ret c',
    loop_iteration 0 (start (fresh_context add_and_halt (Some []) 2)) = Break ret c'
    /\ state c' = CONTRACT_STATE_OUT_OF_GAS.
Proof.
  apply (proj1 (out_of_gas_exactly_when_short
                  (fresh_context add_and_halt (Some []) 2)
                  (start (fresh_context add_and_halt (Some []) 2))
                  ltac:(cbn; unfold U64.max; lia) (reach_start _))).
  vm_compute. reflexivity.
Defined.

(** ** What [execute_contract] leaves behind *)

(** X4.  A call of [execute_contract] that does not run the code, because the
    verifier is not initialized or the validator rejects the code, returns a
    failure status and leaves the verifier's counter and the whole context as
    they were.  A call that runs the code advances the counter by one whatever
    the run ends in, and leaves code, input and gas limit as they were. *)
Theorem execute_contract_bookkeeping {stales : stale_values}
  (fuel : nat) (v v' : contract_verifier_t)
  (ctx c' : contract_execution_context_t) (ret : sgx_status_t) :
  execute_contract stales fuel v ctx = Done (ret, v', c') ->
  (initialized v = false \/ validate_contract_code (contract_code ctx) <> SGX_SUCCESS ->
   ret <> SGX_SUCCESS /\ v' = v /\ c' = ctx)
  /\ (initialized v = true /\ validate_contract_code (contract_code ctx) = SGX_SUCCESS ->
      execution_counter v' = u64 (execution_counter v + 1)
      /\ initialized v' = true
      /\ contract_code c' = contract_code ctx
      /\ input_data c' = input_data ctx
      /\ gas_limit c' = gas_limit ctx).
Proof.
  intros Hrun. split.
  - intros Hnot. unfold execute_contract in Hrun.
    destruct (initialized v) eqn:Hinit; cbn [negb] in Hrun.
    + destruct Hnot as [Hnot|Hnot]; [discriminate|].
      destruct (validate_contract_code (contract_code ctx)) eqn:Hv;
        try (inversion Hrun; subst; repeat split; discriminate).
      contradiction.
    + inversion Hrun; subst. repeat split; discriminate.
  - intros [Hinit Hvalid].
    destruct (execute_contract_done _ _ _ _ _ _ Hrun Hinit Hvalid) as (c1 & Hloop & -> & ->).
    apply execute_loop_done in Hloop. destruct Hloop as [Hreach _].
    apply reachable_frame in Hreach. unfold same_frame in Hreach. cbn in Hreach.
    destruct Hreach as (Hcode & Hinput & _ & Hlimit & _).
    cbn. rewrite Hinit. destruct (state c1); cbn; auto.
Qed.

Lemma execute_contract_bookkeeping_witness :
  (exists c,
     execute_contract zeroed 4 ready (fresh_context [OP_PUSH; 0x64; OP_HALT] (Some []) 100)
     = Done (SGX_ERROR_CONTRACT_INVALID, ready, c)
     /\ c = fresh_context [OP_PUSH; 0x64; OP_HALT] (Some []) 100)
  /\ (exists v c,
        execute_contract zeroed 4 ready (fresh_context div_by_zero (Some []) 100)
        = Done (SGX_ERROR_CONTRACT_EXECUTION_FAILED, v, c)
        /\ execution_counter v = 1).
Proof.
  split.
  - eassert (Hrun : execute_contract zeroed 4 ready
                      (fresh_context [OP_PUSH; 0x64; OP_HALT] (Some []) 100)
                    = Done (SGX_ERROR_CONTRACT_INVALID, _, _)) by (vm_compute; reflexivity).
    eexists. split; [exact Hrun|].
    apply (proj1 (execute_contract_bookkeeping _ _ _ _ _ _ Hrun)).
    right. vm_compute. discriminate.
  - eassert (Hrun : execute_contract zeroed 4 ready (fresh_context div_by_zero (Some []) 100)
                    = Done (SGX_ERROR_CONTRACT_EXECUTION_FAILED, _, _))
      by (vm_compute; reflexivity).
    eexists. eexists. split; [exact Hrun|].
    rewrite (proj1 (proj2 (execute_contract_bookkeeping _ _ _ _ _ _ Hrun)
                      (conj eq_refl eq_refl))).
    reflexivity.
Defined.

(** X5.  [execute_contract] writes the execution hash only when the run ends
    COMPLETED: after any other call the hash field holds what it held before,
    and after a completed run it is the digest [compute_execution_hash] gives
    for the final context. *)
Theorem execution_hash_only_when_completed {stales : stale_values}
  (fuel : nat) (v v' : contract_verifier_t)
  (ctx c' : contract_execution_context_t) (ret : sgx_status_t) :
  execute_contract stales fuel v ctx = Done (ret, v', c') ->
  (state c' <> CONTRACT_STATE_COMPLETED -> execution_hash c' = execution_hash ctx)
  /\ (state c' = CONTRACT_STATE_COMPLETED -> ret = SGX_SUCCESS ->
      execution_hash c' = compute_execution_hash c').
Proof.
  intros Hrun.
  assert (Hcases : (ret <> SGX_SUCCESS /\ c' = ctx)
                   \/ exists c1, reachable (start ctx) c1
                                 /\ c' = match state c1 with
                                         | CONTRACT_STATE_COMPLETED =>
                                             set_execution_hash c1 (compute_execution_hash c1)
                                         | _ => c1
                                         end).
  { unfold execute_contract in Hrun.
    destruct (initialized v); cbn [negb] in Hrun.
    2: { left. inversion Hrun; subst. split; [discriminate | reflexivity]. }
    destruct (validate_contract_code (contract_code ctx));
      try (left; inversion Hrun; subst; split; [discriminate | reflexivity]).
    destruct (execute_loop stales fuel (start ctx)) as [[ret1 c1]| |] eqn:Hloop; try discriminate.
    inversion Hrun; subst. right. exists c1. split; [|reflexivity].
    apply execute_loop_done in Hloop. tauto. }
  split.
  - intros Hstate. destruct Hcases as [[_ ->]|(c1 & Hreach & ->)]; [reflexivity|].
    apply reachable_frame in Hreach. unfold same_frame in Hreach. cbn in Hreach.
    destruct (state c1) eqn:Hs; cbn in *; try tauto;
      try (rewrite Hs in Hstate; contradiction).
  - intros Hstate Hret. destruct Hcases as [[Hne _]|(c1 & Hreach & ->)]; [contradiction|].
    destruct (state c1) eqn:Hs; try (rewrite Hs in Hstate; discriminate).
    cbn [execution_hash set_execution_hash].
    rewrite !compute_execution_hash_eq. reflexivity.
Qed.

Lemma execution_hash_only_when_completed_witness :
  exists v c,
    execute_contract zeroed 4 ready (ecall_context div_by_zero [])
    = Done (SGX_ERROR_CONTRACT_EXECUTION_FAILED, v, c)
    /\ execution_hash c = repeat 0 32.
Proof.
  eassert (Hrun : execute_contract zeroed 4 ready (ecall_context div_by_zero [])
                  = Done (SGX_ERROR_CONTRACT_EXECUTION_FAILED, _, _))
    by (vm_compute; reflexivity).
  eexists. eexists. split; [exact Hrun|].
  rewrite (proj1 (execution_hash_only_when_completed _ _ _ _ _ _ Hrun)).
  - reflexivity.
  - cbn. discriminate.
Defined.

(** ** The machine state stays well-formed *)

Lemma le_bytes_length (n : nat) (x : Z) : length (le_bytes n x) = n.
Proof. revert x. induction n as [|n IH]; intros x; cbn; [reflexivity | now rewrite IH]. Qed.

Lemma le_bytes_are_bytes (n : nat) (x : Z) : Forall is_byte (le_bytes n x).
Proof.
  revert x. induction n as [|n IH]; intros x; cbn; constructor; [|apply IH].
  unfold is_byte. apply Z.mod_pos_bound. lia.
Qed.

Lemma le_value_range (bs : list Z) :
  Forall is_byte bs -> 0 <= le_value bs < 256 ^ Z.of_nat (length bs).
Proof.
  induction 1 as [|b bs Hb Hbs IH]; [cbn; lia|].
  cbn [le_value length]. rewrite Nat2Z.inj_succ, Z.pow_succ_r by lia.
  unfold is_byte in Hb. lia.
Qed.

Lemma le_value_le_bytes (n : nat) (x : Z) :
  0 <= x < 256 ^ Z.of_nat n -> le_value (le_bytes n x) = x.
Proof.
  revert x. induction n as [|n IH]; intros x Hx.
  - cbn in *. lia.
  - cbn [le_bytes le_value]. rewrite Nat2Z.inj_succ, Z.pow_succ_r in Hx by lia.
    rewrite IH.
    + pose proof (Z.div_mod x 256 ltac:(lia)). lia.
    + split; [apply Z.div_pos; lia | apply Z.div_lt_upper_bound; lia].
Qed.

Lemma In_firstn (n : nat) (l : list Z) (x : Z) : In x (firstn n l) -> In x l.
Proof. intros H. rewrite <- (firstn_skipn n l). apply in_or_app. left. exact H. Qed.

Lemma In_skipn (n : nat) (l : list Z) (x : Z) : In x (skipn n l) -> In x l.
Proof. intros H. rewrite <- (firstn_skipn n l). apply in_or_app. right. exact H. Qed.

Lemma slice_are_bytes (buf : list Z) (off len : Z) :
  Forall is_byte buf -> Forall is_byte (slice buf off len).
Proof.
  intros H. unfold slice. rewrite Forall_forall in *. intros b Hb.
  apply H. eapply In_skipn. eapply In_firstn. exact Hb.
Qed.

Lemma slice_length_le (buf : list Z) (off len : Z) :
  (length (slice buf off len) <= Z.to_nat len)%nat.
Proof. unfold slice. apply firstn_le_length. Qed.

Lemma slice_8_length (buf : list Z) (off : Z) : (length (slice buf off 8) <= 8)%nat.
Proof. exact (slice_length_le buf off 8). Qed.

(** Up to eight bytes, read as a little-endian integer, fit in 64 bits. *)
Lemma le_value_in_range (bs : list Z) :
  Forall is_byte bs -> (length bs <= 8)%nat -> in_range (le_value bs).
Proof.
  intros Hb Hlen. pose proof (le_value_range bs Hb) as H.
  assert (256 ^ Z.of_nat (length bs) <= 256 ^ 8) by (apply Z.pow_le_mono_r; lia).
  unfold in_range, modulus. change (2 ^ 64) with (256 ^ 8). lia.
Qed.

Lemma in_range_high_bits (x n : Z) : in_range x -> 64 <= n -> Z.testbit x n = false.
Proof.
  intros Hx Hn. rewrite <- (u64_small x Hx). unfold u64, modulus.
  apply Z.mod_pow2_bits_high. lia.
Qed.

Lemma bitwise_in_range (f : Z -> Z -> Z) (g : bool -> bool -> bool) (a b : Z) :
  (forall n, 0 <= n -> Z.testbit (f a b) n = g (Z.testbit a n) (Z.testbit b n)) ->
  g false false = false ->
  in_range a -> in_range b -> in_range (f a b).
Proof.
  intros Hbits Hg Ha Hb.
  assert (Heq : f a b mod 2 ^ 64 = f a b).
  { apply Z.bits_inj'. intros n Hn. destruct (Z.lt_ge_cases n 64) as [Hlt|Hge].
    - apply Z.mod_pow2_bits_low. lia.
    - rewrite Z.mod_pow2_bits_high by lia. rewrite Hbits by exact Hn.
      rewrite (in_range_high_bits a n Ha Hge), (in_range_high_bits b n Hb Hge), Hg.
      reflexivity. }
  rewrite <- Heq. apply u64_range.
Qed.

Lemma land_in_range (a b : Z) : in_range a -> in_range b -> in_range (Z.land a b).
Proof. apply (bitwise_in_range Z.land andb); [intros; apply Z.land_spec | reflexivity]. Qed.

Lemma lor_in_range (a b : Z) : in_range a -> in_range b -> in_range (Z.lor a b).
Proof. apply (bitwise_in_range Z.lor orb); [intros; apply Z.lor_spec | reflexivity]. Qed.

Lemma lxor_in_range (a b : Z) : in_range a -> in_range b -> in_range (Z.lxor a b).
Proof. apply (bitwise_in_range Z.lxor xorb); [intros; apply Z.lxor_spec | reflexivity]. Qed.

Lemma bool_to_u64_in_range (b : bool) : in_range (bool_to_u64 b).
Proof. destruct b; unfold in_range, modulus; cbn; lia. Qed.

Lemma sha256_are_bytes (msg : list Z) : Forall is_byte (Sha256.sha256 msg).
Proof.
  unfold Sha256.sha256. rewrite Forall_forall. intros b Hb.
  apply in_flat_map in Hb. destruct Hb as (x & _ & Hb). cbn in Hb.
  unfold is_byte. repeat (destruct Hb as [<-|Hb]; [apply Z.mod_pos_bound; lia|]).
  contradiction.
Qed.

Lemma stack_push_wf (s : vm_stack_t) (v : Z) :
  wf_stack s -> in_range v -> wf_stack (snd (stack_push s v)).
Proof.
  intros [Hlen Hall] Hv. unfold stack_push, stack_is_full.
  destruct (Z.of_nat (length s) >=? STACK_SLOTS) eqn:E; cbn [snd]; [split; assumption|].
  rewrite Z.geb_leb in E. apply Z.leb_gt in E.
  split; [cbn [length]; lia | constructor; assumption].
Qed.

Lemma wf_stack_tail (v : Z) (s : vm_stack_t) :
  wf_stack (v :: s) -> in_range v /\ wf_stack s.
Proof.
  intros [Hlen Hall]. inversion Hall; subst. cbn [length] in Hlen.
  split; [assumption|]. split; [lia | assumption].
Qed.

Lemma wf_stack_nil : wf_stack [].
Proof. split; [cbn; unfold STACK_SLOTS; lia | constructor]. Qed.

Lemma push_result_wf (c : contract_execution_context_t) (s : vm_stack_t) (v : Z) :
  wf_stack s -> wf_memory (memory c) -> in_range v ->
  outcome_wf (let '(ret, s') := stack_push s v in Ret ret (set_stack c s')).
Proof.
  intros Hs Hm Hv. pose proof (stack_push_wf s v Hs Hv) as H.
  destruct (stack_push s v) as [ret s']. cbn in *. split; assumption.
Qed.

Lemma binary_op_wf (f : Z -> Z -> Z) (c : contract_execution_context_t) :
  (forall a b, in_range a -> in_range b -> in_range (f a b)) ->
  wf_vm c -> outcome_wf (binary_op f c).
Proof.
  intros Hf [Hs Hm]. unfold binary_op, stack_pop.
  destruct (stack c) as [|b [|a s]] eqn:Hstack.
  - cbn. unfold wf_vm. rewrite Hstack. split; assumption.
  - cbn. split; [apply wf_stack_nil | exact Hm].
  - apply wf_stack_tail in Hs. destruct Hs as [Hb Hs].
    apply wf_stack_tail in Hs. destruct Hs as [Ha Hs].
    apply push_result_wf; auto.
Qed.

Lemma division_op_wf (f : Z -> Z -> Z) (c : contract_execution_context_t) :
  (forall a b, in_range a -> in_range b -> b <> 0 -> in_range (f a b)) ->
  wf_vm c -> outcome_wf (division_op f c).
Proof.
  intros Hf [Hs Hm]. unfold division_op, stack_pop.
  destruct (stack c) as [|b s1] eqn:Hstack.
  - cbn. unfold wf_vm. rewrite Hstack. split; assumption.
  - apply wf_stack_tail in Hs. destruct Hs as [Hb Hs].
    destruct (b =? 0) eqn:Eb; [cbn; split; assumption|].
    apply Z.eqb_neq in Eb.
    destruct s1 as [|a s].
    + cbn. split; assumption.
    + apply wf_stack_tail in Hs. destruct Hs as [Ha Hs].
      apply push_result_wf; auto.
Qed.

Lemma jump_wf {stale : Z}
  (c : contract_execution_context_t) : wf_vm c -> outcome_wf (jump stale c).
Proof.
  intros H. unfold jump.
  destruct (u64 (pc c + 4) >=? code_size c); [exact H|].
  destruct (_ >=? code_size c); exact H.
Qed.

Lemma div_in_range (a b : Z) : in_range a -> in_range b -> b <> 0 -> in_range (a / b).
Proof.
  unfold in_range. intros Ha Hb Hne. split.
  - apply Z.div_pos; lia.
  - apply Z.div_lt_upper_bound; [lia|]. nia.
Qed.

Lemma mod_in_range (a b : Z) : in_range a -> in_range b -> b <> 0 -> in_range (a mod b).
Proof.
  unfold in_range. intros Ha Hb Hne.
  pose proof (Z.mod_pos_bound a b ltac:(lia)). lia.
Qed.

Lemma splice_length (buf data : list Z) (off : Z) :
  (Z.to_nat off + length data <= length buf)%nat ->
  length (splice buf off data) = length buf.
Proof.
  intros H. unfold splice. rewrite !length_app, length_firstn, length_skipn. lia.
Qed.

Lemma splice_are_bytes (buf data : list Z) (off : Z) :
  Forall is_byte buf -> Forall is_byte data -> Forall is_byte (splice buf off data).
Proof.
  intros Hb Hd. unfold splice. rewrite !Forall_app. repeat split; [|exact Hd|].
  - rewrite Forall_forall in *. intros x Hx. apply Hb. eapply In_firstn. exact Hx.
  - rewrite Forall_forall in *. intros x Hx. apply Hb. eapply In_skipn. exact Hx.
Qed.

Lemma firstn_are_bytes (n : nat) (l : list Z) : Forall is_byte l -> Forall is_byte (firstn n l).
Proof.
  intros H. rewrite Forall_forall in *. intros x Hx. apply H. eapply In_firstn. exact Hx.
Qed.

Lemma store_fits (a : Z) (n : nat) :
  0 <= a -> a < MEMORY_SIZE - 8 -> Z.of_nat n = MEMORY_SIZE -> (Z.to_nat a + 8 <= n)%nat.
Proof. unfold MEMORY_SIZE. lia. Qed.

Ltac op_case :=
  match goal with
  | |- outcome_wf (if ?b then _ else _) => destruct b eqn:?
  end.

(** Every instruction takes a well-formed state to a well-formed state. *)
Lemma execute_instruction_wf {stale : Z} (c : contract_execution_context_t) (opcode : Z) :
  Forall is_byte (contract_code c) -> wf_vm c ->
  outcome_wf (execute_instruction stale c opcode).
Proof.
  intros Hcode Hwf. pose proof Hwf as [Hs Hm]. unfold execute_instruction.
  op_case; [exact Hwf|].
  op_case.
  { op_case; [exact Hwf|].
    pose proof (stack_push_wf (stack c)
                  (le_value (slice (contract_code c) (pc c + 1) 8)) Hs
                  (le_value_in_range _ (slice_are_bytes _ _ _ Hcode)
                     (slice_8_length _ _))) as Hp.
    destruct (stack_push (stack c) _) as [ret s]. cbn in *. split; assumption. }
  op_case.
  { unfold stack_pop. destruct (stack c) as [|v s] eqn:Hst.
    - cbn. split; [apply wf_stack_nil | exact Hm].
    - cbn. apply wf_stack_tail in Hs. split; tauto. }
  op_case; [apply binary_op_wf; [intros; apply u64_range | exact Hwf]|].
  op_case; [apply binary_op_wf; [intros; apply u64_range | exact Hwf]|].
  op_case; [apply binary_op_wf; [intros; apply u64_range | exact Hwf]|].
  op_case; [apply division_op_wf; [apply div_in_range | exact Hwf]|].
  op_case; [apply division_op_wf; [apply mod_in_range | exact Hwf]|].
  op_case; [apply binary_op_wf; [apply land_in_range | exact Hwf]|].
  op_case; [apply binary_op_wf; [apply lor_in_range | exact Hwf]|].
  op_case; [apply binary_op_wf; [apply lxor_in_range | exact Hwf]|].
  op_case.
  { unfold stack_pop. destruct (stack c) as [|a s] eqn:Hst.
    - cbn. exact Hwf.
    - apply wf_stack_tail in Hs. apply push_result_wf; [tauto | exact Hm | apply u64_range]. }
  op_case; [apply binary_op_wf; [intros; apply bool_to_u64_in_range | exact Hwf]|].
  op_case; [apply binary_op_wf; [intros; apply bool_to_u64_in_range | exact Hwf]|].
  op_case; [apply binary_op_wf; [intros; apply bool_to_u64_in_range | exact Hwf]|].
  op_case; [apply jump_wf; exact Hwf|].
  op_case.
  { unfold stack_pop. destruct (stack c) as [|a s] eqn:Hst.
    - cbn. exact Hwf.
    - apply wf_stack_tail in Hs.
      destruct (negb (a =? 0)).
      + apply jump_wf. split; cbn; tauto.
      + cbn. split; tauto. }
  op_case.
  { unfold stack_pop. destruct (stack c) as [|a s] eqn:Hst.
    - cbn. exact Hwf.
    - apply wf_stack_tail in Hs.
      destruct (a >=? MEMORY_SIZE - 8); [cbn; split; tauto|].
      apply push_result_wf; [tauto | exact Hm |].
      apply le_value_in_range; [apply slice_are_bytes; apply Hm | apply slice_8_length]. }
  op_case.
  { unfold stack_pop. destruct (stack c) as [|b [|a s]] eqn:Hst.
    - cbn. exact Hwf.
    - cbn. split; [apply wf_stack_nil | exact Hm].
    - apply wf_stack_tail in Hs. destruct Hs as [Hb Hs].
      apply wf_stack_tail in Hs. destruct Hs as [Ha Hs].
      destruct (a >=? MEMORY_SIZE - 8) eqn:Ea; [cbn; split; tauto|].
      rewrite Z.geb_leb in Ea. apply Z.leb_gt in Ea.
      unfold outcome_wf, wf_vm. cbn [stack memory set_stack set_memory].
      split; [exact Hs|]. destruct Hm as [Hlen Hbytes]. split.
      + rewrite splice_length; [exact Hlen|].
        rewrite le_bytes_length. apply store_fits; [apply Ha | exact Ea | exact Hlen].
      + apply splice_are_bytes; [exact Hbytes | apply le_bytes_are_bytes]. }
  op_case.
  { unfold stack_pop. destruct (stack c) as [|a [|b s]] eqn:Hst.
    - cbn. exact Hwf.
    - cbn. split; [apply wf_stack_nil | exact Hm].
    - apply wf_stack_tail in Hs. destruct Hs as [Ha Hs].
      apply wf_stack_tail in Hs. destruct Hs as [Hb Hs].
      destruct (u64 (b + a) >? MEMORY_SIZE); [cbn; split; tauto|].
      destruct ((a mod 2 ^ 32 =? 0) || (b + a mod 2 ^ 32 <=? MEMORY_SIZE)); [|exact I].
      apply push_result_wf; [exact Hs | exact Hm |].
      apply le_value_in_range;
        [apply firstn_are_bytes; apply sha256_are_bytes | apply firstn_le_length]. }
  op_case.
  { unfold stack_pop. destruct (stack c) as [|a s] eqn:Hst.
    - cbn. exact Hwf.
    - apply wf_stack_tail in Hs. apply push_result_wf; [tauto | exact Hm |].
      unfold in_range, modulus. lia. }
  op_case; exact Hwf.
Qed.

Lemma start_wf (ctx : contract_execution_context_t) : wf_vm (start ctx).
Proof.
  split; [apply wf_stack_nil|]. cbn. split.
  - rewrite repeat_length. unfold MEMORY_SIZE. lia.
  - apply Forall_forall. intros x Hx. apply repeat_spec in Hx. subst. unfold is_byte. lia.
Qed.

(** X6.  In every state of a run on a code made of bytes, the stack has at
    most 256 entries, each a 64-bit value, and the scratch memory is 4096
    bytes: no instruction overflows the stack array or resizes the memory. *)
Theorem vm_state_well_formed (ctx c : contract_execution_context_t) :
  Forall is_byte (contract_code ctx) ->
  reachable (start ctx) c ->
  Z.of_nat (length (stack c)) <= 256
  /\ Forall in_range (stack c)
  /\ Z.of_nat (length (memory c)) = 4096
  /\ Forall is_byte (memory c).
Proof.
  intros Hcode Hreach.
  assert (Hwf : wf_vm c).
  { induction Hreach as [|stale c c' H IH Hcond Hit|stale c c' ret H IH Hcond Hit].
    - apply start_wf.
    - assert (Hc : Forall is_byte (contract_code c)).
      { apply reachable_frame in H. unfold same_frame in H. cbn in H.
        destruct H as (-> & _). exact Hcode. }
      pose proof (execute_instruction_wf (stale := stale) c (next_opcode c) Hc IH) as Hw.
      unfold loop_iteration in Hit. fold (next_opcode c) in Hit.
      destruct (negb (check_gas c (get_opcode_gas_cost (next_opcode c)))); [discriminate|].
      destruct (execute_instruction stale c (next_opcode c)) as [r c1|]; [|discriminate].
      destruct r; try discriminate.
      destruct (next_opcode c =? OP_HALT); [discriminate|].
      inversion Hit; subst. unfold consume_gas.
      destruct (negb (check_gas c1 _)); cbn; exact Hw.
    - assert (Hc : Forall is_byte (contract_code c)).
      { apply reachable_frame in H. unfold same_frame in H. cbn in H.
        destruct H as (-> & _). exact Hcode. }
      pose proof (execute_instruction_wf (stale := stale) c (next_opcode c) Hc IH) as Hw.
      unfold loop_iteration in Hit. fold (next_opcode c) in Hit.
      destruct (negb (check_gas c (get_opcode_gas_cost (next_opcode c)))).
      { inversion Hit; subst. exact IH. }
      destruct (execute_instruction stale c (next_opcode c)) as [r c1|]; [|discriminate].
      destruct r; try (inversion Hit; subst; exact Hw).
      destruct (next_opcode c =? OP_HALT); [|discriminate].
      inversion Hit; subst. unfold consume_gas.
      destruct (negb (check_gas c1 _)); cbn; exact Hw. }
  destruct Hwf as [[Hlen Hall] [Hmlen Hmall]].
  unfold STACK_SLOTS, MEMORY_SIZE in *. auto.
Qed.

Lemma vm_state_well_formed_witness :
  exists c,
    reachable (start (fresh_context add_and_halt (Some []) DEFAULT_GAS_LIMIT)) c
    /\ stack c = [10]
    /\ (Z.of_nat (length (stack c)) <= 256
        /\ Forall in_range (stack c)
        /\ Z.of_nat (length (memory c)) = 4096
        /\ Forall is_byte (memory c)).
Proof.
  eassert (Hit : loop_iteration 0 (start (fresh_context add_and_halt (Some []) DEFAULT_GAS_LIMIT))
                 = Continue _) by (vm_compute; reflexivity).
  eassert (Hreach : reachable (start (fresh_context add_and_halt (Some []) DEFAULT_GAS_LIMIT)) _).
  { eapply reach_continue; [apply reach_start | reflexivity | exact Hit]. }
  eexists. split; [exact Hreach|]. split; [reflexivity|].
  apply (vm_state_well_formed (fresh_context add_and_halt (Some []) DEFAULT_GAS_LIMIT) _);
    [|exact Hreach].
  change (contract_code (fresh_context add_and_halt (Some []) DEFAULT_GAS_LIMIT))
    with add_and_halt.
  rewrite add_and_halt_bytes.
  repeat (constructor; [unfold is_byte; lia|]). constructor.
Defined.

(** ** STORE and LOAD *)

Lemma slice_splice (buf data : list Z) (off : Z) :
  (Z.to_nat off + length data <= length buf)%nat ->
  slice (splice buf off data) off (Z.of_nat (length data)) = data.
Proof.
  intros H. unfold slice, splice.
  assert (Hf : length (firstn (Z.to_nat off) buf) = Z.to_nat off)
    by (rewrite length_firstn; lia).
  rewrite skipn_app, Hf, Nat.sub_diag, skipn_0, skipn_all2 by lia.
  cbn [app]. rewrite Nat2Z.id, firstn_app, Nat.sub_diag, firstn_0, firstn_all, app_nil_r.
  reflexivity.
Qed.

Lemma byte_at_splice_outside (buf data : list Z) (off i : Z) :
  0 <= off -> (Z.to_nat off + length data <= length buf)%nat ->
  0 <= i -> i < off \/ off + Z.of_nat (length data) <= i ->
  byte_at (splice buf off data) i = byte_at buf i.
Proof.
  intros Hoff Hfit Hi Hout. unfold byte_at, splice.
  assert (Hf : length (firstn (Z.to_nat off) buf) = Z.to_nat off)
    by (rewrite length_firstn; lia).
  destruct Hout as [Hlt|Hge].
  - rewrite app_nth1 by lia. rewrite nth_firstn.
    destruct (Nat.ltb_spec (Z.to_nat i) (Z.to_nat off)); [reflexivity | lia].
  - rewrite app_nth2 by lia. rewrite app_nth2 by lia. rewrite nth_skipn, Hf.
    f_equal. lia.
Qed.

Lemma store_evaluates {stale : Z}
  (c : contract_execution_context_t) (a b : Z) (s : vm_stack_t) :
  stack c = b :: a :: s -> a < MEMORY_SIZE - 8 ->
  execute_instruction stale c OP_STORE
  = Ret SGX_SUCCESS (set_memory (set_stack c s) (splice (memory c) a (le_bytes 8 b))).
Proof.
  intros Hstack Ha. unfold execute_instruction. cbn [Z.eqb OP_STORE OP_LOAD OP_NOP OP_PUSH
    OP_POP OP_ADD OP_SUB OP_MUL OP_DIV OP_MOD OP_AND OP_OR OP_XOR OP_NOT OP_EQ OP_LT OP_GT
    OP_JMP OP_JMPIF Pos.eqb].
  rewrite Hstack. cbn [stack_pop].
  destruct (a >=? MEMORY_SIZE - 8) eqn:E; [|reflexivity].
  rewrite Z.geb_leb in E. apply Z.leb_le in E. lia.
Qed.

Lemma load_evaluates {stale : Z} (c : contract_execution_context_t) (a : Z) (s : vm_stack_t) :
  stack c = a :: s -> a < MEMORY_SIZE - 8 -> Z.of_nat (length s) < STACK_SLOTS ->
  execute_instruction stale c OP_LOAD
  = Ret SGX_SUCCESS (set_stack c (le_value (slice (memory c) a 8) :: s)).
Proof.
  intros Hstack Ha Hroom. unfold execute_instruction. cbn [Z.eqb OP_LOAD OP_NOP OP_PUSH OP_POP
    OP_ADD OP_SUB OP_MUL OP_DIV OP_MOD OP_AND OP_OR OP_XOR OP_NOT OP_EQ OP_LT OP_GT OP_JMP
    OP_JMPIF Pos.eqb].
  rewrite Hstack. cbn [stack_pop].
  destruct (a >=? MEMORY_SIZE - 8) eqn:E.
  { rewrite Z.geb_leb in E. apply Z.leb_le in E. lia. }
  unfold stack_push, stack_is_full.
  destruct (Z.of_nat (length s) >=? STACK_SLOTS) eqn:E2; [|reflexivity].
  rewrite Z.geb_leb in E2. apply Z.leb_le in E2. lia.
Qed.

(** X7.  STORE then LOAD at the same address gives the stored value back: for
    an address below 4088 and a 64-bit value, STORE succeeds and takes value
    and address off the stack, and a LOAD of that address in the resulting
    memory pushes the value. *)
Theorem store_then_load {stale stale' : Z}
  (c : contract_execution_context_t) (a v : Z) (s : vm_stack_t) :
  stack c = v :: a :: s ->
  Z.of_nat (length (stack c)) <= 256 ->
  Z.of_nat (length (memory c)) = 4096 ->
  0 <= a < 4088 -> 0 <= v < 2 ^ 64 ->
  exists c1,
    execute_instruction stale c OP_STORE = Ret SGX_SUCCESS c1
    /\ stack c1 = s
    /\ execute_instruction stale' (set_stack c1 (a :: s)) OP_LOAD
       = Ret SGX_SUCCESS (set_stack c1 (v :: s)).
Proof.
  intros Hstack Hdepth Hmem Ha Hv.
  eexists. split; [apply (store_evaluates c a v s Hstack); unfold MEMORY_SIZE; lia|].
  split; [reflexivity|].
  rewrite (load_evaluates _ a s);
    [| reflexivity | unfold MEMORY_SIZE; lia
     | rewrite Hstack in Hdepth; cbn [length] in Hdepth; unfold STACK_SLOTS; lia].
  cbn [memory set_memory set_stack stack].
  change 8 with (Z.of_nat (length (le_bytes 8 v))) at 1.
  rewrite slice_splice by (rewrite le_bytes_length; lia).
  rewrite le_value_le_bytes by (change (256 ^ Z.of_nat 8) with (2 ^ 64); lia).
  reflexivity.
Qed.

Lemma store_then_load_witness :
  exists c1,
    execute_instruction 0
      (set_stack (start (fresh_context add_and_halt (Some []) 100)) [0x1122334455667788; 4087])
      OP_STORE
    = Ret SGX_SUCCESS c1
    /\ stack c1 = []
    /\ execute_instruction 0 (set_stack c1 [4087]) OP_LOAD
       = Ret SGX_SUCCESS (set_stack c1 [0x1122334455667788]).
Proof.
  apply (store_then_load
           (set_stack (start (fresh_context add_and_halt (Some []) 100))
                      [0x1122334455667788; 4087])
           4087 0x1122334455667788 []); try reflexivity; cbn; lia.
Defined.

(** X8.  STORE writes the eight bytes from its address and no other: after a
    successful STORE the memory still has 4096 bytes and every byte outside
    the eight holds what it held. *)
Theorem store_writes_eight_bytes {stale : Z} (c : contract_execution_context_t) (a v : Z)
  (s : vm_stack_t) :
  stack c = v :: a :: s ->
  Z.of_nat (length (memory c)) = 4096 ->
  0 <= a < 4088 ->
  exists c1,
    execute_instruction stale c OP_STORE = Ret SGX_SUCCESS c1
    /\ Z.of_nat (length (memory c1)) = 4096
    /\ slice (memory c1) a 8 = le_bytes 8 v
    /\ forall i, 0 <= i -> i < a \/ a + 8 <= i ->
                 byte_at (memory c1) i = byte_at (memory c) i.
Proof.
  intros Hstack Hmem Ha.
  eexists. split; [apply (store_evaluates c a v s Hstack); unfold MEMORY_SIZE; lia|].
  cbn [memory set_memory set_stack].
  assert (Hfit : (Z.to_nat a + length (le_bytes 8 v) <= length (memory c))%nat)
    by (rewrite le_bytes_length; lia).
  split; [rewrite splice_length; [exact Hmem | exact Hfit]|].
  split.
  - change 8 with (Z.of_nat (length (le_bytes 8 v))) at 1. apply slice_splice. exact Hfit.
  - intros i Hi Hout. apply byte_at_splice_outside; try lia.
    rewrite le_bytes_length. exact Hout.
Qed.

Lemma store_writes_eight_bytes_witness :
  exists c1,
    execute_instruction 0
      (set_stack (start (fresh_context add_and_halt (Some []) 100)) [0x1122334455667788; 16])
      OP_STORE
    = Ret SGX_SUCCESS c1
    /\ Z.of_nat (length (memory c1)) = 4096
    /\ slice (memory c1) 16 8 = le_bytes 8 0x1122334455667788
    /\ forall i, 0 <= i -> i < 16 \/ 16 + 8 <= i ->
                 byte_at (memory c1) i
                 = byte_at (memory (set_stack (start (fresh_context add_and_halt (Some []) 100))
                                              [0x1122334455667788; 16])) i.
Proof.
  apply (store_writes_eight_bytes
           (set_stack (start (fresh_context add_and_halt (Some []) 100))
                      [0x1122334455667788; 16])
           16 0x1122334455667788 []); try reflexivity; cbn; lia.
Defined.

(** ** Raising the gas limit *)

Ltac limit_head :=
  match goal with
  | |- _ = outcome_with_limit _ (if ?b then _ else _) => destruct b
  | |- _ = outcome_with_limit _ (match ?x with _ => _ end) => destruct x
  | |- _ = outcome_with_limit _ (let '(_, _) := ?x in _) => destruct x
  end.

(** No instruction reads the gas limit. *)
Lemma execute_instruction_with_limit {stale : Z}
  (c : contract_execution_context_t) (opcode limit : Z) :
  execute_instruction stale (with_limit c limit) opcode
  = outcome_with_limit limit (execute_instruction stale c opcode).
Proof.
  unfold execute_instruction, binary_op, division_op, jump, stack_pop, stack_push, code_size.
  repeat (cbn [with_limit set_stack set_pc contract_code pc stack memory]; limit_head);
    reflexivity.
Qed.

Lemma loop_iteration_with_limit {stale : Z} (c : contract_execution_context_t) (limit : Z) :
  gas_limit c <= limit ->
  check_gas c (get_opcode_gas_cost (next_opcode c)) = true ->
  loop_iteration stale (with_limit c limit) = iteration_with_limit limit (loop_iteration stale c).
Proof.
  intros Hle Hgas. unfold loop_iteration.
  change (byte_at (contract_code (with_limit c limit)) (pc (with_limit c limit)))
    with (next_opcode c).
  fold (next_opcode c).
  set (cost := get_opcode_gas_cost (next_opcode c)) in *.
  assert (Hgas' : check_gas (with_limit c limit) cost = true).
  { unfold check_gas in *. cbn [with_limit gas_used gas_limit].
    apply Z.leb_le in Hgas. apply Z.leb_le. lia. }
  rewrite Hgas, Hgas'. cbn [negb].
  rewrite execute_instruction_with_limit.
  destruct (execute_instruction stale c (next_opcode c)) as [ret c1|addr len] eqn:Hexec;
    [|reflexivity].
  cbn [outcome_with_limit].
  destruct (execute_instruction_frame _ _ _ _ Hexec) as (Hframe & Hused & _).
  assert (Hl : gas_limit c1 = gas_limit c) by (unfold same_frame in Hframe; tauto).
  assert (H1 : check_gas c1 cost = true)
    by (rewrite (check_gas_frame c c1 cost Hl Hused); exact Hgas).
  assert (H2 : check_gas (with_limit c1 limit) cost = true).
  { unfold check_gas in *. cbn [with_limit gas_used gas_limit]. rewrite Hused.
    apply Z.leb_le in Hgas. apply Z.leb_le. lia. }
  destruct ret; try reflexivity.
  unfold consume_gas. rewrite H1, H2. cbn [negb snd].
  destruct (next_opcode c =? OP_HALT); reflexivity.
Qed.

Lemma execute_loop_with_limit (limit : Z) (fuel : nat) :
  forall (stales : stale_values) (c c1 : contract_execution_context_t) (ret : sgx_status_t),
    execute_loop stales fuel c = Done (ret, c1) ->
    state c1 <> CONTRACT_STATE_OUT_OF_GAS ->
    gas_limit c <= limit ->
    execute_loop stales fuel (with_limit c limit) = Done (ret, with_limit c1 limit).
Proof.
  induction fuel as [|f IH]; intros stales c c1 ret Hrun Hstate Hle; cbn [execute_loop] in *;
    change (loop_condition (with_limit c limit)) with (loop_condition c);
    destruct (loop_condition c) eqn:Hcond; try discriminate;
    try (inversion Hrun; subst; reflexivity).
  pose proof (loop_iteration_spec (stale := stales O) c) as Hs.
  destruct (check_gas c (get_opcode_gas_cost (next_opcode c))) eqn:Hgas.
  - rewrite (loop_iteration_with_limit c limit Hle Hgas).
    destruct (loop_iteration (stales O) c) as [c2|ret2 c2|addr len] eqn:Hit; [| |discriminate].
    + cbn [iteration_with_limit]. apply IH; [exact Hrun | exact Hstate|].
      cbn in Hs. destruct Hs as (_ & Hframe & _). unfold same_frame in Hframe.
      cbn [with_limit gas_limit].
      replace (gas_limit c2) with (gas_limit c) by (symmetry; tauto). exact Hle.
    + cbn [iteration_with_limit]. inversion Hrun; subst. reflexivity.
  - unfold loop_iteration in Hrun. fold (next_opcode c) in Hrun.
    rewrite Hgas in Hrun. cbn [negb] in Hrun. inversion Hrun; subst.
    cbn in Hstate. contradiction.
Qed.

(** X9.  A call that does not end OUT_OF_GAS ends the same way under any
    higher gas limit, its jumps finding the same values in [result]: same
    status, same counter, and a final context that differs in the gas limit
    alone, so with the same state, gas_used, stack, memory, output and
    execution hash. *)
Theorem raising_gas_limit {stales : stale_values} (fuel : nat) (v v' : contract_verifier_t)
  (ctx c' : contract_execution_context_t) (ret : sgx_status_t) (limit : Z) :
  execute_contract stales fuel v ctx = Done (ret, v', c') ->
  state c' <> CONTRACT_STATE_OUT_OF_GAS ->
  gas_limit ctx <= limit ->
  execute_contract stales fuel v (with_limit ctx limit) = Done (ret, v', with_limit c' limit).
Proof.
  intros Hrun Hstate Hle. unfold execute_contract in *.
  destruct (initialized v); cbn [negb] in *.
  2: { inversion Hrun; subst. reflexivity. }
  change (contract_code (with_limit ctx limit)) with (contract_code ctx).
  destruct (validate_contract_code (contract_code ctx));
    try (inversion Hrun; subst; reflexivity).
  change (start (with_limit ctx limit)) with (with_limit (start ctx) limit).
  destruct (execute_loop stales fuel (start ctx)) as [[ret1 c1]| |] eqn:Hloop; try discriminate.
  inversion Hrun; subst.
  rewrite (execute_loop_with_limit limit fuel _ _ _ _ Hloop).
  - change (state (with_limit c1 limit)) with (state c1).
    destruct (state c1); reflexivity.
  - destruct (state c1) eqn:Hs; cbn in Hstate; congruence.
  - exact Hle.
Qed.

Lemma raising_gas_limit_witness :
  exists v c,
    execute_contract zeroed 4 ready (fresh_context add_and_halt (Some []) 9)
    = Done (SGX_SUCCESS, v, c)
    /\ execute_contract zeroed 4 ready (fresh_context add_and_halt (Some []) DEFAULT_GAS_LIMIT)
       = Done (SGX_SUCCESS, v, with_limit c DEFAULT_GAS_LIMIT).
Proof.
  eassert (Hrun : execute_contract zeroed 4 ready (fresh_context add_and_halt (Some []) 9)
                  = Done (SGX_SUCCESS, _, _)) by (vm_compute; reflexivity).
  eexists. eexists. split; [exact Hrun|].
  apply (raising_gas_limit _ _ _ _ _ _ DEFAULT_GAS_LIMIT Hrun).
  - cbn. discriminate.
  - cbn. unfold DEFAULT_GAS_LIMIT. lia.
Defined.

(** ** Runs that never end *)

Lemma u64_pred_succ (x : Z) : in_range x -> u64 (u64 (x - 1) + 1) = x.
Proof.
  intros Hx. unfold u64. rewrite Z.add_mod_idemp_l by (unfold modulus; lia).
  replace (x - 1 + 1) with x by lia. apply Z.mod_small. exact Hx.
Qed.

(** A turn at a JMP whose operand is its own offset: it goes by what the high
    half of [result] holds. *)
Lemma jump_to_itself_turn {stale : Z} (c : contract_execution_context_t) :
  0 <= pc c -> pc c + 4 < code_size c -> code_size c <= 2 ^ 32 ->
  next_opcode c = OP_JMP ->
  le_value (slice (contract_code c) (pc c + 1) 4) = pc c ->
  0 <= gas_used c <= gas_limit c -> gas_limit c <= U64.max ->
  loop_iteration stale c
  = if u64 stale / 2 ^ 32 =? 0 then Continue c
    else Break SGX_ERROR_CONTRACT_EXECUTION_FAILED (set_state c CONTRACT_STATE_ERROR).
Proof.
  intros Hpc Hfit Hsize Hop Htarget Hgas Hlimit.
  unfold loop_iteration. fold (next_opcode c). rewrite Hop.
  change (get_opcode_gas_cost OP_JMP) with 0.
  assert (Hu : u64 (gas_used c + 0) = gas_used c).
  { rewrite Z.add_0_r. apply u64_small. unfold in_range, modulus, U64.max in *. lia. }
  assert (Hcheck : check_gas c 0 = true).
  { unfold check_gas. rewrite Hu. apply Z.leb_le. lia. }
  rewrite Hcheck. cbn [negb].
  assert (Hhigh : 0 <= u64 stale / 2 ^ 32).
  { apply Z.div_pos; [|lia]. pose proof (u64_range stale) as H. unfold in_range in H. lia. }
  assert (Hexec : execute_instruction stale c OP_JMP
                  = if u64 stale / 2 ^ 32 =? 0
                    then Ret SGX_SUCCESS (set_pc c (u64 (pc c - 1)))
                    else Ret SGX_ERROR_CONTRACT_EXECUTION_FAILED c).
  { unfold execute_instruction. cbn [Z.eqb OP_JMP OP_NOP OP_PUSH OP_POP OP_ADD OP_SUB OP_MUL
      OP_DIV OP_MOD OP_AND OP_OR OP_XOR OP_NOT OP_EQ OP_LT OP_GT Pos.eqb].
    unfold jump. rewrite Htarget.
    rewrite (u64_small (pc c + 4)) by (unfold in_range, modulus, U64.max in *; lia).
    destruct (pc c + 4 >=? code_size c) eqn:E1.
    { rewrite Z.geb_leb in E1. apply Z.leb_le in E1. lia. }
    cbv zeta.
    destruct (u64 stale / 2 ^ 32 =? 0) eqn:E0.
    - apply Z.eqb_eq in E0. rewrite E0, Z.mul_0_r, Z.add_0_r.
      destruct (pc c >=? code_size c) eqn:E2.
      { rewrite Z.geb_leb in E2. apply Z.leb_le in E2. lia. }
      reflexivity.
    - apply Z.eqb_neq in E0.
      destruct (pc c + 2 ^ 32 * (u64 stale / 2 ^ 32) >=? code_size c) eqn:E2; [reflexivity|].
      rewrite Z.geb_leb in E2. apply Z.leb_gt in E2. nia. }
  rewrite Hexec. destruct (u64 stale / 2 ^ 32 =? 0); [|reflexivity].
  unfold consume_gas.
  assert (Hcheck' : check_gas (set_pc c (u64 (pc c - 1))) 0 = true) by exact Hcheck.
  rewrite Hcheck'. cbn [negb snd]. change (OP_JMP =? OP_HALT) with false. cbv iota.
  cbn [gas_used set_pc pc set_gas_used]. rewrite Hu.
  rewrite u64_pred_succ by (unfold in_range, modulus, U64.max in *; lia).
  destruct c. reflexivity.
Qed.

(** X10.  Gas does not bound a run.  JMP has no entry in the gas table and so
    costs nothing.  When the loop stands at a JMP whose operand is its own
    offset, a turn charges no gas: if the high half of the uninitialised
    [result] holds zeros the turn leaves the context as it is, and otherwise
    the jump fails and the run ends in ERROR.  So the loop ends in ERROR or
    not at all, never in OUT_OF_GAS, whatever the gas limit; where every turn
    finds zeros it never ends. *)
Theorem jump_to_itself_ignores_gas {stales : stale_values} (fuel : nat)
  (c : contract_execution_context_t) :
  state c = CONTRACT_STATE_RUNNING ->
  0 <= pc c -> pc c + 4 < code_size c -> code_size c <= MAX_CONTRACT_SIZE ->
  next_opcode c = OP_JMP ->
  le_value (slice (contract_code c) (pc c + 1) 4) = pc c ->
  0 <= gas_used c <= gas_limit c -> gas_limit c <= U64.max ->
  (forall stale,
     loop_iteration stale c
     = if u64 stale / 2 ^ 32 =? 0 then Continue c
       else Break SGX_ERROR_CONTRACT_EXECUTION_FAILED (set_state c CONTRACT_STATE_ERROR))
  /\ ((forall n, u64 (stales n) / 2 ^ 32 = 0) -> execute_loop stales fuel c = OutOfFuel)
  /\ (execute_loop stales fuel c = OutOfFuel
      \/ execute_loop stales fuel c
         = Done (SGX_ERROR_CONTRACT_EXECUTION_FAILED, set_state c CONTRACT_STATE_ERROR)).
Proof.
  intros Hstate Hpc Hfit Hsize Hop Htarget Hgas Hlimit.
  assert (Hcond : loop_condition c = true).
  { unfold loop_condition. rewrite Hstate. apply Z.ltb_lt. lia. }
  assert (Hit : forall stale,
            loop_iteration stale c
            = if u64 stale / 2 ^ 32 =? 0 then Continue c
              else Break SGX_ERROR_CONTRACT_EXECUTION_FAILED
                         (set_state c CONTRACT_STATE_ERROR)).
  { intros stale. apply jump_to_itself_turn; auto. unfold MAX_CONTRACT_SIZE in *. lia. }
  split; [exact Hit|]. split.
  - revert stales. induction fuel as [|f IH]; intros stales Hzero; cbn [execute_loop];
      rewrite Hcond; [reflexivity|].
    rewrite Hit, (Hzero O). cbn [Z.eqb]. apply IH. intros n. apply Hzero.
  - revert stales. induction fuel as [|f IH]; intros stales; cbn [execute_loop];
      rewrite Hcond; [left; reflexivity|].
    rewrite Hit. destruct (u64 (stales O) / 2 ^ 32 =? 0); [apply IH | right; reflexivity].
Qed.

Lemma jump_to_itself_ignores_gas_witness :
  validate_contract_code jump_to_self = SGX_SUCCESS
  /\ execute_loop zeroed 1000 (start (ecall_context jump_to_self [])) = OutOfFuel
  /\ loop_iteration (2 ^ 32) (start (ecall_context jump_to_self []))
     = Break SGX_ERROR_CONTRACT_EXECUTION_FAILED
             (set_state (start (ecall_context jump_to_self [])) CONTRACT_STATE_ERROR).
Proof.
  split; [reflexivity|].
  pose proof (jump_to_itself_ignores_gas (stales := zeroed) 1000
                (start (ecall_context jump_to_self []))
                eq_refl ltac:(cbn; lia) ltac:(cbn; lia)
                ltac:(cbn; unfold MAX_CONTRACT_SIZE; lia) eq_refl eq_refl
                ltac:(cbn; lia) ltac:(cbn; unfold U64.max; lia)) as (Hturn & Hzero & _).
  split.
  - apply Hzero. intros n. reflexivity.
  - rewrite Hturn. reflexivity.
Defined.

(** ** Opcodes the interpreter does not implement *)

(** X11.  CALL and RET pass the validator, but the interpreter has no case
    for them: when the loop fetches either one, the run ends in ERROR with
    [SGX_ERROR_CONTRACT_EXECUTION_FAILED]; no gas is charged and nothing but
    the state changes. *)
Theorem call_and_ret_fail_when_run {stale : Z} (c : contract_execution_context_t) :
  next_opcode c = OP_CALL \/ next_opcode c = OP_RET ->
  0 <= gas_used c <= gas_limit c -> gas_limit c <= U64.max ->
  known_opcode (next_opcode c) = true
  /\ loop_iteration stale c
     = Break SGX_ERROR_CONTRACT_EXECUTION_FAILED (set_state c CONTRACT_STATE_ERROR).
Proof.
  intros Hop Hgas Hlimit.
  assert (Hu : u64 (gas_used c + 0) = gas_used c).
  { rewrite Z.add_0_r. apply u64_small. unfold in_range, modulus, U64.max in *. lia. }
  assert (Hcheck : check_gas c 0 = true).
  { unfold check_gas. rewrite Hu. apply Z.leb_le. lia. }
  unfold loop_iteration. fold (next_opcode c).
  destruct Hop as [-> | ->].
  - split; [reflexivity|]. change (get_opcode_gas_cost OP_CALL) with 0.
    rewrite Hcheck. reflexivity.
  - split; [reflexivity|]. change (get_opcode_gas_cost OP_RET) with 0.
    rewrite Hcheck. reflexivity.
Qed.

Lemma call_and_ret_fail_when_run_witness :
  validate_contract_code [OP_RET; OP_HALT] = SGX_SUCCESS
  /\ loop_iteration 0 (start (ecall_context [OP_RET; OP_HALT] []))
     = Break SGX_ERROR_CONTRACT_EXECUTION_FAILED
             (set_state (start (ecall_context [OP_RET; OP_HALT] [])) CONTRACT_STATE_ERROR).
Proof.
  split; [reflexivity|].
  apply (call_and_ret_fail_when_run (start (ecall_context [OP_RET; OP_HALT] []))).
  - right. reflexivity.
  - cbn. lia.
  - cbn. unfold U64.max. lia.
Defined.

(** ** HASH, LOAD and STORE at the bounds *)

(** X12.  HASH pops the length, then the address.  When address plus length is
    at most 4096 it pushes the first eight bytes, read little-endian, of the
    SHA-256 digest of that part of the scratch memory; when the sum exceeds
    4096 without exceeding 64 bits it fails and pushes nothing. *)
Theorem hash_of_memory {stale : Z}
  (c : contract_execution_context_t) (a b : Z) (s : vm_stack_t) :
  stack c = a :: b :: s -> 0 <= a -> 0 <= b -> Z.of_nat (length s) < 256 ->
  (b + a <= 4096 ->
   execute_instruction stale c OP_HASH
   = Ret SGX_SUCCESS
         (set_stack c (le_value (firstn 8 (Sha256.sha256 (slice (memory c) b a))) :: s)))
  /\ (4096 < b + a < 2 ^ 64 ->
      execute_instruction stale c OP_HASH
      = Ret SGX_ERROR_CONTRACT_EXECUTION_FAILED (set_stack c s)).
Proof.
  intros Hstack Ha Hb Hroom. split.
  - intros Hfit. unfold execute_instruction. cbn [Z.eqb OP_HASH OP_STORE OP_LOAD OP_NOP
      OP_PUSH OP_POP OP_ADD OP_SUB OP_MUL OP_DIV OP_MOD OP_AND OP_OR OP_XOR OP_NOT OP_EQ
      OP_LT OP_GT OP_JMP OP_JMPIF Pos.eqb].
    rewrite Hstack. cbn [stack_pop].
    rewrite u64_small by (unfold in_range, modulus; lia).
    destruct (b + a >? MEMORY_SIZE) eqn:E.
    { rewrite Z.gtb_ltb in E. apply Z.ltb_lt in E. unfold MEMORY_SIZE in E. lia. }
    rewrite (Z.mod_small a) by lia.
    assert (Hin : (b + a <=? MEMORY_SIZE) = true) by (apply Z.leb_le; unfold MEMORY_SIZE; lia).
    rewrite Hin, orb_true_r.
    unfold stack_push, stack_is_full, sgx_sha256_msg.
    destruct (Z.of_nat (length s) >=? STACK_SLOTS) eqn:E2; [|reflexivity].
    rewrite Z.geb_leb in E2. apply Z.leb_le in E2. unfold STACK_SLOTS in E2. lia.
  - intros Hout. apply (hash_confined_without_wrap c a b s); auto;
      unfold modulus, MEMORY_SIZE; lia.
Qed.

Lemma hash_of_memory_witness :
  execute_instruction 0
    (set_stack (start (fresh_context add_and_halt (Some []) 100)) [0; 0]) OP_HASH
  = Ret SGX_SUCCESS
        (set_stack (start (fresh_context add_and_halt (Some []) 100))
                   [le_value (firstn 8 (Sha256.sha256 []))])
  /\ execute_instruction 0
       (set_stack (start (fresh_context add_and_halt (Some []) 100)) [4096; 1]) OP_HASH
     = Ret SGX_ERROR_CONTRACT_EXECUTION_FAILED
           (set_stack (start (fresh_context add_and_halt (Some []) 100)) []).
Proof.
  split.
  - apply (proj1 (hash_of_memory
                    (set_stack (start (fresh_context add_and_halt (Some []) 100)) [0; 0])
                    0 0 [] eq_refl ltac:(lia) ltac:(lia) ltac:(cbn; lia))).
    lia.
  - apply (proj2 (hash_of_memory
                    (set_stack (start (fresh_context add_and_halt (Some []) 100)) [4096; 1])
                    4096 1 [] eq_refl ltac:(lia) ltac:(lia) ltac:(cbn; lia))).
    lia.
Defined.

(** X13.  LOAD and STORE accept the addresses 0 to 4087 only.  At any address
    from 4088 on, 4088 itself included although the eight bytes from 4088
    lie inside the memory, the instruction fails, its operands are gone from
    the stack, and the memory is as before.  No instruction other than HASH
    ever reaches outside the memory. *)
Theorem load_store_bounds {stale : Z} (c : contract_execution_context_t) (a : Z) :
  4088 <= a ->
  (forall s, stack c = a :: s ->
             execute_instruction stale c OP_LOAD
             = Ret SGX_ERROR_CONTRACT_EXECUTION_FAILED (set_stack c s))
  /\ (forall b s, stack c = b :: a :: s ->
                  execute_instruction stale c OP_STORE
                  = Ret SGX_ERROR_CONTRACT_EXECUTION_FAILED (set_stack c s))
  /\ (forall opcode addr len,
        execute_instruction stale c opcode = OutOfBounds addr len -> opcode = OP_HASH).
Proof.
  intros Ha.
  assert (Hge : (a >=? MEMORY_SIZE - 8) = true).
  { rewrite Z.geb_leb. apply Z.leb_le. unfold MEMORY_SIZE. lia. }
  split; [|split].
  - intros s Hs. unfold execute_instruction. cbn [Z.eqb OP_LOAD OP_NOP OP_PUSH OP_POP
      OP_ADD OP_SUB OP_MUL OP_DIV OP_MOD OP_AND OP_OR OP_XOR OP_NOT OP_EQ OP_LT OP_GT OP_JMP
      OP_JMPIF Pos.eqb].
    rewrite Hs. cbn [stack_pop]. rewrite Hge. reflexivity.
  - intros b s Hs. unfold execute_instruction. cbn [Z.eqb OP_STORE OP_LOAD OP_NOP OP_PUSH
      OP_POP OP_ADD OP_SUB OP_MUL OP_DIV OP_MOD OP_AND OP_OR OP_XOR OP_NOT OP_EQ OP_LT OP_GT
      OP_JMP OP_JMPIF Pos.eqb].
    rewrite Hs. cbn [stack_pop]. rewrite Hge. reflexivity.
  - intros opcode addr len. apply execute_instruction_out_of_bounds.
Qed.

Lemma load_store_bounds_witness :
  execute_instruction 0
    (set_stack (start (fresh_context add_and_halt (Some []) 100)) [4088]) OP_LOAD
  = Ret SGX_ERROR_CONTRACT_EXECUTION_FAILED
        (set_stack (start (fresh_context add_and_halt (Some []) 100)) []).
Proof.
  apply (proj1 (load_store_bounds
                  (set_stack (start (fresh_context add_and_halt (Some []) 100)) [4088])
                  4088 ltac:(lia))).
  reflexivity.
Defined.

(** ** The boundary call, every way it can return *)

(** X14.  Whatever makes [ecall_verify_contract_execution] return a status
    other than [SGX_SUCCESS] (verifier not initialized, a NULL code or input
    pointer, code the validator rejects, a run that fails), the host's result
    buffer, result size and gas cell are as before the call.  When it returns
    [SGX_SUCCESS] the result buffer is still as before, the result size is 0,
    and the gas cell holds the gas the run used. *)
Theorem ecall_outputs {stales : stale_values}
  (fuel : nat) (g_initialized : bool) (v v' : contract_verifier_t)
  (code input : option (list Z)) (out out' : host_outputs) (ret : sgx_status_t) :
  0 <= out_result_size out ->
  ecall_verify_contract_execution stales fuel g_initialized v code input out
  = Done (ret, v', out') ->
  (ret <> SGX_SUCCESS -> out' = out)
  /\ (ret = SGX_SUCCESS ->
      execution_result out' = execution_result out
      /\ out_result_size out' = 0
      /\ exists code_bytes input_bytes c,
           code = Some code_bytes /\ input = Some input_bytes
           /\ execute_contract stales fuel v (ecall_context code_bytes input_bytes)
              = Done (SGX_SUCCESS, v', c)
           /\ out_gas_used out' = gas_used c).
Proof.
  intros Hsize Hcall. unfold ecall_verify_contract_execution in Hcall.
  destruct g_initialized; cbn [negb] in Hcall.
  2: { inversion Hcall; subst. split; [reflexivity | discriminate]. }
  destruct code as [code_bytes|]; [|inversion Hcall; subst; split; [reflexivity | discriminate]].
  destruct input as [input_bytes|];
    [|inversion Hcall; subst; split; [reflexivity | discriminate]].
  destruct (execute_contract stales fuel v (ecall_context code_bytes input_bytes))
    as [[[ret1 v1] c1]| |] eqn:Hrun; try discriminate.
  destruct ret1; try (inversion Hcall; subst; split; [reflexivity | discriminate]).
  pose proof (execute_contract_output_empty _ _ _ _ _ Hrun) as Hres.
  unfold result_size in Hcall. rewrite Hres in Hcall. cbn [length Z.of_nat] in Hcall.
  destruct (out_result_size out <? 0) eqn:E; [apply Z.ltb_lt in E; lia|].
  inversion Hcall; subst. split; [contradiction|]. intros _.
  cbn. repeat split. exists code_bytes, input_bytes, c1. auto.
Qed.

Lemma ecall_outputs_witness :
  ecall_verify_contract_execution zeroed 4 true ready (Some add_and_halt) None host_cells
  = Done (SGX_ERROR_INVALID_PARAMETER, ready, host_cells)
  /\ host_cells = host_cells.
Proof.
  eassert (Hcall : ecall_verify_contract_execution zeroed 4 true ready (Some add_and_halt) None
                     host_cells = Done (SGX_ERROR_INVALID_PARAMETER, _, _))
    by (vm_compute; reflexivity).
  split; [exact Hcall|].
  apply (proj1 (ecall_outputs _ _ _ _ _ _ host_cells _ _ ltac:(cbn; lia) Hcall)).
  discriminate.
Defined.

(** ** HMAC-SHA256 *)

(** RFC 4231 test cases 1, 2 and 6 (a key longer than a block). *)
Example hmac_rfc4231_case_1 :
  sgx_hmac_sha256_msg [0x48; 0x69; 0x20; 0x54; 0x68; 0x65; 0x72; 0x65] (repeat 0x0b 20) =
  [0xb0; 0x34; 0x4c; 0x61; 0xd8; 0xdb; 0x38; 0x53; 0x5c; 0xa8; 0xaf; 0xce; 0xaf; 0x0b; 0xf1; 0x2b;
   0x88; 0x1d; 0xc2; 0x00; 0xc9; 0x83; 0x3d; 0xa7; 0x26; 0xe9; 0x37; 0x6c; 0x2e; 0x32; 0xcf; 0xf7].
Proof. vm_compute. reflexivity. Qed.

Example hmac_rfc4231_case_2 :
  sgx_hmac_sha256_msg
    [0x77; 0x68; 0x61; 0x74; 0x20; 0x64; 0x6f; 0x20; 0x79; 0x61; 0x20; 0x77; 0x61; 0x6e;
     0x74; 0x20; 0x66; 0x6f; 0x72; 0x20; 0x6e; 0x6f; 0x74; 0x68; 0x69; 0x6e; 0x67; 0x3f]
    [0x4a; 0x65; 0x66; 0x65] =
  [0x5b; 0xdc; 0xc1; 0x46; 0xbf; 0x60; 0x75; 0x4e; 0x6a; 0x04; 0x24; 0x26; 0x08; 0x95; 0x75; 0xc7;
   0x5a; 0x00; 0x3f; 0x08; 0x9d; 0x27; 0x39; 0x83; 0x9d; 0xec; 0x58; 0xb9; 0x64; 0xec; 0x38; 0x43].
Proof. vm_compute. reflexivity. Qed.

Example hmac_rfc4231_case_6 :
  sgx_hmac_sha256_msg
    [84; 101; 115; 116; 32; 85; 115; 105; 110; 103; 32; 76; 97; 114; 103; 101; 114; 32; 84; 104; 97; 110; 32; 66; 108; 111; 99; 107; 45; 83; 105; 122; 101; 32; 75; 101; 121; 32; 45; 32; 72; 97; 115; 104; 32; 75; 101; 121; 32; 70; 105; 114; 115; 116]
    (repeat 0xaa 131) =
  [0x60; 0xe4; 0x31; 0x59; 0x1e; 0xe0; 0xb6; 0x7f; 0x0d; 0x8a; 0x26; 0xaa; 0xcb; 0xf5; 0xb7; 0x7f; 0x8e; 0x0b; 0xc6; 0x21; 0x37; 0x28; 0xc5; 0x14; 0x05; 0x46; 0x04; 0x0f; 0x0e; 0xe3; 0x7f; 0x54].
Proof. vm_compute. reflexivity. Qed.

Lemma round_length (st : list Z) (kw : Z * Z) :
  length st = 8%nat -> length (Sha256.round st kw) = 8%nat.
Proof.
  intros H. do 9 (destruct st as [|? st]; try discriminate). reflexivity.
Qed.

Lemma fold_round_length (kws : list (Z * Z)) :
  forall st, length st = 8%nat -> length (fold_left Sha256.round kws st) = 8%nat.
Proof.
  induction kws as [|kw kws IH]; intros st H; cbn [fold_left]; [exact H|].
  apply IH. apply round_length. exact H.
Qed.

Lemma compress_length (h block : list Z) :
  length h = 8%nat -> length (Sha256.compress h block) = 8%nat.
Proof.
  intros H. unfold Sha256.compress.
  rewrite length_map, length_combine, fold_round_length, H by exact H. reflexivity.
Qed.

Lemma fold_compress_length (blocks : list (list Z)) :
  forall h, length h = 8%nat -> length (fold_left Sha256.compress blocks h) = 8%nat.
Proof.
  induction blocks as [|b blocks IH]; intros h H; cbn [fold_left]; [exact H|].
  apply IH. apply compress_length. exact H.
Qed.

Lemma flat_map_be_bytes_length (l : list Z) :
  length (flat_map (Sha256.be_bytes 4) l) = (4 * length l)%nat.
Proof.
  induction l as [|x l IH]; [reflexivity|].
  cbn [flat_map]. rewrite length_app, IH. cbn [Sha256.be_bytes length]. lia.
Qed.

(** A SHA-256 digest has 32 bytes. *)
Lemma sha256_length (msg : list Z) : length (Sha256.sha256 msg) = 32%nat.
Proof.
  unfold Sha256.sha256. rewrite flat_map_be_bytes_length, fold_compress_length; reflexivity.
Qed.

Lemma hmac_length (data key : list Z) : length (sgx_hmac_sha256_msg data key) = 32%nat.
Proof. unfold sgx_hmac_sha256_msg. apply sha256_length. Qed.

(** ** Comparing buffers *)

Lemma firstn_eq_nth (n : nat) (a b : list Z) :
  (n <= length a)%nat -> (n <= length b)%nat ->
  (firstn n a = firstn n b <-> forall i, (i < n)%nat -> nth i a 0 = nth i b 0).
Proof.
  intros Ha Hb. split.
  - intros Heq i Hi.
    assert (H : nth i (firstn n a) 0 = nth i (firstn n b) 0) by (rewrite Heq; reflexivity).
    rewrite !nth_firstn in H.
    destruct (Nat.ltb_spec i n); [exact H | lia].
  - intros Hnth. apply (nth_ext _ _ 0 0).
    + rewrite !length_firstn. lia.
    + intros i Hi. rewrite length_firstn in Hi. rewrite !nth_firstn.
      destruct (Nat.ltb_spec i n); [apply Hnth; lia | reflexivity].
Qed.

Lemma fold_lor_zero (f : nat -> Z) (l : list nat) :
  forall acc,
    fold_left (fun result i => Z.lor result (f i)) l acc = 0
    <-> acc = 0 /\ forall i, In i l -> f i = 0.
Proof.
  induction l as [|x l IH]; intros acc; cbn [fold_left].
  - split; [intros H; split; [exact H | intros i []] | tauto].
  - rewrite IH, Z.lor_eq_0_iff. split.
    + intros [[Hacc Hx] Hl]. split; [exact Hacc|].
      intros i [<-|Hi]; [exact Hx | apply Hl; exact Hi].
    + intros [Hacc Hl]. repeat split; [exact Hacc | apply Hl; left; reflexivity|].
      intros i Hi. apply Hl. right. exact Hi.
Qed.

Lemma secure_memcmp_zero_iff_aux (pa pb : list Z) (size : nat) :
  (size <= length pa)%nat -> (size <= length pb)%nat ->
  (CryptoUtils.secure_memcmp (Some pa) (Some pb) size = 0
   <-> firstn size pa = firstn size pb)
  /\ True.
Proof.
  intros Ha Hb. split; [|exact I].
  unfold CryptoUtils.secure_memcmp.
  rewrite (fold_lor_zero (fun i => Z.lxor (nth i pa 0) (nth i pb 0))).
  rewrite (firstn_eq_nth size pa pb Ha Hb). split.
  - intros [_ H] i Hi. apply Z.lxor_eq_0_iff. apply H. apply in_seq. lia.
  - intros H. split; [reflexivity|]. intros i Hi. apply in_seq in Hi.
    apply Z.lxor_eq_0_iff. apply H. lia.
Qed.

(** X15.  [secure_memcmp] returns 0 exactly when the first [size] bytes of the
    two buffers are equal, and -1, which is not 0, when a pointer is NULL. *)
Theorem secure_memcmp_zero_iff (pa pb : list Z) (size : nat) :
  (size <= length pa)%nat -> (size <= length pb)%nat ->
  (CryptoUtils.secure_memcmp (Some pa) (Some pb) size = 0
   <-> firstn size pa = firstn size pb)
  /\ CryptoUtils.secure_memcmp None (Some pb) size = -1
  /\ CryptoUtils.secure_memcmp (Some pa) None size = -1.
Proof.
  intros Ha Hb. split; [|split; reflexivity].
  apply (secure_memcmp_zero_iff_aux pa pb size Ha Hb).
Qed.

Lemma secure_memcmp_zero_iff_witness :
  CryptoUtils.secure_memcmp (Some [1; 2; 3; 4]) (Some [1; 2; 3; 5]) 3 = 0.
Proof.
  apply (proj1 (secure_memcmp_zero_iff [1; 2; 3; 4] [1; 2; 3; 5] 3
                  ltac:(cbn; lia) ltac:(cbn; lia))).
  reflexivity.
Defined.

Lemma memcmp_equal_iff (a b : list Z) (n : nat) :
  (n <= length a)%nat -> (n <= length b)%nat ->
  (memcmp_equal a b n = true <-> firstn n a = firstn n b).
Proof.
  intros Ha Hb. unfold memcmp_equal.
  rewrite forallb_forall, (firstn_eq_nth n a b Ha Hb). split.
  - intros H i Hi. apply Z.eqb_eq. apply H. apply in_seq. lia.
  - intros H i Hi. apply in_seq in Hi. apply Z.eqb_eq. apply H. lia.
Qed.

Lemma memcmp_equal_refl (a : list Z) (n : nat) : memcmp_equal a a n = true.
Proof. unfold memcmp_equal. apply forallb_forall. intros i _. apply Z.eqb_refl. Qed.

(** ** The "RSA" signature *)

(** X16.  [rsa_verify] accepts a signature exactly when its length is 32 and
    its bytes are the HMAC-SHA256 of the data (of less than 2^32 bytes) under
    the 256 bytes of the public key; any other signature gets [false], with
    [SGX_SUCCESS].  So a signature that [rsa_sign] makes verifies under the
    very key that made it: signing key and verification key are one secret. *)
Theorem rsa_verify_is_hmac_check (data sig key : list Z) (signature_len : Z) :
  Z.of_nat (length data) < 2 ^ 32 ->
  (256 <= length key)%nat ->
  (32 <= length sig)%nat ->
  (CryptoUtils.rsa_verify (Some data) (Some sig) signature_len (Some key)
   = (SGX_SUCCESS, Some true)
   <-> signature_len = 32
       /\ firstn 32 sig = sgx_hmac_sha256_msg data (firstn 256 key))
  /\ (CryptoUtils.rsa_verify (Some data) (Some sig) signature_len (Some key)
      = (SGX_SUCCESS, Some true)
      \/ CryptoUtils.rsa_verify (Some data) (Some sig) signature_len (Some key)
         = (SGX_SUCCESS, Some false))
  /\ (forall len, 32 <= len ->
        exists s,
          CryptoUtils.rsa_sign (Some data) (Some key) len = (SGX_SUCCESS, Some s, 32)
          /\ CryptoUtils.rsa_verify (Some data) (Some s) 32 (Some key)
             = (SGX_SUCCESS, Some true)).
Proof.
  intros Hdata Hkey Hsig.
  unfold CryptoUtils.rsa_verify, CryptoUtils.rsa_sign, CryptoUtils.compute_hmac_sha256.
  change (Z.to_nat (CryptoUtils.RSA_KEY_SIZE mod 2 ^ 32)) with 256%nat.
  rewrite (Z.mod_small (Z.of_nat (length data))) by lia.
  rewrite Nat2Z.id, (firstn_all data).
  pose proof (hmac_length data (firstn 256 key)) as Hlen.
  set (h := sgx_hmac_sha256_msg data (firstn 256 key)) in *. clearbody h.
  assert (Hcmp : forall s, (32 <= length s)%nat ->
            ((CryptoUtils.secure_memcmp (Some s) (Some h) 32 =? 0) = true
             <-> firstn 32 s = h)).
  { intros s Hs. rewrite Z.eqb_eq.
    rewrite (proj1 (secure_memcmp_zero_iff_aux s h 32 Hs ltac:(lia))).
    rewrite (@firstn_all2 Z 32 h) by lia. reflexivity. }
  split; [|split].
  - destruct (signature_len =? 32) eqn:E; cbv beta iota delta [negb].
    + apply Z.eqb_eq in E. split.
      * intros H. split; [exact E|]. apply Hcmp; [exact Hsig|].
        destruct (CryptoUtils.secure_memcmp (Some sig) (Some h) 32 =? 0);
          [reflexivity | discriminate].
      * intros [_ H]. apply Hcmp in H; [|exact Hsig]. rewrite H. reflexivity.
    + apply Z.eqb_neq in E. split; [discriminate | intros [H _]; contradiction].
  - destruct (negb (signature_len =? 32)); [right; reflexivity|].
    destruct (CryptoUtils.secure_memcmp (Some sig) (Some h) 32 =? 0);
      [left | right]; reflexivity.
  - intros len Hlen32. destruct (len <? 32) eqn:E; [apply Z.ltb_lt in E; lia|].
    exists h. split; [reflexivity|].
    change (negb (32 =? 32)) with false. cbv iota.
    assert (H : (CryptoUtils.secure_memcmp (Some h) (Some h) 32 =? 0) = true).
    { apply Hcmp; [lia|]. apply firstn_all2. lia. }
    rewrite H. reflexivity.
Qed.

Lemma rsa_verify_is_hmac_check_witness :
  exists s,
    CryptoUtils.rsa_sign (Some [0x68; 0x69]) (Some (repeat 7 256)) 64
    = (SGX_SUCCESS, Some s, 32)
    /\ CryptoUtils.rsa_verify (Some [0x68; 0x69]) (Some s) 32 (Some (repeat 7 256))
       = (SGX_SUCCESS, Some true).
Proof.
  apply (proj2 (proj2 (rsa_verify_is_hmac_check [0x68; 0x69] (repeat 0 32) (repeat 7 256) 32
                         ltac:(cbn; lia) ltac:(rewrite repeat_length; lia)
                         ltac:(rewrite repeat_length; lia)))).
  lia.
Defined.

(** ** Symmetric "key pairs" *)

Section SymmetricKeys.

Context {world : Type} {platform : Platform world}.

(** X17.  For the AES and HMAC key types [generate_key_pair] stores the one
    secret it draws as private key and as public key alike, so
    [export_public_key] on such a pair hands out the first 16 (AES) or 32
    (HMAC) bytes of the secret key itself. *)
Theorem symmetric_public_key_is_the_secret (type : CryptoUtils.key_type_t) (w w' : world)
  (kp : CryptoUtils.key_pair_t) (key_len : Z) :
  type = CryptoUtils.KEY_TYPE_AES \/ type = CryptoUtils.KEY_TYPE_HMAC ->
  CryptoUtils.generate_key_pair type w = Some (SGX_SUCCESS, kp, w') ->
  32 <= key_len ->
  let size := match type with
              | CryptoUtils.KEY_TYPE_AES => 16
              | _ => 32
              end in
  CryptoUtils.kp_public_key kp = CryptoUtils.kp_private_key kp
  /\ CryptoUtils.export_public_key (Some kp) key_len
     = (SGX_SUCCESS, Some (firstn (Z.to_nat size) (CryptoUtils.kp_private_key kp)), size).
Proof.
  intros Htype Hgen Hlen size. subst size.
  destruct Htype as [-> | ->]; unfold CryptoUtils.generate_key_pair in Hgen.
  - destruct (sgx_read_rand (Z.to_nat CryptoUtils.AES_KEY_SIZE) w) as [[r private] w1].
    destruct r; inversion Hgen; subst. split; [reflexivity|].
    unfold CryptoUtils.export_public_key.
    cbn [CryptoUtils.is_valid CryptoUtils.kp_type CryptoUtils.kp_public_key
         CryptoUtils.kp_private_key negb].
    unfold CryptoUtils.AES_KEY_SIZE.
    destruct (key_len <? 16) eqn:E; [apply Z.ltb_lt in E; lia | reflexivity].
  - destruct (sgx_read_rand (Z.to_nat CryptoUtils.HMAC_KEY_SIZE) w) as [[r private] w1].
    destruct r; inversion Hgen; subst. split; [reflexivity|].
    unfold CryptoUtils.export_public_key.
    cbn [CryptoUtils.is_valid CryptoUtils.kp_type CryptoUtils.kp_public_key
         CryptoUtils.kp_private_key negb].
    unfold CryptoUtils.HMAC_KEY_SIZE.
    destruct (key_len <? 32) eqn:E; [apply Z.ltb_lt in E; lia | reflexivity].
Qed.

End SymmetricKeys.

Lemma symmetric_public_key_is_the_secret_witness :
  exists kp w',
    CryptoUtils.generate_key_pair (platform := stub_platform) CryptoUtils.KEY_TYPE_AES 7
    = Some (SGX_SUCCESS, kp, w')
    /\ CryptoUtils.export_public_key (Some kp) 32
       = (SGX_SUCCESS, Some (firstn 16 (CryptoUtils.kp_private_key kp)), 16).
Proof.
  eassert (Hgen : CryptoUtils.generate_key_pair (platform := stub_platform)
                    CryptoUtils.KEY_TYPE_AES 7 = Some (SGX_SUCCESS, _, _))
    by (vm_compute; reflexivity).
  eexists. eexists. split; [exact Hgen|].
  apply (symmetric_public_key_is_the_secret (platform := stub_platform)
           CryptoUtils.KEY_TYPE_AES 7 _ _ 32 (or_introl eq_refl) Hgen ltac:(lia)).
Defined.

(** ** Signing and checking an execution proof *)

Section ProofRoundTrip.

Context {world : Type} {platform : Platform world}.

(** X18.  The proof generation signs before it stores the public key: the
    signature it puts in a proof is over the hash, the timestamp, the nonce
    and 64 zero bytes.  [ecall_verify_execution_proof], given that proof and
    its hash, has the platform check the signature over the hash, the
    timestamp, the nonce and the public key of the proof.  The two messages
    are the same only if the public key is 64 zero bytes. *)
Theorem proof_signed_without_its_key (execution_hash : list Z) (proof_size size' : Z)
  (w w' : world) (p : execution_proof_t) :
  ecall_generate_execution_proof execution_hash proof_size w
  = (SGX_SUCCESS, Some p, size', w') ->
  let signed := proof_execution_hash p ++ le_bytes 8 (timestamp p) ++ nonce p ++ repeat 0 64 in
  let checked := proof_execution_hash p ++ le_bytes 8 (timestamp p) ++ nonce p
                 ++ public_key p in
  (exists private_key w3 w4,
     sgx_ecdsa_sign signed private_key w3 = (SGX_SUCCESS, signature p, w4))
  /\ (forall verify is_valid,
        ecall_verify_execution_proof verify (Some p) sizeof_execution_proof_t
          (Some (proof_execution_hash p)) is_valid
        = match verify checked (public_key p) (signature p) with
          | (SGX_SUCCESS, valid) => (SGX_SUCCESS, if valid then 1 else 0)
          | (ret, _) => (ret, 0)
          end)
  /\ (signed = checked <-> public_key p = repeat 0 64).
Proof.
  intros Hgen signed checked. subst signed checked.
  unfold ecall_generate_execution_proof in Hgen.
  destruct (ocall_get_timestamp w) as [ts w1].
  destruct (sgx_read_rand 16 w1) as [[r rnd] w2].
  destruct r; try discriminate.
  destruct (generate_key_pair w2) as [[r [private_key pub]] w3] eqn:Hkey.
  destruct r; try discriminate.
  cbn [proof_execution_hash timestamp nonce public_key signature] in Hgen.
  destruct (sgx_ecdsa_sign _ private_key w3) as [[r sig] w4] eqn:Hsign.
  destruct r; try discriminate.
  destruct (proof_size <? sizeof_execution_proof_t); try discriminate.
  inversion Hgen; subst. cbn [proof_execution_hash timestamp nonce public_key signature].
  split; [|split].
  - do 3 eexists. exact Hsign.
  - intros verify is_valid. unfold ecall_verify_execution_proof.
    rewrite Z.eqb_refl. cbn [negb].
    rewrite memcmp_equal_refl. cbn [negb]. reflexivity.
  - split.
    + intros H. apply app_inv_head in H. apply app_inv_head in H. apply app_inv_head in H.
      symmetry. exact H.
    + intros ->. reflexivity.
Qed.

End ProofRoundTrip.

Lemma proof_signed_without_its_key_witness :
  exists p w',
    ecall_generate_execution_proof (platform := stub_platform)
      (Sha256.sha256 []) sizeof_execution_proof_t 3
    = (SGX_SUCCESS, Some p, sizeof_execution_proof_t, w')
    /\ proof_execution_hash p ++ le_bytes 8 (timestamp p) ++ nonce p ++ repeat 0 64
       <> proof_execution_hash p ++ le_bytes 8 (timestamp p) ++ nonce p ++ public_key p.
Proof.
  eassert (Hgen : ecall_generate_execution_proof (platform := stub_platform)
                    (Sha256.sha256 []) sizeof_execution_proof_t 3
                  = (SGX_SUCCESS, Some _, sizeof_execution_proof_t, _))
    by (vm_compute; reflexivity).
  eexists. eexists. split; [exact Hgen|].
  intros Heq.
  apply (proj2 (proj2 (proof_signed_without_its_key (platform := stub_platform)
                         _ _ _ _ _ _ Hgen))) in Heq.
  vm_compute in Heq. discriminate.
Defined.

(** X19.  [ecall_verify_execution_proof] reports a proof valid exactly when
    the size passed is the size of a proof, the first 32 bytes of the proof
    are the expected hash, and the platform accepts the signature under the
    public key the proof itself carries; the status is then [SGX_SUCCESS].
    A hash that differs is not an error: the status is [SGX_SUCCESS] and
    [*is_valid] is 0. *)
Theorem proof_valid_iff (verify : list Z -> list Z -> list Z -> sgx_status_t * bool)
  (p : execution_proof_t) (proof_size : Z) (hash : list Z) (is_valid : Z)
  (ret : sgx_status_t) :
  (32 <= length (proof_execution_hash p))%nat -> (32 <= length hash)%nat ->
  (ecall_verify_execution_proof verify (Some p) proof_size (Some hash) is_valid = (ret, 1)
   <-> ret = SGX_SUCCESS
       /\ proof_size = sizeof_execution_proof_t
       /\ firstn 32 (proof_execution_hash p) = firstn 32 hash
       /\ verify (proof_data_of p) (public_key p) (signature p) = (SGX_SUCCESS, true))
  /\ (proof_size = sizeof_execution_proof_t ->
      firstn 32 (proof_execution_hash p) <> firstn 32 hash ->
      ecall_verify_execution_proof verify (Some p) proof_size (Some hash) is_valid
      = (SGX_SUCCESS, 0)).
Proof.
  intros Hp Hh. unfold ecall_verify_execution_proof.
  pose proof (memcmp_equal_iff (proof_execution_hash p) hash 32 Hp Hh) as Hcmp.
  destruct (proof_size =? sizeof_execution_proof_t) eqn:Esize; cbn [negb].
  2: { apply Z.eqb_neq in Esize. split; [|contradiction].
       split; [intros H; inversion H | intros (_ & H & _); contradiction]. }
  apply Z.eqb_eq in Esize.
  destruct (memcmp_equal (proof_execution_hash p) hash 32) eqn:Ecmp; cbn [negb].
  - assert (Heq : firstn 32 (proof_execution_hash p) = firstn 32 hash) by (apply Hcmp; reflexivity).
    split; [|intros _ Hne; contradiction].
    destruct (verify (proof_data_of p) (public_key p) (signature p)) as [r valid].
    destruct r, valid; split; try (intros H; inversion H; auto; fail);
      try (intros (_ & _ & _ & H); inversion H; fail);
      try (intros (-> & _); reflexivity).
  - split; [|reflexivity].
    split; [intros H; inversion H|].
    intros (_ & _ & H & _). apply Hcmp in H. discriminate.
Qed.

Lemma proof_valid_iff_witness :
  ecall_verify_execution_proof (fun _ _ _ => (SGX_SUCCESS, true))
    (Some (mkProof (repeat 1 32) 0 (repeat 0 16) (repeat 0 64) (repeat 0 64)))
    sizeof_execution_proof_t (Some (repeat 2 32)) 5
  = (SGX_SUCCESS, 0).
Proof.
  apply (proj2 (proof_valid_iff (fun _ _ _ => (SGX_SUCCESS, true))
                  (mkProof (repeat 1 32) 0 (repeat 0 16) (repeat 0 64) (repeat 0 64))
                  sizeof_execution_proof_t (repeat 2 32) 5 SGX_SUCCESS
                  ltac:(cbn; lia) ltac:(cbn; lia))).
  - reflexivity.
  - cbn. discriminate.
Defined.

(** ** Initialization *)

Section InitFacts.

Context {world : Type} {platform : Platform world}.

(** X20.  [ecall_init_contract_verifier] on an initialized enclave returns
    [SGX_SUCCESS] and changes nothing: no key is drawn again and the
    execution counter keeps its value.  On an enclave that is not
    initialized, success leaves both flags set, the counter at 0, the
    verifier hash equal to the SHA-256 of the verifier's text, and two keys
    that are two successive draws of 16 bytes; any failure leaves the enclave
    not initialized. *)
Theorem init_once (g g' : enclave_globals) (w w' : world) (ret : sgx_status_t) :
  ecall_init_contract_verifier g w = (ret, g', w') ->
  (g_verifier_initialized g = true -> ret = SGX_SUCCESS /\ g' = g /\ w' = w)
  /\ (g_verifier_initialized g = false -> ret = SGX_SUCCESS ->
      g_verifier_initialized g' = true
      /\ g_verifier g' = mkVerifier true 0
      /\ g_verifier_hash g' = sgx_sha256_msg verifier_info
      /\ exists w1,
           sgx_read_rand 16 w = (SGX_SUCCESS, g_master_key g', w1)
           /\ sgx_read_rand 16 w1 = (SGX_SUCCESS, g_verifier_master_key g', w'))
  /\ (g_verifier_initialized g = false -> ret <> SGX_SUCCESS ->
      g_verifier_initialized g' = false).
Proof.
  intros Hinit. unfold ecall_init_contract_verifier, init_contract_verifier in Hinit.
  remember (sgx_sha256_msg verifier_info) as digest eqn:Hdigest in *. clear Hdigest.
  destruct (g_verifier_initialized g) eqn:Hflag.
  { inversion Hinit; subst. repeat split; try discriminate; auto. }
  split; [discriminate|].
  destruct (sgx_read_rand 16 w) as [[r1 key] w1] eqn:H1.
  destruct r1;
    try (inversion Hinit; subst; split; [intros _ H; discriminate H | auto]).
  destruct (sgx_read_rand 16 w1) as [[r2 vkey] w2] eqn:H2.
  destruct r2; inversion Hinit; subst;
    cbn [g_verifier_initialized g_verifier g_verifier_hash g_master_key
         g_verifier_master_key];
    try (split; [intros _ H; discriminate H | auto]).
  split; [|intros _ H; contradiction].
  intros _ _. repeat split. exists w1. auto.
Qed.

End InitFacts.

Lemma init_once_witness :
  exists g' w',
    ecall_init_contract_verifier (platform := stub_platform)
      (mkGlobals false (mkVerifier false 0) (repeat 0 16) (repeat 0 32) (repeat 0 16)) 0
    = (SGX_SUCCESS, g', w')
    /\ g_verifier_initialized g' = true
    /\ ecall_init_contract_verifier (platform := stub_platform) g' w' = (SGX_SUCCESS, g', w').
Proof.
  eassert (H1 : ecall_init_contract_verifier (platform := stub_platform)
                  (mkGlobals false (mkVerifier false 0) (repeat 0 16) (repeat 0 32)
                             (repeat 0 16)) 0
                = (SGX_SUCCESS, _, _)) by (vm_compute; reflexivity).
  eexists. eexists. split; [exact H1|].
  pose proof (proj1 (proj2 (init_once (platform := stub_platform) _ _ _ _ _ H1))
                eq_refl eq_refl) as (Hflag & _).
  split; [exact Hflag|].
  match goal with
  | |- ecall_init_contract_verifier ?g ?w = _ =>
      destruct (ecall_init_contract_verifier (platform := stub_platform) g w)
        as [[r2 g2] w2] eqn:H2;
      destruct (proj1 (init_once (platform := stub_platform) _ _ _ _ _ H2) Hflag)
        as (-> & -> & ->)
  end.
  reflexivity.
Defined.

(** ** The stack and the memory check *)

Lemma load_rejects {stale : Z} (c : contract_execution_context_t) (a : Z) (s : vm_stack_t) :
  stack c = a :: s -> MEMORY_SIZE - 8 <= a ->
  execute_instruction stale c OP_LOAD = Ret SGX_ERROR_CONTRACT_EXECUTION_FAILED (set_stack c s).
Proof.
  intros Hstack Ha. unfold execute_instruction. cbn [Z.eqb OP_LOAD OP_NOP OP_PUSH OP_POP
    OP_ADD OP_SUB OP_MUL OP_DIV OP_MOD OP_AND OP_OR OP_XOR OP_NOT OP_EQ OP_LT OP_GT OP_JMP
    OP_JMPIF Pos.eqb].
  rewrite Hstack. cbn [stack_pop].
  destruct (a >=? MEMORY_SIZE - 8) eqn:E; [reflexivity|].
  rewrite Z.geb_leb in E. apply Z.leb_gt in E. lia.
Qed.

(** X21.  The operand stack is last in, first out: on a stack of fewer than
    256 entries a push succeeds, a peek then shows the value pushed and a pop
    returns it and leaves the stack as it was before the push.  A push on a
    stack of 256 entries fails and leaves the stack as it is, and so do a pop
    and a peek on the empty stack. *)
Theorem push_then_pop (s : vm_stack_t) (value : Z) :
  (Z.of_nat (length s) < STACK_SLOTS ->
   exists s1,
     stack_push s value = (SGX_SUCCESS, s1)
     /\ stack_peek s1 = (SGX_SUCCESS, value)
     /\ stack_pop s1 = (SGX_SUCCESS, value, s))
  /\ (STACK_SLOTS <= Z.of_nat (length s) ->
      stack_push s value = (SGX_ERROR_INVALID_PARAMETER, s))
  /\ (stack_is_empty s = true ->
      fst (stack_peek s) = SGX_ERROR_INVALID_PARAMETER
      /\ fst (fst (stack_pop s)) = SGX_ERROR_INVALID_PARAMETER
      /\ snd (stack_pop s) = s).
Proof.
  unfold stack_push, stack_is_full, stack_is_empty. split; [|split].
  - intros Hroom. destruct (Z.of_nat (length s) >=? STACK_SLOTS) eqn:E;
      [rewrite Z.geb_leb in E; apply Z.leb_le in E; lia|].
    exists (value :: s). repeat split.
  - intros Hfull. destruct (Z.of_nat (length s) >=? STACK_SLOTS) eqn:E; [reflexivity|].
    rewrite Z.geb_leb in E. apply Z.leb_gt in E. lia.
  - intros Hempty. destruct s as [|v s]; [repeat split|].
    cbn [length] in Hempty. apply Z.eqb_eq in Hempty. lia.
Qed.

(** X22.  The bounds check of LOAD is not [validate_memory_access]: for a
    64-bit address on top of the stack LOAD succeeds exactly below 4088,
    while [validate_memory_access], which no instruction calls, accepts eight
    bytes at every address up to 4088 and, its sum wrapping, at the eight
    addresses from 2^64 - 8 on. *)
Theorem memory_check_differs {stale : Z}
  (c : contract_execution_context_t) (a : Z) (s : vm_stack_t) :
  in_range a -> stack c = a :: s -> Z.of_nat (length (stack c)) <= STACK_SLOTS ->
  ((exists c', execute_instruction stale c OP_LOAD = Ret SGX_SUCCESS c') <-> a < 4088)
  /\ (validate_memory_access a 8 = true <-> a <= 4088 \/ 2 ^ 64 - 8 <= a).
Proof.
  intros Ha Hstack Hlen. unfold in_range, modulus in Ha. split.
  - split.
    + intros [c' Hload]. destruct (Z.lt_ge_cases a 4088) as [Hlt | Hge]; [exact Hlt|].
      rewrite (load_rejects c a s Hstack) in Hload by (unfold MEMORY_SIZE; lia).
      discriminate.
    + intros Hlt. eexists. apply (load_evaluates c a s Hstack).
      * unfold MEMORY_SIZE. lia.
      * rewrite Hstack in Hlen. cbn [length] in Hlen. lia.
  - unfold validate_memory_access, u64, modulus, MEMORY_SIZE. rewrite Z.leb_le.
    destruct (Z.lt_ge_cases (a + 8) (2 ^ 64)) as [Hlt | Hge].
    + rewrite Z.mod_small by lia. lia.
    + replace ((a + 8) mod 2 ^ 64) with (a + 8 - 2 ^ 64).
      * lia.
      * apply Z.mod_unique with (q := 1); lia.
Qed.

Lemma memory_check_differs_witness :
  ~ (exists c', execute_instruction 0 (set_stack (fresh_context [OP_HALT] None 0) [4088]) OP_LOAD
                = Ret SGX_SUCCESS c')
  /\ validate_memory_access 4088 8 = true.
Proof.
  pose proof (memory_check_differs (stale := 0)
                (set_stack (fresh_context [OP_HALT] None 0) [4088]) 4088 []
                ltac:(unfold in_range, U64.modulus; lia) eq_refl
                ltac:(cbn; unfold STACK_SLOTS; lia)) as [H1 H2].
  split.
  - intros H. apply H1 in H. lia.
  - apply H2. lia.
Defined.

(** ** Key derivation *)

Lemma fill_blocks_spec (t : list Z) (fuel : nat) : length t = 32%nat ->
  forall remaining, 0 <= remaining <= Z.of_nat fuel ->
    length (fill_blocks fuel t remaining) = Z.to_nat remaining
    /\ forall i, (i < Z.to_nat remaining)%nat ->
         nth i (fill_blocks fuel t remaining) 0 = nth (i mod 32) t 0.
Proof.
  intros Ht. induction fuel as [|fuel IH]; intros remaining Hr.
  - assert (remaining = 0) by lia. subst. cbn. split; [reflexivity | intros i Hi; lia].
  - cbn [fill_blocks]. destruct (remaining >? 0) eqn:Epos.
    2: { assert (remaining = 0) by lia. subst. cbn. split; [reflexivity | intros i Hi; lia]. }
    assert (Hpos : 0 < remaining) by lia.
    destruct (remaining <? 32) eqn:Esmall.
    + assert (Hsmall : remaining < 32) by lia.
      rewrite Z.sub_diag.
      destruct (IH 0 ltac:(lia)) as [Hlen _].
      apply length_zero_iff_nil in Hlen. rewrite Hlen, app_nil_r.
      split.
      * rewrite length_firstn. lia.
      * intros i Hi. rewrite nth_firstn.
        destruct (Nat.ltb_spec i (Z.to_nat remaining)); [|lia].
        rewrite Nat.mod_small by lia. reflexivity.
    + assert (Hbig : 32 <= remaining) by lia.
      destruct (IH (remaining - 32) ltac:(lia)) as [Hlen Hnth].
      change (Z.to_nat 32) with 32%nat.
      rewrite firstn_all2 by lia.
      split.
      * rewrite length_app, Hlen. lia.
      * intros i Hi. destruct (Nat.lt_ge_cases i 32) as [Hlt | Hge].
        -- rewrite app_nth1 by lia. rewrite Nat.mod_small by lia. reflexivity.
        -- rewrite app_nth2 by lia. rewrite Ht, Hnth by lia.
           f_equal. replace i with ((i - 32) + 1 * 32)%nat at 2 by lia.
           rewrite Nat.Div0.mod_add. reflexivity.
Qed.

Lemma temp_key_length (n : nat) (pw first : list Z) (len : Z) :
  length first = 32%nat ->
  length (Nat.iter n (fun t => CryptoUtils.compute_hmac_sha256 t pw len) first) = 32%nat.
Proof.
  intros H. destruct n; [exact H|]. cbn [Nat.iter].
  unfold CryptoUtils.compute_hmac_sha256 at 1. apply hmac_length.
Qed.

(** X23.  [derive_key_pbkdf2] with a password, a salt and a length above 0
    succeeds and writes that many bytes.  Beyond the first 32 the key holds
    nothing new: byte [i] is byte [i - 32], so a long key is the first block
    repeated.  With [iterations] 0 or 1 no iteration runs, and the first
    block is the HMAC-SHA256 of the salt under the password. *)
Theorem derived_key_repeats (password salt : list Z) (iterations key_len : Z) :
  0 < key_len ->
  exists key,
    derive_key_pbkdf2 (Some password) (Some salt) iterations key_len = (SGX_SUCCESS, Some key)
    /\ length key = Z.to_nat key_len
    /\ (forall i, (32 <= i < Z.to_nat key_len)%nat -> nth i key 0 = nth (i - 32) key 0)
    /\ (iterations <= 1 ->
        firstn 32 key
        = firstn (Z.to_nat key_len)
            (CryptoUtils.compute_hmac_sha256 salt password (Z.of_nat (length password)))).
Proof.
  intros Hlen. unfold derive_key_pbkdf2.
  destruct (key_len =? 0) eqn:E0; [lia|].
  set (first := CryptoUtils.compute_hmac_sha256 salt password _).
  assert (Hfirst : length first = 32%nat) by apply hmac_length.
  pose proof (temp_key_length (Z.to_nat (iterations - 1)) password first
                (Z.of_nat (length password)) Hfirst) as Ht.
  assert (Hone : iterations <= 1 ->
                 Nat.iter (Z.to_nat (iterations - 1))
                   (fun t => CryptoUtils.compute_hmac_sha256 t password
                               (Z.of_nat (length password))) first = first).
  { intros Hi. replace (Z.to_nat (iterations - 1)) with 0%nat by lia. reflexivity. }
  set (t := Nat.iter _ _ first) in *. clearbody t first.
  eexists. split; [reflexivity|].
  assert (Hall : length (firstn (Z.to_nat (if key_len <? 32 then key_len else 32)) t ++
                   (if key_len >? 32
                    then fill_blocks (Z.to_nat (key_len - 32)) t (key_len - 32) else []))
                 = Z.to_nat key_len
                 /\ forall i, (i < Z.to_nat key_len)%nat ->
                      nth i (firstn (Z.to_nat (if key_len <? 32 then key_len else 32)) t ++
                             (if key_len >? 32
                              then fill_blocks (Z.to_nat (key_len - 32)) t (key_len - 32)
                              else [])) 0
                      = nth (i mod 32) t 0).
  { destruct (key_len <? 32) eqn:Esmall.
    - destruct (key_len >? 32) eqn:Ebig; [lia|]. rewrite app_nil_r. split.
      + rewrite length_firstn. lia.
      + intros i Hi. rewrite nth_firstn.
        destruct (Nat.ltb_spec i (Z.to_nat key_len)); [|lia].
        rewrite Nat.mod_small by lia. reflexivity.
    - change (Z.to_nat 32) with 32%nat. rewrite firstn_all2 by lia.
      destruct (key_len >? 32) eqn:Ebig.
      + destruct (fill_blocks_spec t (Z.to_nat (key_len - 32)) Ht (key_len - 32)
                    ltac:(lia)) as [Hl Hn].
        split; [rewrite length_app, Hl; lia|].
        intros i Hi. destruct (Nat.lt_ge_cases i 32) as [Hlt | Hge].
        * rewrite app_nth1 by lia. rewrite Nat.mod_small by lia. reflexivity.
        * rewrite app_nth2 by lia. rewrite Ht, Hn by lia.
          f_equal. replace i with ((i - 32) + 1 * 32)%nat at 2 by lia.
          rewrite Nat.Div0.mod_add. reflexivity.
      + rewrite app_nil_r. split; [lia|].
        intros i Hi. rewrite Nat.mod_small by lia. reflexivity. }
  destruct Hall as [Hl Hn]. split; [exact Hl|]. split.
  - intros i Hi. rewrite !Hn by lia. f_equal.
    replace i with ((i - 32) + 1 * 32)%nat at 1 by lia.
    rewrite Nat.Div0.mod_add. reflexivity.
  - intros Hi. rewrite <- (Hone Hi).
    destruct (key_len <? 32) eqn:Esmall.
    + destruct (key_len >? 32) eqn:Ebig; [lia|]. rewrite app_nil_r.
      apply firstn_all2. rewrite length_firstn. lia.
    + change (Z.to_nat 32) with 32%nat. rewrite (firstn_all2 t (n := 32)) by lia.
      rewrite (firstn_all2 t (n := Z.to_nat key_len)) by lia.
      rewrite firstn_app, firstn_all2 by lia.
      replace (32 - length t)%nat with 0%nat by lia. cbn [firstn]. apply app_nil_r.
Qed.

Lemma derived_key_repeats_witness :
  exists key,
    derive_key_pbkdf2 (Some [1; 2]) (Some [3]) 3 70 = (SGX_SUCCESS, Some key)
    /\ length key = 70%nat
    /\ nth 69 key 0 = nth 37 key 0.
Proof.
  destruct (derived_key_repeats [1; 2] [3] 3 70 ltac:(lia)) as (key & Hkey & Hlen & Hrep & _).
  exists key. split; [exact Hkey|]. split; [exact Hlen|].
  apply (Hrep 69%nat). change (Z.to_nat 70) with 70%nat. lia.
Defined.
